(** * QueueCTL: job lifecycle and acquisition protocol

    A shallow embedding of [queuectl/job.py], [queuectl/storage.py],
    [queuectl/config.py], the worker loop of [queuectl/worker.py] and the
    [enqueue], [dlq] and [status] commands of [queuectl/cli.py], followed by
    the properties of the job store, the retry state machine and the worker
    loop.

    Conventions of the embedding:
    - the [jobs] table (TEXT PRIMARY KEY [id]) is a finite map from ids to
      rows;
    - every read of the clock ([datetime.utcnow()]) is an explicit argument;
    - timestamps are stored as ISO-8601 text and compared as text, as the
      SQL statements do;
    - a child process is what [subprocess.run] lets its caller observe: how
      it ends, and for each output stream the text it decodes to, or the
      error of decoding it;
    - Python exceptions that the modelled code can raise are values of
      [result]. *)

From Stdlib Require Import ZArith Ascii String.
From stdpp Require Import base tactics option list sorting strings pretty gmap fin_maps.

Local Open Scope Z_scope.

(** ** Python's [datetime] (naive UTC values) *)

Module datetime.

(** A [datetime] is the number of microseconds elapsed since
    [datetime.min] = 0001-01-01T00:00:00. *)
Definition us_per_second : Z := 1000000.
Definition us_per_day : Z := 86400 * us_per_second.

(** [datetime.max] = 9999-12-31T23:59:59.999999. *)
Definition max : Z := 3652059 * us_per_day - 1.

Definition valid (d : Z) : bool := (0 <=? d) && (d <=? max).

(** [d + timedelta(seconds=s)] for an integer [s]; [None] stands for
    [OverflowError] (the sum leaves [datetime.min .. datetime.max]). *)
Definition add_seconds (d s : Z) : option Z :=
  let r := d + s * us_per_second in
  if valid r then Some r else None.

(** Proleptic Gregorian date of a day number (0 is 0001-01-01). *)
Definition civil (days : Z) : Z * Z * Z :=
  let z := days + 306 in
  let era := z / 146097 in
  let doe := z mod 146097 in
  let yoe := (doe - doe / 1460 + doe / 36524 - doe / 146096) / 365 in
  let doy := doe - (365 * yoe + yoe / 4 - yoe / 100) in
  let mp := (5 * doy + 2) / 153 in
  let d := doy - (153 * mp + 2) / 5 + 1 in
  let m := if mp <? 10 then mp + 3 else mp - 9 in
  let y := yoe + era * 400 + (if m <=? 2 then 1 else 0) in
  (y, m, d).

Definition digit (n : Z) : string :=
  String (ascii_of_nat (48 + Z.to_nat (n mod 10))) EmptyString.

Fixpoint digits (width : nat) (n : Z) : string :=
  match width with
  | O => EmptyString
  | S w => digits w (n / 10) +:+ digit n
  end.

(** [datetime.isoformat()]: the fraction is printed only when the
    microsecond field is not zero. *)
Definition isoformat (d : Z) : string :=
  let '(y, m, dd) := civil (d / us_per_day) in
  let secs := (d mod us_per_day) / us_per_second in
  let us := d mod us_per_second in
  digits 4 y +:+ "-" +:+ digits 2 m +:+ "-" +:+ digits 2 dd +:+ "T" +:+
  digits 2 (secs / 3600) +:+ ":" +:+ digits 2 (secs / 60 mod 60) +:+ ":" +:+
  digits 2 (secs mod 60) +:+
  (if us =? 0 then EmptyString else "." +:+ digits 6 us).

(** [datetime.utcnow().isoformat() + "Z"], the text every timestamp column
    holds. *)
Definition timestamp (now : Z) : string := isoformat now +:+ "Z".

(** The steps of [civil], by name: the year a day of a 400-year era falls
    in (eras start on 1 March), the first day of such a year, and the month
    (counted from March) and the day of a day of the year. *)
Definition year_of_era (doe : Z) : Z :=
  (doe - doe / 1460 + doe / 36524 - doe / 146096) / 365.

Definition year_start (y : Z) : Z := 365 * y + y / 4 - y / 100.

Definition month_day (doy : Z) : Z * Z :=
  let mp := (5 * doy + 2) / 153 in (mp, doy - (153 * mp + 2) / 5 + 1).

(** The order of dates [(year, month, day)]. *)
Definition date_lt (a b : Z * Z * Z) : Prop :=
  a.1.1 < b.1.1 \/ (a.1.1 = b.1.1 /\ (a.1.2 < b.1.2 \/ (a.1.2 = b.1.2 /\ a.2 < b.2))).

(** Comparing pairs: the first components decide unless they are equal. *)
Definition lex (c1 c2 : comparison) : comparison :=
  match c1 with Eq => c2 | _ => c1 end.

(** The place of an instant in the order of the texts that [timestamp]
    prints: instants rank in the order of time, except that an instant on a
    whole second, printed without a fraction, ranks after every other
    instant of its second. *)
Definition text_rank (d : Z) : Z :=
  if d mod us_per_second =? 0 then 2 * d + 1999999 else 2 * d.

End datetime.

(** ** Exceptions *)

(** The exceptions the modelled code can raise: [sqlite3.IntegrityError]
    (primary key violation) and [OverflowError] (a date out of range, or an
    integer that does not fit SQLite's 64-bit INTEGER). *)
Inductive exn := IntegrityError | OverflowError.

Inductive result (A : Type) :=
  | Ok (a : A)
  | Raise (e : exn).
Arguments Ok {A} a.
Arguments Raise {A} e.

(** ** The job record *)

(** The five values the [state] column takes. *)
Inductive job_state := pending | processing | completed | failed | dead.

#[global] Instance job_state_eq_dec : EqDecision job_state.
Proof. solve_decision. Defined.

(** A keyword dictionary [**updates]: for each column, either absent or the
    value to store.  Nullable columns carry an [option] value. *)
Record updates := {
  u_id : option string;
  u_command : option string;
  u_state : option job_state;
  u_attempts : option Z;
  u_max_retries : option Z;
  u_next_retry_at : option (option string);
  u_created_at : option string;
  u_updated_at : option string;
  u_completed_at : option (option string);
  u_error_message : option (option string)
}.

(** What a child process wrote to one of its pipes, as [text=True] lets the
    caller see it: [Text s] when the bytes decode (in the locale's encoding,
    newlines translated) to the text [s]; [Undecodable msg] when they do
    not, in which case decoding raises [UnicodeDecodeError] with the message
    [msg]. *)
Inductive output :=
  | Text (s : string)
  | Undecodable (msg : string).

(** A process started by [subprocess.run(command, shell=True, ...)], as far
    as the caller can observe it. *)
Inductive process :=
  | Exits (elapsed : Z) (returncode : Z) (stdout stderr : output)
  | Hangs
  | SpawnNotFound
  | SpawnFails (msg : string).

(** What [subprocess.run] hands back to its caller. *)
Inductive run_outcome :=
  | CompletedProcess (returncode : Z) (stdout stderr : string)
  | TimeoutExpired
  | FileNotFoundError
  | OtherException (msg : string).

(** The end of [communicate()] under [text=True]: the collected bytes of
    [stdout], then those of [stderr], are decoded; a [UnicodeDecodeError]
    leaves [subprocess.run] as any other exception does. *)
Definition decoded (rc : Z) (stdout stderr : output) : run_outcome :=
  match stdout, stderr with
  | Text out, Text err => CompletedProcess rc out err
  | Undecodable msg, _ => OtherException msg
  | Text _, Undecodable msg => OtherException msg
  end.

(** [subprocess.run(..., capture_output=True, text=True, check=False)] with
    an optional timeout in seconds. [None] as a result means that the call
    never returns: without a timeout it waits for the child for ever. The
    timeout is checked while the output is collected, before it is
    decoded. *)
Definition subprocess_run (timeout : option Z) (p : process) : option run_outcome :=
  match p with
  | SpawnNotFound => Some FileNotFoundError
  | SpawnFails msg => Some (OtherException msg)
  | Exits elapsed rc out err =>
      match timeout with
      | Some t => if t <? elapsed then Some TimeoutExpired
                  else Some (decoded rc out err)
      | None => Some (decoded rc out err)
      end
  | Hangs =>
      match timeout with
      | Some _ => Some TimeoutExpired
      | None => None
      end
  end.

(** The [return] statement by which [Job.execute] leaves. *)
Inductive exit_path :=
  | ReturnSuccess
  | ReturnNonZero (error_msg : string)
  | ReturnTimeout (error_msg : string)
  | ReturnNotFound (error_msg : string)
  | ReturnException (error_msg : string).

Module Job.

(** One row of the [jobs] table; also the fields of a [Job] object
    ([Job(data)] copies them one by one). *)
Record t := mk {
  id : string;
  command : string;
  state : job_state;
  attempts : Z;
  max_retries : Z;
  next_retry_at : option string;
  created_at : string;
  updated_at : string;
  completed_at : option string;
  error_message : option string
}.

Definition set_state (v : job_state) (j : t) : t :=
  mk (id j) (command j) v (attempts j) (max_retries j) (next_retry_at j)
     (created_at j) (updated_at j) (completed_at j) (error_message j).

Definition set_attempts (v : Z) (j : t) : t :=
  mk (id j) (command j) (state j) v (max_retries j) (next_retry_at j)
     (created_at j) (updated_at j) (completed_at j) (error_message j).

Definition set_next_retry_at (v : option string) (j : t) : t :=
  mk (id j) (command j) (state j) (attempts j) (max_retries j) v
     (created_at j) (updated_at j) (completed_at j) (error_message j).

Definition set_updated_at (v : string) (j : t) : t :=
  mk (id j) (command j) (state j) (attempts j) (max_retries j) (next_retry_at j)
     (created_at j) v (completed_at j) (error_message j).

Definition set_completed_at (v : option string) (j : t) : t :=
  mk (id j) (command j) (state j) (attempts j) (max_retries j) (next_retry_at j)
     (created_at j) (updated_at j) v (error_message j).

Definition set_error_message (v : option string) (j : t) : t :=
  mk (id j) (command j) (state j) (attempts j) (max_retries j) (next_retry_at j)
     (created_at j) (updated_at j) (completed_at j) v.

(** [to_dict]: every field, under its column name. *)
Definition to_dict (j : t) : updates :=
  {| u_id := Some (id j);
     u_command := Some (command j);
     u_state := Some (state j);
     u_attempts := Some (attempts j);
     u_max_retries := Some (max_retries j);
     u_next_retry_at := Some (next_retry_at j);
     u_created_at := Some (created_at j);
     u_updated_at := Some (updated_at j);
     u_completed_at := Some (completed_at j);
     u_error_message := Some (error_message j) |}.

(** [if timeout:] — [None] and [0] are both false. *)
Definition truthy (timeout : option Z) : bool :=
  match timeout with
  | Some t => negb (t =? 0)
  | None => false
  end.

(** [result.stderr or result.stdout or f"Command failed with exit code ..."] *)
Definition failure_message (rc : Z) (out err : string) : string :=
  if negb (String.eqb err "") then err
  else if negb (String.eqb out "") then out
  else "Command failed with exit code " +:+ pretty rc.

(** [execute], by the [return] it reaches; [None] when the call to
    [subprocess.run] never comes back. *)
Definition execute_path (j : t) (timeout : option Z) (p : process) : option exit_path :=
  let given := if truthy timeout then timeout else None in
  match subprocess_run given p with
  | None => None
  | Some (CompletedProcess rc out err) =>
      if rc =? 0 then Some ReturnSuccess
      else Some (ReturnNonZero (failure_message rc out err))
  | Some TimeoutExpired =>
      Some (ReturnTimeout ("Command timed out after " +:+
                           from_option pretty "None" timeout +:+ " seconds"))
  | Some FileNotFoundError =>
      Some (ReturnNotFound ("Command not found: " +:+ command j))
  | Some (OtherException msg) => Some (ReturnException msg)
  end.

(** The pair [(success, error_message)] each [return] carries. *)
Definition returned (r : exit_path) : bool * option string :=
  match r with
  | ReturnSuccess => (true, None)
  | ReturnNonZero m | ReturnTimeout m | ReturnNotFound m | ReturnException m =>
      (false, Some m)
  end.

Definition execute (j : t) (timeout : option Z) (p : process)
  : option (bool * option string) :=
  returned <$> execute_path j timeout p.

(** [backoff_base ** attempts] seconds from now.  [backoff_base] is the
    integer read from the configuration (default 2); [attempts] is at
    least 1 whenever this is called from [mark_for_retry]. *)
Definition calculate_next_retry (backoff_base now : Z) (j : t) : result string :=
  let delay_seconds := backoff_base ^ attempts j in
  match datetime.add_seconds now delay_seconds with
  | Some next_retry => Ok (datetime.isoformat next_retry +:+ "Z")
  | None => Raise OverflowError
  end.

Definition should_retry (j : t) : bool := attempts j <? max_retries j.

Definition mark_for_retry (backoff_base now : Z) (j : t) : result t :=
  let j := set_attempts (attempts j + 1) j in
  if should_retry j then
    let j := set_state failed j in
    match calculate_next_retry backoff_base now j with
    | Ok next_retry => Ok (set_next_retry_at (Some next_retry) j)
    | Raise e => Raise e
    end
  else
    Ok (set_next_retry_at None (set_state dead j)).

Definition mark_completed (now : Z) (j : t) : t :=
  set_completed_at (Some (datetime.timestamp now)) (set_state completed j).

Definition mark_failed (error_message : option string) (backoff_base now : Z) (j : t)
  : result t :=
  mark_for_retry backoff_base now (set_error_message error_message j).

(** [mark_failed] applied once per entry of [failures], each time to the job
    the previous failure produced: what the worker does to a job that is
    picked up again after every failure. An entry is the error message and
    the clock reading of that failure. *)
Fixpoint fail_repeatedly (backoff_base : Z) (failures : list (option string * Z)) (j : t)
  : result t :=
  match failures with
  | [] => Ok j
  | (error_message, now) :: failures =>
      match mark_failed error_message backoff_base now j with
      | Ok j => fail_repeatedly backoff_base failures j
      | Raise e => Raise e
      end
  end.

End Job.

(** ** The storage engine *)

(** The [jobs] table: [id] is the primary key, so the table is a finite map
    from ids to rows. *)
Abbreviation DB := (gmap string Job.t).

Module JobStorage.

(** [UPDATE jobs SET col = ?, ...]: the columns present in the dictionary
    are overwritten, the others kept. *)
Definition apply_updates (u : updates) (row : Job.t) : Job.t :=
  Job.mk (default (Job.id row) (u_id u))
         (default (Job.command row) (u_command u))
         (default (Job.state row) (u_state u))
         (default (Job.attempts row) (u_attempts u))
         (default (Job.max_retries row) (u_max_retries u))
         (default (Job.next_retry_at row) (u_next_retry_at u))
         (default (Job.created_at row) (u_created_at u))
         (default (Job.updated_at row) (u_updated_at u))
         (default (Job.completed_at row) (u_completed_at u))
         (default (Job.error_message row) (u_error_message u)).

(** [updates["updated_at"] = ...] *)
Definition with_updated_at (v : string) (u : updates) : updates :=
  {| u_id := u_id u; u_command := u_command u; u_state := u_state u;
     u_attempts := u_attempts u; u_max_retries := u_max_retries u;
     u_next_retry_at := u_next_retry_at u; u_created_at := u_created_at u;
     u_updated_at := Some v;
     u_completed_at := u_completed_at u; u_error_message := u_error_message u |}.

(** [SELECT * FROM jobs WHERE id = ?], first row or [None]. *)
Definition get_job (job_id : string) (db : DB) : option Job.t := db !! job_id.

(** The integers [sqlite3] binds to a statement: those of a signed 64-bit
    word. Binding any other Python [int] raises [OverflowError] before the
    statement runs. *)
Definition sqlite_int (n : Z) : bool := (- 2 ^ 63 <=? n) && (n <? 2 ^ 63).

(** [INSERT INTO jobs ...]: [next_retry_at], [completed_at] and
    [error_message] are left NULL. The parameters are bound first, so a
    [max_retries] outside 64 bits raises [OverflowError] and nothing is
    inserted; then a taken id violates the primary key. *)
Definition create_job (job_id command : string) (max_retries now : Z) (db : DB)
  : result (DB * option Job.t) :=
  let now := datetime.timestamp now in
  if negb (sqlite_int max_retries) then Raise OverflowError
  else
    match db !! job_id with
    | Some _ => Raise IntegrityError
    | None =>
        let db' := <[job_id := Job.mk job_id command pending 0 max_retries None
                                      now now None None]> db in
        Ok (db', get_job job_id db')
    end.

(** [UPDATE jobs SET ... WHERE id = ?] followed by [get_job(job_id)].
    Moving the row onto another row's id violates the primary key. *)
Definition update_job (job_id : string) (u : updates) (now : Z) (db : DB)
  : result (DB * option Job.t) :=
  let u := with_updated_at (datetime.timestamp now) u in
  match db !! job_id with
  | None => Ok (db, get_job job_id db)
  | Some row =>
      let row' := apply_updates u row in
      if decide (Job.id row' = job_id) then
        let db' := <[job_id := row']> db in Ok (db', get_job job_id db')
      else
        match db !! Job.id row' with
        | Some _ => Raise IntegrityError
        | None =>
            let db' := <[Job.id row' := row']> (delete job_id db) in
            Ok (db', get_job job_id db')
        end
  end.

(** [next_retry_at IS NULL OR next_retry_at <= ?], on TEXT values. *)
Definition retry_elapsed (now : string) (row : Job.t) : bool :=
  match Job.next_retry_at row with
  | None => true
  | Some t => String.leb t now
  end.

(** The WHERE clause shared by [get_pending_jobs] and [acquire_job]. *)
Definition ready (now : string) (row : Job.t) : bool :=
  (bool_decide (Job.state row = pending) || bool_decide (Job.state row = failed))
  && retry_elapsed now row.

(** [ORDER BY created_at ASC] compares the TEXT column. *)
Definition created_le (a b : Job.t) : Prop :=
  String.leb (Job.created_at a) (Job.created_at b) = true.

#[global] Instance created_le_dec : RelDecision created_le.
Proof. intros a b. unfold created_le. apply _. Defined.

(** [LIMIT ?]: a negative limit means no limit in SQLite. *)
Definition sql_limit {A} (limit : Z) (rows : list A) : list A :=
  if limit <? 0 then rows else take (Z.to_nat limit) rows.

Definition rows (db : DB) : list Job.t := (map_to_list db).*2.

(** The rows selected by the WHERE clause of [get_pending_jobs]. *)
Definition ready_rows (now : string) (db : DB) : list Job.t :=
  filter (fun row => ready now row = true) (rows db).

Definition get_pending_jobs (limit now : Z) (db : DB) : list Job.t :=
  let now := datetime.timestamp now in
  sql_limit limit (merge_sort created_le (ready_rows now db)).

(** One conditional [UPDATE]; [success] is [cursor.rowcount > 0]. Only the
    [state] column is assigned. *)
Definition acquire_job (job_id : string) (now : Z) (db : DB) : DB * bool :=
  let now := datetime.timestamp now in
  match db !! job_id with
  | Some row =>
      if ready now row then (<[job_id := Job.set_state processing row]> db, true)
      else (db, false)
  | None => (db, false)
  end.

(** [UPDATE ... WHERE id = ? AND state = 'dead'] followed by
    [get_job(job_id)]. *)
Definition reset_job_for_retry (job_id : string) (now : Z) (db : DB)
  : DB * option Job.t :=
  let now := datetime.timestamp now in
  let db' :=
    match db !! job_id with
    | Some row =>
        if decide (Job.state row = dead) then
          <[job_id := Job.mk (Job.id row) (Job.command row) pending 0
                             (Job.max_retries row) None (Job.created_at row)
                             now (Job.completed_at row) None]> db
        else db
    | None => db
    end in
  (db', get_job job_id db').

(** The text stored in the [state] column. *)
Definition state_text (s : job_state) : string :=
  match s with
  | pending => "pending"
  | processing => "processing"
  | completed => "completed"
  | failed => "failed"
  | dead => "dead"
  end.

(** [ORDER BY created_at DESC]. *)
Definition created_ge (a b : Job.t) : Prop := created_le b a.

#[global] Instance created_ge_dec : RelDecision created_ge.
Proof. intros a b. unfold created_ge. apply _. Defined.

(** The rows [list_jobs] selects: [if state:] is false for [None] and for
    the empty string, and then there is no WHERE clause. *)
Definition rows_in_state (state : option string) (db : DB) : list Job.t :=
  match state with
  | Some s =>
      if negb (String.eqb s "")
      then filter (fun row => state_text (Job.state row) = s) (rows db)
      else rows db
  | None => rows db
  end.

Definition list_jobs (state : option string) (limit : Z) (db : DB) : list Job.t :=
  sql_limit limit (merge_sort created_ge (rows_in_state state db)).

(** [list_jobs(state="dead")], with the default [limit=100]. *)
Definition get_dlq_jobs (db : DB) : list Job.t := list_jobs (Some "dead") 100 db.

(** [SELECT state, COUNT( * ) ... GROUP BY state], as the dictionary built
    from it: one key per state that occurs. *)
Definition count_row (row : Job.t) (stats : gmap string nat) : gmap string nat :=
  <[state_text (Job.state row) :=
      S (default 0%nat (stats !! state_text (Job.state row)))]> stats.

Definition get_stats (db : DB) : gmap string nat := foldr count_row ∅ (rows db).

(** The number of rows of a list that are in state [s]. *)
Definition count_in_state (s : job_state) (l : list Job.t) : nat :=
  length (filter (fun row => Job.state row = s) l).

(** [sum(stats.values())]. *)
Definition sum_counts (stats : gmap string nat) : nat :=
  map_fold (fun _ count total => (count + total)%nat) 0%nat stats.

End JobStorage.

(** ** Configuration *)

Module config.

(** A JSON value of the configuration file. Values that are neither null, a
    boolean, an integer nor a string are kept by their JSON text. *)
Inductive value :=
  | VNull
  | VBool (b : bool)
  | VInt (n : Z)
  | VStr (s : string)
  | VOther (json : string).

(** The file [config.json]: missing, not loadable as a JSON object, or the
    object it holds. *)
Inductive config_file :=
  | NoFile
  | Unreadable
  | Contents (user_config : gmap string value).

(** [config_dir] is [str(Path.home() / ".queuectl")]. *)
Definition DEFAULT_CONFIG (config_dir : string) : gmap string value :=
  <["max_retries"%string := VInt 3]>
    (<["backoff_base"%string := VInt 2]>
       (<["db_path"%string := VStr (config_dir +:+ "/jobs.db")]>
          (<["worker_pid_file"%string := VStr (config_dir +:+ "/workers.pid")]> ∅))).

(** [{**DEFAULT_CONFIG, **user_config}]; any exception while reading gives
    the defaults. *)
Definition load_config (config_dir : string) (f : config_file) : gmap string value :=
  match f with
  | Contents user_config => user_config ∪ DEFAULT_CONFIG config_dir
  | NoFile | Unreadable => DEFAULT_CONFIG config_dir
  end.

Definition save_config (c : gmap string value) : config_file := Contents c.

(** [config.get(key, default)]; Python's [None] is [VNull]. *)
Definition get_config (config_dir key : string) (default : value) (f : config_file) : value :=
  from_option id default (load_config config_dir f !! key).

Definition set_config (config_dir key : string) (v : value) (f : config_file) : config_file :=
  save_config (<[key := v]> (load_config config_dir f)).

End config.

(** ** The [dlq retry] command of the command-line layer *)

Module cli.

Inductive retry_outcome :=
  | NotFound
  | NotInDLQ (st : job_state)
  | ResetDone (updated_job : Job.t)
  | ResetFailed.

(** [sys.exit(1)] on every error branch. *)
Definition exit_code (o : retry_outcome) : Z :=
  match o with
  | ResetDone _ => 0
  | _ => 1
  end.

Definition retry (job_id : string) (now : Z) (db : DB) : DB * retry_outcome :=
  match JobStorage.get_job job_id db with
  | None => (db, NotFound)
  | Some job =>
      if decide (Job.state job <> dead) then (db, NotInDLQ (Job.state job))
      else
        match JobStorage.reset_job_for_retry job_id now db with
        | (db', Some updated_job) => (db', ResetDone updated_job)
        | (db', None) => (db', ResetFailed)
        end
  end.









(** [jobs[:limit]] of Python: a negative bound counts from the end. *)
Definition slice_to {A} (limit : Z) (l : list A) : list A :=
  if limit <? 0 then take (Z.to_nat (Z.of_nat (length l) + limit)) l
  else take (Z.to_nat limit) l.

(** The jobs [dlq list --limit] prints: [if limit:] skips the slice for 0. *)
Definition dlq_list (limit : Z) (db : DB) : list Job.t :=
  let jobs := JobStorage.get_dlq_jobs db in
  if negb (limit =? 0) then slice_to limit jobs else jobs.

(** [status]: the count printed for a state, [stats.get(state, 0)], and the
    total, [sum(stats.values())]. *)
Definition status_count (s : job_state) (db : DB) : nat :=
  default 0%nat (JobStorage.get_stats db !! JobStorage.state_text s).

Definition status_total (db : DB) : nat :=
  JobStorage.sum_counts (JobStorage.get_stats db).

End cli.

(** ** The worker loop *)

Module WorkerManager.

(** What one pass through the body of [while True] did. *)
Inductive event :=
  | Idle
  | Lost (job_id : string)
  | JobCompleted (job_id : string)
  | JobFailed (job_id : string)
  | JobDead (job_id : string)
  | Error (e : exn).

(** A pass either reaches the end of the loop body, or waits for ever
    inside [job.execute()]; in both cases [db] is the table it leaves. *)
Inductive iteration :=
  | Continue (db : DB) (ev : event)
  | Blocked (db : DB).

(** The table a pass leaves behind. *)
Definition table (it : iteration) : DB :=
  match it with
  | Continue db _ => db
  | Blocked db => db
  end.

(** The readings of [datetime.utcnow()] during one pass, in program
    order. *)
Record clock := {
  t_poll : Z;
  t_acquire : Z;
  t_mark : Z;
  t_update : Z
}.

(** The part of the loop body after a successful [acquire_job]: the [Job]
    is built from the row that [get_pending_jobs] returned, executed without
    a timeout argument, and written back with [update_job]. An exception is
    caught by [except Exception], which only prints it. *)
Definition process_job (backoff_base t_mark t_update : Z) (p : process)
    (job_data : Job.t) (db : DB) : iteration :=
  let job_id := Job.id job_data in
  let job := job_data in
  match Job.execute job None p with
  | None => Blocked db
  | Some (true, _) =>
      let job := Job.mark_completed t_mark job in
      match JobStorage.update_job job_id (Job.to_dict job) t_update db with
      | Ok (db', _) => Continue db' (JobCompleted job_id)
      | Raise e => Continue db (Error e)
      end
  | Some (false, error_msg) =>
      match Job.mark_failed error_msg backoff_base t_mark job with
      | Raise e => Continue db (Error e)
      | Ok job =>
          match JobStorage.update_job job_id (Job.to_dict job) t_update db with
          | Ok (db', _) =>
              Continue db' (if decide (Job.state job = dead) then JobDead job_id
                            else JobFailed job_id)
          | Raise e => Continue db (Error e)
          end
      end
  end.

(** One pass through the body of [while True] in [_worker_process], with no
    other process touching the table in between. *)
Definition worker_iteration (backoff_base : Z) (ck : clock) (p : process) (db : DB)
  : iteration :=
  match JobStorage.get_pending_jobs 1 (t_poll ck) db with
  | [] => Continue db Idle
  | job_data :: _ =>
      let job_id := Job.id job_data in
      match JobStorage.acquire_job job_id (t_acquire ck) db with
      | (db, false) => Continue db (Lost job_id)
      | (db, true) => process_job backoff_base (t_mark ck) (t_update ck) p job_data db
      end
  end.

(** The PID file: missing, not loadable, or the list under its ["pids"] key
    (empty when the key is absent). *)
Inductive pid_file :=
  | NoPidFile
  | BadPidFile
  | PidFile (pids : list Z).

(** What [os.kill(pid, 0)] does: return, raise [ProcessLookupError], or
    raise something else (such as [PermissionError]). *)
Inductive probe := Alive | NoSuchProcess | ProbeError.

#[global] Instance probe_eq_dec : EqDecision probe.
Proof. solve_decision. Defined.

(** The [for pid in pids] loop of [get_active_workers]; [None] when an
    exception other than [ProcessLookupError] leaves the loop. *)
Fixpoint count_active (kill0 : Z -> probe) (pids : list Z) (active : nat) : option nat :=
  match pids with
  | [] => Some active
  | pid :: pids =>
      match kill0 pid with
      | Alive => count_active kill0 pids (S active)
      | NoSuchProcess => count_active kill0 pids active
      | ProbeError => None
      end
  end.

Definition get_active_workers (kill0 : Z -> probe) (f : pid_file) : nat :=
  match f with
  | NoPidFile => 0%nat
  | BadPidFile => 0%nat
  | PidFile pids => default 0%nat (count_active kill0 pids 0%nat)
  end.

End WorkerManager.

(** ** Several workers on one table *)

(** Every statement sent to the store is one atomic step; between two steps
    of a worker any other process may run. *)
Module Pool.

(** Where a worker stands in its loop body. *)
Inductive worker_state :=
  | Polling
  | Candidate (job_data : Job.t)
  | Running (job_data : Job.t).

Record system := {
  db : DB;
  workers : gmap nat worker_state
}.

Inductive action :=
  | Spawn (w : nat)
  | Exit (w : nat)
  | Poll (w : nat) (now : Z)
  | Acquire (w : nat) (now : Z)
  | Finish (w : nat) (backoff_base t_mark t_update : Z) (p : process)
  | Enqueue (job_id command : string) (max_retries now : Z)
  | DlqRetry (job_id : string) (now : Z).

(** [None]: the action is not possible in this state. *)
Definition step (a : action) (sys : system) : option system :=
  match a with
  | Spawn w =>
      match workers sys !! w with
      | None => Some {| db := db sys; workers := <[w := Polling]> (workers sys) |}
      | Some _ => None
      end
  | Exit w =>
      match workers sys !! w with
      | Some _ => Some {| db := db sys; workers := delete w (workers sys) |}
      | None => None
      end
  | Poll w now =>
      match workers sys !! w with
      | Some Polling =>
          match JobStorage.get_pending_jobs 1 now (db sys) with
          | [] => Some sys
          | job_data :: _ =>
              Some {| db := db sys; workers := <[w := Candidate job_data]> (workers sys) |}
          end
      | _ => None
      end
  | Acquire w now =>
      match workers sys !! w with
      | Some (Candidate job_data) =>
          match JobStorage.acquire_job (Job.id job_data) now (db sys) with
          | (db', true) =>
              Some {| db := db'; workers := <[w := Running job_data]> (workers sys) |}
          | (db', false) =>
              Some {| db := db'; workers := <[w := Polling]> (workers sys) |}
          end
      | _ => None
      end
  | Finish w backoff_base t_mark t_update p =>
      match workers sys !! w with
      | Some (Running job_data) =>
          match WorkerManager.process_job backoff_base t_mark t_update p job_data (db sys) with
          | WorkerManager.Continue db' _ =>
              Some {| db := db'; workers := <[w := Polling]> (workers sys) |}
          | WorkerManager.Blocked _ => None
          end
      | _ => None
      end
  | Enqueue job_id command max_retries now =>
      match JobStorage.create_job job_id command max_retries now (db sys) with
      | Ok (db', _) => Some {| db := db'; workers := workers sys |}
      | Raise _ => Some sys
      end
  | DlqRetry job_id now =>
      Some {| db := (JobStorage.reset_job_for_retry job_id now (db sys)).1;
              workers := workers sys |}
  end.

Fixpoint run (acts : list action) (sys : system) : option system :=
  match acts with
  | [] => Some sys
  | a :: acts =>
      match step a sys with
      | Some sys' => run acts sys'
      | None => None
      end
  end.

Definition init : system := {| db := ∅; workers := ∅ |}.

Definition reachable (sys : system) : Prop :=
  exists acts, run acts init = Some sys.

(** Worker [w] has acquired job [job_id] and has not yet written its
    outcome. *)
Definition executing (sys : system) (w : nat) (job_id : string) : Prop :=
  exists job_data, workers sys !! w = Some (Running job_data) /\ Job.id job_data = job_id.

(** Every row is filed under its own id. *)
Definition wf (db : DB) : Prop :=
  forall k row, db !! k = Some row -> Job.id row = k.

(** How [state] and [next_retry_at] go together in a stored row. *)
Definition retry_shape (row : Job.t) : Prop :=
  (Job.state row = failed -> exists t, Job.next_retry_at row = Some t) /\
  (Job.state row = pending \/ Job.state row = dead -> Job.next_retry_at row = None).

Record invariant (sys : system) : Prop := {
  inv_wf : wf (db sys);
  inv_running : forall w job_data,
    workers sys !! w = Some (Running job_data) ->
    exists row, db sys !! Job.id job_data = Some row /\ Job.state row = processing;
  inv_exclusive : forall w1 w2 jd1 jd2,
    workers sys !! w1 = Some (Running jd1) ->
    workers sys !! w2 = Some (Running jd2) ->
    Job.id jd1 = Job.id jd2 -> w1 = w2;
  inv_retry : forall k row, db sys !! k = Some row -> retry_shape row
}.

(** The fields no statement of the code assigns a new value to. *)
Definition same_job (a b : Job.t) : Prop :=
  Job.id a = Job.id b /\ Job.command a = Job.command b /\
  Job.max_retries a = Job.max_retries b /\ Job.created_at a = Job.created_at b.

(** How [attempts] relates to [max_retries] in each state. *)
Definition attempts_shape (row : Job.t) : Prop :=
  match Job.state row with
  | pending => Job.attempts row = 0
  | failed => 0 < Job.attempts row < Job.max_retries row
  | dead =>
      0 < Job.attempts row /\ Job.max_retries row <= Job.attempts row /\
      (Job.attempts row = Job.max_retries row \/ Job.attempts row = 1)
  | processing | completed =>
      Job.attempts row = 0 \/ 0 < Job.attempts row < Job.max_retries row
  end.

(** The row a worker carries between its poll and its write. *)
Definition held (sys : system) (job_data : Job.t) : Prop :=
  exists w, workers sys !! w = Some (Candidate job_data) \/
            workers sys !! w = Some (Running job_data).

Record held_invariant (sys : system) : Prop := {
  hinv_rows : forall k row, db sys !! k = Some row -> attempts_shape row;
  hinv_state : forall job_data, held sys job_data ->
    Job.state job_data = pending \/ Job.state job_data = failed;
  hinv_attempts : forall job_data, held sys job_data -> attempts_shape job_data;
  hinv_same : forall job_data, held sys job_data ->
    exists row, db sys !! Job.id job_data = Some row /\ same_job job_data row
}.

End Pool.

(** ** The retry scenario of [validate.py] *)

(** [test_retry_and_dlq]: a job whose command does not exist, enqueued with
    [max_retries = 2] and served by one worker with [backoff_base = 2]. The
    clock readings are microseconds on 2024-05-01. *)
Module validate.

Definition enqueued_at : Z := 63850118400000123.

Definition test4 : Job.t :=
  Job.mk "test4" "nonexistentcommand12345" pending 0 2 None
         "2024-05-01T00:00:00.000123Z" "2024-05-01T00:00:00.000123Z" None None.

(** The shell reports an unknown command with exit code 127. *)
Definition not_found : process :=
  Exits 0 127 (Text "") (Text "/bin/sh: 1: nonexistentcommand12345: not found").

Definition pass1 : WorkerManager.clock :=
  {| WorkerManager.t_poll := 63850118401000123;
     WorkerManager.t_acquire := 63850118401000323;
     WorkerManager.t_mark := 63850118401500123;
     WorkerManager.t_update := 63850118401500323 |}.

Definition pass2 : WorkerManager.clock :=
  {| WorkerManager.t_poll := 63850118404000123;
     WorkerManager.t_acquire := 63850118404000323;
     WorkerManager.t_mark := 63850118404500123;
     WorkerManager.t_update := 63850118404500323 |}.

Definition pass3 : WorkerManager.clock :=
  {| WorkerManager.t_poll := 63850118406000123;
     WorkerManager.t_acquire := 63850118406000323;
     WorkerManager.t_mark := 63850118406500123;
     WorkerManager.t_update := 63850118406500323 |}.

(** The row after the first and after the second failed execution. *)
Definition test4_failed : Job.t :=
  Job.mk "test4" "nonexistentcommand12345" failed 1 2
         (Some "2024-05-01T00:00:03.500123Z")
         "2024-05-01T00:00:00.000123Z" "2024-05-01T00:00:01.500323Z" None
         (Some "/bin/sh: 1: nonexistentcommand12345: not found").

Definition test4_dead : Job.t :=
  Job.mk "test4" "nonexistentcommand12345" dead 2 2 None
         "2024-05-01T00:00:00.000123Z" "2024-05-01T00:00:04.500323Z" None
         (Some "/bin/sh: 1: nonexistentcommand12345: not found").

(** The same job when the clock reads 00:00:03 exactly as its first failure
    is recorded: the retry date, two seconds later, falls on a whole second,
    00:00:05, and [isoformat] prints it without a fraction. *)
Definition on_the_second : WorkerManager.clock :=
  {| WorkerManager.t_poll := 63850118402900000;
     WorkerManager.t_acquire := 63850118402900200;
     WorkerManager.t_mark := 63850118403000000;
     WorkerManager.t_update := 63850118403000150 |}.

Definition due : Z := 63850118405000000.

Definition test4_due : Job.t :=
  Job.mk "test4" "nonexistentcommand12345" failed 1 2
         (Some "2024-05-01T00:00:05Z")
         "2024-05-01T00:00:00.000123Z" "2024-05-01T00:00:03.000150Z" None
         (Some "/bin/sh: 1: nonexistentcommand12345: not found").

(** ... and when it reads 00:00:03.5: the retry date is 00:00:05.5. *)
Definition half_past : WorkerManager.clock :=
  {| WorkerManager.t_poll := 63850118402900000;
     WorkerManager.t_acquire := 63850118402900200;
     WorkerManager.t_mark := 63850118403500000;
     WorkerManager.t_update := 63850118403500150 |}.

Definition test4_due_later : Job.t :=
  Job.mk "test4" "nonexistentcommand12345" failed 1 2
         (Some "2024-05-01T00:00:05.500000Z")
         "2024-05-01T00:00:00.000123Z" "2024-05-01T00:00:03.500150Z" None
         (Some "/bin/sh: 1: nonexistentcommand12345: not found").

(** The same run as steps of a pool with one worker: enqueue, start worker
    1, and its first pass. *)
Definition first_failure : list Pool.action :=
  [ Pool.Enqueue "test4" "nonexistentcommand12345" 2 enqueued_at;
    Pool.Spawn 1;
    Pool.Poll 1 (WorkerManager.t_poll pass1);
    Pool.Acquire 1 (WorkerManager.t_acquire pass1);
    Pool.Finish 1 2 (WorkerManager.t_mark pass1) (WorkerManager.t_update pass1) not_found ].

(** ... followed by the poll and the acquisition of the second pass. *)
Definition reacquired : list Pool.action :=
  first_failure ++
  [ Pool.Poll 1 (WorkerManager.t_poll pass2);
    Pool.Acquire 1 (WorkerManager.t_acquire pass2) ].

(** Enqueue, start worker 1, and let it poll and acquire the job. *)
Definition acquired : list Pool.action :=
  [ Pool.Enqueue "test4" "nonexistentcommand12345" 2 enqueued_at;
    Pool.Spawn 1;
    Pool.Poll 1 (WorkerManager.t_poll pass1);
    Pool.Acquire 1 (WorkerManager.t_acquire pass1) ].

(** After worker 1 is gone: a second worker polls, and an operator tries the
    dead-letter reset and a new enqueue under the same id. *)
Definition after_crash : list Pool.action :=
  [ Pool.Spawn 2;
    Pool.Poll 2 (WorkerManager.t_poll pass3);
    Pool.DlqRetry "test4" (WorkerManager.t_acquire pass3);
    Pool.Enqueue "test4" "echo again" 3 (WorkerManager.t_mark pass3) ].

End validate.

(** * Properties *)

(** ** The order on TEXT values *)

Section text_order.

Lemma ascii_compare_Lt_trans (a b c : ascii) :
  Ascii.compare a b = Lt -> Ascii.compare b c = Lt -> Ascii.compare a c = Lt.
Proof.
  unfold Ascii.compare. rewrite !N.compare_lt_iff. apply N.lt_trans.
Qed.

Lemma string_compare_Lt_trans (s1 s2 s3 : string) :
  String.compare s1 s2 = Lt -> String.compare s2 s3 = Lt -> String.compare s1 s3 = Lt.
Proof.
  revert s2 s3. induction s1 as [|a s1 IH]; intros [|b s2] [|c s3]; simpl; try done.
  destruct (Ascii.compare a b) eqn:Hab; try done;
    destruct (Ascii.compare b c) eqn:Hbc; try done; intros H12 H23.
  - apply Ascii.compare_eq_iff in Hab as ->. rewrite Hbc.
    apply Ascii.compare_eq_iff in Hbc as ->. eauto.
  - apply Ascii.compare_eq_iff in Hab as ->. by rewrite Hbc.
  - apply Ascii.compare_eq_iff in Hbc as <-. by rewrite Hab.
  - by rewrite (ascii_compare_Lt_trans _ _ _ Hab Hbc).
Qed.

Lemma string_leb_trans (s1 s2 s3 : string) :
  String.leb s1 s2 = true -> String.leb s2 s3 = true -> String.leb s1 s3 = true.
Proof.
  unfold String.leb.
  destruct (String.compare s1 s2) eqn:H12; try done;
    destruct (String.compare s2 s3) eqn:H23; try done; intros _ _.
  - apply String.compare_eq_iff in H12 as ->. by rewrite H23.
  - apply String.compare_eq_iff in H12 as ->. by rewrite H23.
  - apply String.compare_eq_iff in H23 as <-. by rewrite H12.
  - by rewrite (string_compare_Lt_trans _ _ _ H12 H23).
Qed.

#[global] Instance created_le_total : Total JobStorage.created_le.
Proof. intros a b. apply String.leb_total. Qed.

#[global] Instance created_le_trans : Transitive JobStorage.created_le.
Proof. intros a b c. apply string_leb_trans. Qed.

End text_order.

(** ** Acquisition *)

Lemma ready_spec (now : string) (row : Job.t) :
  JobStorage.ready now row = true <->
  (Job.state row = pending \/ Job.state row = failed) /\
  (Job.next_retry_at row = None \/
   exists t, Job.next_retry_at row = Some t /\ String.leb t now = true).
Proof.
  unfold JobStorage.ready, JobStorage.retry_elapsed.
  rewrite andb_true_iff, orb_true_iff, !bool_decide_eq_true.
  destruct (Job.next_retry_at row) as [t|].
  - split; intros [Hst Ht]; (split; [done|]).
    + right. by exists t.
    + by destruct Ht as [|(t' & [= <-] & Ht)].
  - split; intros [Hst _]; (split; [done|]); [by left|done].
Qed.

Lemma acquire_job_success (db : DB) (job_id : string) (now : Z) (row : Job.t) :
  db !! job_id = Some row ->
  JobStorage.ready (datetime.timestamp now) row = true ->
  JobStorage.acquire_job job_id now db =
    (<[job_id := Job.set_state processing row]> db, true).
Proof. intros Hrow Hready. unfold JobStorage.acquire_job. by rewrite Hrow, Hready. Qed.

Lemma acquire_job_failure (db : DB) (job_id : string) (now : Z) :
  (forall row, db !! job_id = Some row ->
               JobStorage.ready (datetime.timestamp now) row = false) ->
  JobStorage.acquire_job job_id now db = (db, false).
Proof.
  intros Hnot. unfold JobStorage.acquire_job.
  destruct (db !! job_id) as [row|]; [|done]. by rewrite (Hnot row).
Qed.

Lemma acquire_job_other (db : DB) (job_id other : string) (now : Z) :
  other <> job_id ->
  (JobStorage.acquire_job job_id now db).1 !! other = db !! other.
Proof.
  intros Hne. unfold JobStorage.acquire_job.
  destruct (db !! job_id) as [row|]; [|done].
  destruct (JobStorage.ready _ row); [|done].
  simpl. by rewrite lookup_insert_ne.
Qed.

(** X18. [acquire_job] succeeds exactly when the row exists, its state is
    [pending] or [failed], and its [next_retry_at] is NULL or a text that is
    not greater, in the order of TEXT values, than the text of the current
    timestamp: the SQL statement compares the two as text. On success the
    row's state becomes [processing] and nothing else in the row changes; on
    failure, unknown ids included, the table is unchanged; rows under other
    ids are never touched. *)
Theorem acquire_job_by_text (db : DB) (job_id : string) (now : Z) :
  let db' := (JobStorage.acquire_job job_id now db).1 in
  let success := (JobStorage.acquire_job job_id now db).2 in
  (success = true <->
     exists row, db !! job_id = Some row /\
       (Job.state row = pending \/ Job.state row = failed) /\
       (Job.next_retry_at row = None \/
        exists t, Job.next_retry_at row = Some t /\
                  String.leb t (datetime.timestamp now) = true)) /\
  (success = true ->
     exists row, db !! job_id = Some row /\
       db' !! job_id =
         Some (Job.mk (Job.id row) (Job.command row) processing (Job.attempts row)
                      (Job.max_retries row) (Job.next_retry_at row)
                      (Job.created_at row) (Job.updated_at row)
                      (Job.completed_at row) (Job.error_message row))) /\
  (success = false -> db' = db) /\
  (db !! job_id = None -> success = false) /\
  (forall other, other <> job_id -> db' !! other = db !! other).
Proof.
  cbv zeta. split_and!.
  - unfold JobStorage.acquire_job.
    destruct (db !! job_id) as [row|] eqn:Hrow; simpl.
    + destruct (JobStorage.ready _ row) eqn:Hready; simpl.
      * split; [intros _|done]. exists row. split; [done|]. by apply ready_spec.
      * split; [done|]. intros (row' & [= <-] & Hst & Hnra).
        rewrite <- Hready. by apply ready_spec.
    + split; [done|]. by intros (? & ? & _).
  - unfold JobStorage.acquire_job.
    destruct (db !! job_id) as [row|] eqn:Hrow; simpl; [|done].
    destruct (JobStorage.ready _ row); simpl; [|done].
    intros _. exists row. split; [done|]. by rewrite lookup_insert_eq.
  - unfold JobStorage.acquire_job.
    destruct (db !! job_id) as [row|]; simpl; [|done].
    by destruct (JobStorage.ready _ row).
  - intros Hnone. unfold JobStorage.acquire_job. by rewrite Hnone.
  - intros other Hne. by apply acquire_job_other.
Qed.

(** ** The ready-work query *)

Lemma elem_of_rows (db : DB) (row : Job.t) :
  row ∈ JobStorage.rows db <-> exists k, db !! k = Some row.
Proof.
  unfold JobStorage.rows. rewrite list_elem_of_fmap. split.
  - intros ([k r] & -> & Hin). exists k. by apply elem_of_map_to_list.
  - intros [k Hk]. exists (k, row). split; [done|]. by apply elem_of_map_to_list.
Qed.

Lemma elem_of_ready_rows (now : string) (db : DB) (row : Job.t) :
  row ∈ JobStorage.ready_rows now db <->
  (exists k, db !! k = Some row) /\ JobStorage.ready now row = true.
Proof.
  unfold JobStorage.ready_rows. rewrite list_elem_of_filter, elem_of_rows. tauto.
Qed.

Lemma sql_limit_sublist {A} (limit : Z) (l : list A) :
  JobStorage.sql_limit limit l `sublist_of` l.
Proof. unfold JobStorage.sql_limit. case_match; [done|]. apply sublist_take. Qed.

Lemma sql_limit_all {A} (limit : Z) (l : list A) :
  limit < 0 \/ Z.of_nat (length l) <= limit -> JobStorage.sql_limit limit l = l.
Proof.
  intros Hl. unfold JobStorage.sql_limit. destruct (Z.ltb_spec limit 0); [done|].
  apply take_ge. lia.
Qed.

Lemma sql_limit_split {A} (limit : Z) (l : list A) :
  exists rest, l = JobStorage.sql_limit limit l ++ rest.
Proof.
  unfold JobStorage.sql_limit. case_match.
  - exists []. by rewrite app_nil_r.
  - exists (drop (Z.to_nat limit) l). by rewrite take_drop.
Qed.

Lemma get_pending_jobs_elem_of (db : DB) (limit now : Z) (row : Job.t) :
  row ∈ JobStorage.get_pending_jobs limit now db ->
  row ∈ JobStorage.ready_rows (datetime.timestamp now) db.
Proof.
  unfold JobStorage.get_pending_jobs. intros Hin.
  apply elem_of_sublist with (l2 := merge_sort JobStorage.created_le
    (JobStorage.ready_rows (datetime.timestamp now) db)) in Hin;
    [|apply sql_limit_sublist].
  by rewrite merge_sort_Permutation in Hin.
Qed.

Lemma string_ltb_not_leb (s1 s2 : string) :
  String.ltb s1 s2 = true -> String.leb s2 s1 = false.
Proof.
  unfold String.ltb, String.leb. rewrite (String.compare_antisym s1 s2).
  by destruct (String.compare s2 s1).
Qed.

(** X19. [get_pending_jobs], with every comparison read as the SQL makes
    it, on the stored text: it returns rows of the table that are ready
    (state [pending] or [failed], [next_retry_at] NULL or a text not greater
    than the text of the current timestamp), sorted by the [created_at]
    text in ascending order and cut to [limit]. The result is a prefix of a
    sorted arrangement of all ready rows, so the [created_at] text of a
    ready row that is cut off is not smaller than that of any returned row,
    and with a limit that does not truncate every ready row is returned. A
    [failed] row whose [next_retry_at] text is greater than the text of the
    current timestamp is never returned; one whose text is not greater is
    among the ready rows. *)
Theorem get_pending_jobs_by_text (db : DB) (limit now : Z) :
  let ts := datetime.timestamp now in
  let ready_rows := JobStorage.ready_rows ts db in
  let result := JobStorage.get_pending_jobs limit now db in
  (forall row, row ∈ ready_rows <->
     (exists k, db !! k = Some row) /\
     (Job.state row = pending \/ Job.state row = failed) /\
     (Job.next_retry_at row = None \/
      exists t, Job.next_retry_at row = Some t /\ String.leb t ts = true)) /\
  (exists ordered,
     ordered ≡ₚ ready_rows /\
     StronglySorted JobStorage.created_le ordered /\
     result = if limit <? 0 then ordered else take (Z.to_nat limit) ordered) /\
  StronglySorted JobStorage.created_le result /\
  (forall row, row ∈ result -> row ∈ ready_rows) /\
  (limit < 0 \/ Z.of_nat (length ready_rows) <= limit ->
   forall row, row ∈ ready_rows -> row ∈ result) /\
  (forall row r, row ∈ ready_rows -> row ∉ result -> r ∈ result ->
                 JobStorage.created_le r row) /\
  (forall row t, Job.state row = failed -> Job.next_retry_at row = Some t ->
                 String.ltb ts t = true -> row ∉ result) /\
  (forall k row t, db !! k = Some row -> Job.state row = failed ->
                   Job.next_retry_at row = Some t -> String.leb t ts = true ->
                   row ∈ ready_rows).
Proof.
  cbv zeta.
  set (ts := datetime.timestamp now).
  set (sorted := merge_sort JobStorage.created_le (JobStorage.ready_rows ts db)).
  assert (Hperm : sorted ≡ₚ JobStorage.ready_rows ts db)
    by apply merge_sort_Permutation.
  assert (Hsorted : StronglySorted JobStorage.created_le sorted)
    by apply (StronglySorted_merge_sort _).
  assert (Hres : JobStorage.get_pending_jobs limit now db
                 = JobStorage.sql_limit limit sorted) by done.
  split_and!.
  - intros row. rewrite elem_of_ready_rows, ready_spec. tauto.
  - exists sorted. by rewrite Hres.
  - rewrite Hres. destruct (sql_limit_split limit sorted) as [rest Hsplit].
    rewrite Hsplit in Hsorted. by apply StronglySorted_app_1_l in Hsorted.
  - intros row. apply get_pending_jobs_elem_of.
  - intros Hlimit row Hrow. rewrite Hres, sql_limit_all.
    + by rewrite Hperm.
    + by rewrite Hperm.
  - intros row r Hrow Hnot Hr. rewrite Hres in Hnot, Hr.
    destruct (sql_limit_split limit sorted) as [rest Hsplit].
    rewrite <- Hperm, Hsplit, elem_of_app in Hrow.
    destruct Hrow as [Hrow|Hrow]; [done|].
    rewrite Hsplit in Hsorted.
    by apply (StronglySorted_app_1_elem_of _ _ _ r row Hsorted).
  - intros row t Hst Hnra Hlt Hin.
    apply get_pending_jobs_elem_of, elem_of_ready_rows in Hin as [_ Hready].
    apply ready_spec in Hready as [_ [Hnone|(t' & Ht' & Hle)]].
    { by rewrite Hnone in Hnra. }
    rewrite Hnra in Ht'. injection Ht' as <-.
    apply string_ltb_not_leb in Hlt. unfold ts in Hlt. by rewrite Hlt in Hle.
  - intros k row t Hk Hst Hnra Hle. apply elem_of_ready_rows. split; [by exists k|].
    apply ready_spec. split; [by right|]. right. by exists t.
Qed.

(** ** Timestamps on a whole second *)

(** C1 (defect). [acquire_job] compares [next_retry_at] with the current
    timestamp as text, and [isoformat] leaves the fraction out on a whole
    second. The job that failed at 00:00:03 exactly is due at 00:00:05,
    stored as 2024-05-01T00:00:05Z; during the rest of that second the
    current timestamp, 2024-05-01T00:00:05.xxxxxxZ, sorts before it, so
    [acquire_job] refuses the job although its retry date has passed, and
    takes it only from 00:00:06 on. The other way round, the job due at
    00:00:05.5 is taken at 00:00:05 exactly, half a second before its retry
    date. *)
Theorem acquire_job_whole_second :
  let db : DB := {[ "test4"%string := validate.test4_due ]} in
  let db' : DB := {[ "test4"%string := validate.test4_due_later ]} in
  WorkerManager.worker_iteration 2 validate.on_the_second validate.not_found
      {[ "test4"%string := validate.test4 ]}
    = WorkerManager.Continue db (WorkerManager.JobFailed "test4") /\
  Job.next_retry_at validate.test4_due = Some (datetime.timestamp validate.due) /\
  validate.due < validate.due + 200 /\
  datetime.timestamp (validate.due + 200) = "2024-05-01T00:00:05.000200Z"%string /\
  JobStorage.acquire_job "test4" (validate.due + 200) db = (db, false) /\
  JobStorage.acquire_job "test4" (validate.due + 999999) db = (db, false) /\
  (JobStorage.acquire_job "test4" (validate.due + 1000000) db).2 = true /\
  WorkerManager.worker_iteration 2 validate.half_past validate.not_found
      {[ "test4"%string := validate.test4 ]}
    = WorkerManager.Continue db' (WorkerManager.JobFailed "test4") /\
  Job.next_retry_at validate.test4_due_later
    = Some (datetime.timestamp (validate.due + 500000)) /\
  (JobStorage.acquire_job "test4" validate.due db').2 = true.
Proof. cbv zeta. split_and!; by vm_compute. Qed.

(** C8 (defect). [get_pending_jobs] compares and sorts timestamps as text,
    and [isoformat] leaves the fraction out on a whole second. The job due
    at 00:00:05 is not returned 200 microseconds after its retry date; the
    job due at 00:00:05.5 is returned at 00:00:05 exactly, while its retry
    date is in the future; and of two pending jobs created at 00:00:05 and
    at 00:00:05.000200 the younger is returned first, and alone under
    [limit = 1]. *)
Theorem get_pending_jobs_whole_second :
  let older := Job.mk "a" "true" pending 0 3 None
                      "2024-05-01T00:00:05Z" "2024-05-01T00:00:05Z" None None in
  let younger := Job.mk "b" "true" pending 0 3 None
                        "2024-05-01T00:00:05.000200Z" "2024-05-01T00:00:05.000200Z"
                        None None in
  let jobs : DB := {[ "a"%string := older; "b"%string := younger ]} in
  Job.next_retry_at validate.test4_due = Some (datetime.timestamp validate.due) /\
  validate.due < validate.due + 200 /\
  JobStorage.get_pending_jobs 1 (validate.due + 200)
    {[ "test4"%string := validate.test4_due ]} = [] /\
  JobStorage.get_pending_jobs 1 (validate.due + 1000000)
    {[ "test4"%string := validate.test4_due ]} = [validate.test4_due] /\
  Job.next_retry_at validate.test4_due_later
    = Some (datetime.timestamp (validate.due + 500000)) /\
  validate.due < validate.due + 500000 /\
  JobStorage.get_pending_jobs 1 validate.due
    {[ "test4"%string := validate.test4_due_later ]} = [validate.test4_due_later] /\
  JobStorage.create_job "a" "true" 3 validate.due ∅
    = Ok ({[ "a"%string := older ]}, Some older) /\
  JobStorage.create_job "b" "true" 3 (validate.due + 200) {[ "a"%string := older ]}
    = Ok (jobs, Some younger) /\
  JobStorage.get_pending_jobs 1 (validate.due + 1000000) jobs = [younger] /\
  JobStorage.get_pending_jobs 10 (validate.due + 1000000) jobs = [younger; older].
Proof. cbv zeta. split_and!; by vm_compute. Qed.

(** ** Backoff *)

Lemma calculate_next_retry_in_range (backoff_base now : Z) (j : Job.t) :
  datetime.valid (now + backoff_base ^ Job.attempts j * datetime.us_per_second) = true ->
  Job.calculate_next_retry backoff_base now j =
    Ok (datetime.timestamp (now + backoff_base ^ Job.attempts j * datetime.us_per_second)).
Proof.
  intros Hvalid. unfold Job.calculate_next_retry, datetime.add_seconds.
  by rewrite Hvalid.
Qed.

Lemma calculate_next_retry_overflow (backoff_base now : Z) (j : Job.t) :
  datetime.valid (now + backoff_base ^ Job.attempts j * datetime.us_per_second) = false ->
  Job.calculate_next_retry backoff_base now j = Raise OverflowError.
Proof.
  intros Hvalid. unfold Job.calculate_next_retry, datetime.add_seconds.
  by rewrite Hvalid.
Qed.

(** C9. When a failure is recorded on a job that may still be retried,
    [next_retry_at] is the timestamp of the current time plus
    [backoff_base ** attempts] seconds, where [attempts] is the count after the
    increment; the delay is that power exactly, whatever its size, as long as
    the date stays representable. With [backoff_base = 2] the first, second
    and third failure are scheduled 2, 4 and 8 seconds ahead. *)
Theorem backoff_is_exponential (backoff_base now : Z) (j : Job.t) :
  0 <= Job.attempts j ->
  Job.attempts j + 1 < Job.max_retries j ->
  datetime.valid (now + backoff_base ^ (Job.attempts j + 1) * datetime.us_per_second) = true ->
  let delay_seconds := backoff_base ^ (Job.attempts j + 1) in
  let next_retry := datetime.timestamp (now + delay_seconds * 1000000) in
  Job.calculate_next_retry backoff_base now (Job.set_attempts (Job.attempts j + 1) j)
    = Ok next_retry /\
  Job.mark_for_retry backoff_base now j =
    Ok (Job.mk (Job.id j) (Job.command j) failed (Job.attempts j + 1)
               (Job.max_retries j) (Some next_retry) (Job.created_at j)
               (Job.updated_at j) (Job.completed_at j) (Job.error_message j)) /\
  (backoff_base = 2 ->
   (Job.attempts j = 0 -> delay_seconds = 2) /\
   (Job.attempts j = 1 -> delay_seconds = 4) /\
   (Job.attempts j = 2 -> delay_seconds = 8)).
Proof.
  intros Hnonneg Hretry Hvalid. cbv zeta. split_and!.
  - by rewrite calculate_next_retry_in_range.
  - unfold Job.mark_for_retry, Job.should_retry. simpl.
    destruct (Z.ltb_spec (Job.attempts j + 1) (Job.max_retries j)); [|lia].
    unfold Job.calculate_next_retry, datetime.add_seconds. simpl.
    by rewrite Hvalid.
  - intros ->. split_and!; by intros ->.
Qed.

Lemma backoff_is_exponential_witness :
  Job.mark_for_retry 2 63850118400000123
    (Job.mk "t4" "exit 1" pending 1 3 None
            "2024-05-01T00:00:00.000100Z" "2024-05-01T00:00:00.000100Z" None None)
  = Ok (Job.mk "t4" "exit 1" failed 2 3 (Some "2024-05-01T00:00:04.000123Z")
            "2024-05-01T00:00:00.000100Z" "2024-05-01T00:00:00.000100Z" None None).
Proof.
  exact (proj1 (proj2 (backoff_is_exponential 2 63850118400000123
    (Job.mk "t4" "exit 1" pending 1 3 None
            "2024-05-01T00:00:00.000100Z" "2024-05-01T00:00:00.000100Z" None None)
    ltac:(simpl; lia) ltac:(simpl; lia) ltac:(reflexivity)))).
Defined.

(** ** Execution without a timeout *)

Lemma process_job_hangs (backoff_base t_mark t_update : Z) (job_data : Job.t) (db : DB) :
  WorkerManager.process_job backoff_base t_mark t_update Hangs job_data db
  = WorkerManager.Blocked db.
Proof. reflexivity. Qed.

(** C10. The worker loop calls [execute] without a timeout: whatever the
    process does, [execute] never leaves through its timeout branch there,
    and when the process never terminates [execute] never returns, so the
    pass of the loop that acquired the job never ends and the row stays as
    [acquire_job] left it. With a non-zero timeout the same process does
    reach the timeout branch. *)
Theorem worker_never_times_out (job_data : Job.t) (p : process) :
  (forall path, Job.execute_path job_data None p = Some path ->
                forall msg, path <> ReturnTimeout msg) /\
  (Job.execute_path job_data None p = None <-> p = Hangs) /\
  Job.execute job_data None Hangs = None /\
  (forall backoff_base t_mark t_update db,
     WorkerManager.process_job backoff_base t_mark t_update Hangs job_data db
     = WorkerManager.Blocked db) /\
  (forall backoff_base ck db rest,
     JobStorage.get_pending_jobs 1 (WorkerManager.t_poll ck) db = job_data :: rest ->
     (JobStorage.acquire_job (Job.id job_data) (WorkerManager.t_acquire ck) db).2 = true ->
     WorkerManager.worker_iteration backoff_base ck Hangs db
     = WorkerManager.Blocked
         (JobStorage.acquire_job (Job.id job_data) (WorkerManager.t_acquire ck) db).1) /\
  (forall t, t <> 0 ->
     exists msg, Job.execute_path job_data (Some t) Hangs = Some (ReturnTimeout msg)).
Proof.
  split_and!.
  - intros path Hpath msg ->. unfold Job.execute_path in Hpath. simpl in Hpath.
    destruct p as [elapsed rc [out|m] [err|m']| | |]; simpl in Hpath; try done.
    by destruct (rc =? 0).
  - unfold Job.execute_path. simpl.
    destruct p as [elapsed rc [out|m] [err|m']| | |]; simpl; try done.
    by destruct (rc =? 0).
  - reflexivity.
  - intros. apply process_job_hangs.
  - intros backoff_base ck db rest Hpoll Hacq.
    unfold WorkerManager.worker_iteration. rewrite Hpoll.
    destruct (JobStorage.acquire_job _ _ db) as [db1 ok]. simpl in *.
    rewrite Hacq. apply process_job_hangs.
  - intros t Ht. unfold Job.execute_path, Job.truthy.
    destruct (Z.eqb_spec t 0); [done|]. simpl. eauto.
Qed.

(** ** Dead-letter reset *)

Lemma reset_job_for_retry_other (db : DB) (job_id other : string) (now : Z) :
  other <> job_id ->
  (JobStorage.reset_job_for_retry job_id now db).1 !! other = db !! other.
Proof.
  intros Hne. unfold JobStorage.reset_job_for_retry. simpl.
  destruct (db !! job_id) as [row|]; [|done].
  case_decide; [|done]. by rewrite lookup_insert_ne.
Qed.

(** C6 (as the code has it). On a [dead] row [reset_job_for_retry] stores
    [state = pending], [attempts = 0], NULL [next_retry_at] and
    [error_message] and a fresh [updated_at], and returns the new row. On a
    row in any other state it changes nothing in the table and returns that
    row as it is; it returns [None] only for an unknown id. The refusal for a
    job that is not dead is issued by the [dlq retry] command, which checks
    the state first and leaves the table alone. *)
Theorem reset_job_for_retry_spec (db : DB) (job_id : string) (now : Z) :
  (forall row, db !! job_id = Some row -> Job.state row = dead ->
     let row' := Job.mk (Job.id row) (Job.command row) pending 0 (Job.max_retries row)
                        None (Job.created_at row) (datetime.timestamp now)
                        (Job.completed_at row) None in
     JobStorage.reset_job_for_retry job_id now db = (<[job_id := row']> db, Some row')) /\
  (forall row, db !! job_id = Some row -> Job.state row <> dead ->
     JobStorage.reset_job_for_retry job_id now db = (db, Some row) /\
     cli.retry job_id now db = (db, cli.NotInDLQ (Job.state row)) /\
     cli.exit_code (cli.retry job_id now db).2 = 1) /\
  (db !! job_id = None ->
     JobStorage.reset_job_for_retry job_id now db = (db, None) /\
     cli.retry job_id now db = (db, cli.NotFound)) /\
  (forall other, other <> job_id ->
     (JobStorage.reset_job_for_retry job_id now db).1 !! other = db !! other).
Proof.
  split_and!.
  - intros row Hrow Hdead. cbv zeta. unfold JobStorage.reset_job_for_retry.
    rewrite Hrow. rewrite decide_True by done.
    unfold JobStorage.get_job. by rewrite lookup_insert_eq.
  - intros row Hrow Hnot.
    assert (Hreset : JobStorage.reset_job_for_retry job_id now db = (db, Some row)).
    { unfold JobStorage.reset_job_for_retry. rewrite Hrow.
      rewrite decide_False by done. unfold JobStorage.get_job. by rewrite Hrow. }
    assert (Hcli : cli.retry job_id now db = (db, cli.NotInDLQ (Job.state row))).
    { unfold cli.retry, JobStorage.get_job. rewrite Hrow. by case_decide. }
    split_and!; [done..|]. by rewrite Hcli.
  - intros Hnone. split.
    + unfold JobStorage.reset_job_for_retry, JobStorage.get_job.
      rewrite Hnone. cbv zeta. by rewrite Hnone.
    + unfold cli.retry, JobStorage.get_job. by rewrite Hnone.
  - intros other. apply reset_job_for_retry_other.
Qed.

(** C6 as claimed fails: resetting a [pending] job returns the job's row,
    not a not-found signal. *)
Lemma reset_job_for_retry_returns_row :
  let row := Job.mk "t1" "echo hi" pending 0 3 None
                    "2024-05-01T00:00:00.000100Z" "2024-05-01T00:00:00.000100Z"
                    None None in
  JobStorage.reset_job_for_retry "t1" 63850118400000123 {[ "t1"%string := row ]}
  = ({[ "t1"%string := row ]}, Some row).
Proof. reflexivity. Qed.

Lemma reset_job_for_retry_spec_witness :
  let row := Job.mk "t4" "exit 1" dead 2 2 None
                    "2024-05-01T00:00:00.000100Z" "2024-05-01T00:00:02.000500Z"
                    None (Some "Command failed with exit code 1") in
  let row' := Job.mk "t4" "exit 1" pending 0 2 None
                     "2024-05-01T00:00:00.000100Z" "2024-05-01T00:00:00.000123Z"
                     None None in
  JobStorage.reset_job_for_retry "t4" 63850118400000123 {[ "t4"%string := row ]}
  = (<["t4"%string := row']> {[ "t4"%string := row ]}, Some row').
Proof.
  exact (proj1 (reset_job_for_retry_spec
    {[ "t4"%string :=
         Job.mk "t4" "exit 1" dead 2 2 None
                "2024-05-01T00:00:00.000100Z" "2024-05-01T00:00:02.000500Z"
                None (Some "Command failed with exit code 1"%string) ]}
    "t4" 63850118400000123)
    (Job.mk "t4" "exit 1" dead 2 2 None
            "2024-05-01T00:00:00.000100Z" "2024-05-01T00:00:02.000500Z"
            None (Some "Command failed with exit code 1"%string))
    eq_refl eq_refl).
Defined.

(** ** Writes and [updated_at] *)

Lemma apply_updates_to_dict (ts : string) (job row : Job.t) :
  JobStorage.apply_updates (JobStorage.with_updated_at ts (Job.to_dict job)) row
  = Job.set_updated_at ts job.
Proof. reflexivity. Qed.

Lemma update_job_to_dict (db : DB) (job_id : string) (job row : Job.t) (now : Z) :
  Job.id job = job_id ->
  db !! job_id = Some row ->
  JobStorage.update_job job_id (Job.to_dict job) now db =
    Ok (<[job_id := Job.set_updated_at (datetime.timestamp now) job]> db,
        Some (Job.set_updated_at (datetime.timestamp now) job)).
Proof.
  intros Hid Hrow. unfold JobStorage.update_job. rewrite Hrow.
  rewrite apply_updates_to_dict. simpl. rewrite decide_True by done.
  unfold JobStorage.get_job. by rewrite lookup_insert_eq.
Qed.

Lemma update_job_missing (db : DB) (job_id : string) (u : updates) (now : Z) :
  db !! job_id = None -> JobStorage.update_job job_id u now db = Ok (db, None).
Proof.
  intros Hnone. unfold JobStorage.update_job, JobStorage.get_job. by rewrite Hnone.
Qed.

(** [update_job] stores the current timestamp in [updated_at], whatever the
    dictionary holds. *)
Lemma update_job_refreshes_updated_at (db db' : DB) (job_id : string) (u : updates)
    (now : Z) (row : Job.t) (ret : option Job.t) :
  db !! job_id = Some row ->
  JobStorage.update_job job_id u now db = Ok (db', ret) ->
  exists row', db' !! Job.id row' = Some row' /\
    row' = JobStorage.apply_updates (JobStorage.with_updated_at (datetime.timestamp now) u) row /\
    Job.updated_at row' = datetime.timestamp now.
Proof.
  intros Hrow. unfold JobStorage.update_job. rewrite Hrow.
  set (row' := JobStorage.apply_updates _ row).
  case_decide as Hid.
  - intros [= <- _]. exists row'. rewrite Hid. by rewrite lookup_insert_eq.
  - destruct (db !! Job.id row'); [done|].
    intros [= <- _]. exists row'. by rewrite lookup_insert_eq.
Qed.

(** [reset_job_for_retry] does the same on the row it resets. *)
Lemma reset_job_for_retry_refreshes_updated_at (db : DB) (job_id : string) (now : Z)
    (row : Job.t) :
  db !! job_id = Some row -> Job.state row = dead ->
  exists row', (JobStorage.reset_job_for_retry job_id now db).1 !! job_id = Some row' /\
    Job.updated_at row' = datetime.timestamp now.
Proof.
  intros Hrow Hdead. unfold JobStorage.reset_job_for_retry. rewrite Hrow.
  rewrite decide_True by done. simpl. eexists. by rewrite lookup_insert_eq.
Qed.

(** [acquire_job] assigns the [state] column only: the acquired row keeps
    the [updated_at] it had. *)
Lemma acquire_job_updated_at (db : DB) (job_id : string) (now : Z) (row row' : Job.t) :
  db !! job_id = Some row ->
  (JobStorage.acquire_job job_id now db).1 !! job_id = Some row' ->
  Job.updated_at row' = Job.updated_at row /\
  Job.next_retry_at row' = Job.next_retry_at row.
Proof.
  intros Hrow. unfold JobStorage.acquire_job. rewrite Hrow.
  destruct (JobStorage.ready _ row); simpl.
  - rewrite lookup_insert_eq. by intros [= <-].
  - rewrite Hrow. by intros [= <-].
Qed.

(** C7 at a concrete table: a [pending] job last written at
    00:00:00.000100 is acquired five seconds later; its state becomes
    [processing] while [updated_at] still reads 00:00:00.000100. *)
Theorem acquire_job_keeps_updated_at :
  let row := Job.mk "t1" "echo hi" pending 0 3 None
                    "2024-05-01T00:00:00.000100Z" "2024-05-01T00:00:00.000100Z"
                    None None in
  let now := 63850118405000123 in
  datetime.timestamp now = "2024-05-01T00:00:05.000123Z"%string /\
  JobStorage.acquire_job "t1" now {[ "t1"%string := row ]} =
    ({[ "t1"%string :=
          Job.mk "t1" "echo hi" processing 0 3 None
                 "2024-05-01T00:00:00.000100Z" "2024-05-01T00:00:00.000100Z"
                 None None ]}, true).
Proof. split; reflexivity. Qed.

(** ** One pass of the worker loop *)

Lemma create_job_inv (db db' : DB) (job_id command : string) (max_retries now : Z)
    (ret : option Job.t) :
  JobStorage.create_job job_id command max_retries now db = Ok (db', ret) ->
  let row := Job.mk job_id command pending 0 max_retries None
                    (datetime.timestamp now) (datetime.timestamp now) None None in
  db !! job_id = None /\ db' = <[job_id := row]> db /\ ret = Some row.
Proof.
  unfold JobStorage.create_job, JobStorage.get_job.
  destruct (JobStorage.sqlite_int max_retries); [simpl|done].
  destruct (db !! job_id) eqn:Hfresh; [done|].
  rewrite lookup_insert_eq. by intros [= <- <-].
Qed.

Lemma create_job_in_range (db : DB) (job_id command : string) (max_retries now : Z)
    (ret : DB * option Job.t) :
  JobStorage.create_job job_id command max_retries now db = Ok ret ->
  - 2 ^ 63 <= max_retries < 2 ^ 63.
Proof.
  unfold JobStorage.create_job, JobStorage.sqlite_int.
  destruct (Z.leb_spec (- 2 ^ 63) max_retries), (Z.ltb_spec max_retries (2 ^ 63));
    simpl; done.
Qed.

Lemma create_job_fresh (db : DB) (job_id command : string) (max_retries now : Z) :
  - 2 ^ 63 <= max_retries < 2 ^ 63 -> db !! job_id = None ->
  let row := Job.mk job_id command pending 0 max_retries None
                    (datetime.timestamp now) (datetime.timestamp now) None None in
  JobStorage.create_job job_id command max_retries now db
  = Ok (<[job_id := row]> db, Some row).
Proof.
  intros [Hlo Hhi] Hfresh. unfold JobStorage.create_job, JobStorage.sqlite_int,
    JobStorage.get_job.
  rewrite (proj2 (Z.leb_le _ _) Hlo), (proj2 (Z.ltb_lt _ _) Hhi). simpl.
  by rewrite Hfresh, lookup_insert_eq.
Qed.

Lemma create_job_taken (db : DB) (job_id command : string) (max_retries now : Z)
    (existing : Job.t) :
  - 2 ^ 63 <= max_retries < 2 ^ 63 -> db !! job_id = Some existing ->
  JobStorage.create_job job_id command max_retries now db = Raise IntegrityError.
Proof.
  intros [Hlo Hhi] Hrow. unfold JobStorage.create_job, JobStorage.sqlite_int.
  rewrite (proj2 (Z.leb_le _ _) Hlo), (proj2 (Z.ltb_lt _ _) Hhi). simpl.
  by rewrite Hrow.
Qed.

Lemma create_job_overflow (db : DB) (job_id command : string) (max_retries now : Z) :
  ~ - 2 ^ 63 <= max_retries < 2 ^ 63 ->
  JobStorage.create_job job_id command max_retries now db = Raise OverflowError.
Proof.
  unfold JobStorage.create_job, JobStorage.sqlite_int. intros Hout.
  destruct (Z.leb_spec (- 2 ^ 63) max_retries), (Z.ltb_spec max_retries (2 ^ 63));
    simpl; try done.
  lia.
Qed.

Lemma mark_failed_inv (msg : option string) (backoff_base now : Z) (job job' : Job.t) :
  Job.mark_failed msg backoff_base now job = Ok job' ->
  Job.id job' = Job.id job /\
  Job.attempts job' = Job.attempts job + 1 /\
  Job.error_message job' = msg /\
  ((Job.attempts job + 1 < Job.max_retries job /\ Job.state job' = failed /\
    exists t, Job.next_retry_at job' = Some t) \/
   (Job.max_retries job <= Job.attempts job + 1 /\ Job.state job' = dead /\
    Job.next_retry_at job' = None)).
Proof.
  unfold Job.mark_failed, Job.mark_for_retry, Job.should_retry. simpl.
  destruct (Z.ltb_spec (Job.attempts job + 1) (Job.max_retries job)).
  - destruct (Job.calculate_next_retry _ _ _) as [t|]; [|done].
    intros [= <-]. simpl. split_and!; [done..|]. left. eauto.
  - intros [= <-]. simpl. split_and!; [done..|]. by right.
Qed.

Lemma process_job_success (backoff_base t_mark t_update : Z) (p : process)
    (job row : Job.t) (msg : option string) (db : DB) :
  Job.execute job None p = Some (true, msg) ->
  db !! Job.id job = Some row ->
  WorkerManager.process_job backoff_base t_mark t_update p job db =
    WorkerManager.Continue
      (<[Job.id job := Job.set_updated_at (datetime.timestamp t_update)
                         (Job.mark_completed t_mark job)]> db)
      (WorkerManager.JobCompleted (Job.id job)).
Proof.
  intros Hexec Hrow. unfold WorkerManager.process_job. rewrite Hexec.
  by rewrite (update_job_to_dict db (Job.id job) (Job.mark_completed t_mark job)
                row t_update eq_refl Hrow).
Qed.

Lemma process_job_failure (backoff_base t_mark t_update : Z) (p : process)
    (job job' row : Job.t) (msg : option string) (db : DB) :
  Job.execute job None p = Some (false, msg) ->
  db !! Job.id job = Some row ->
  Job.mark_failed msg backoff_base t_mark job = Ok job' ->
  WorkerManager.process_job backoff_base t_mark t_update p job db =
    WorkerManager.Continue
      (<[Job.id job := Job.set_updated_at (datetime.timestamp t_update) job']> db)
      (if decide (Job.state job' = dead) then WorkerManager.JobDead (Job.id job)
       else WorkerManager.JobFailed (Job.id job)).
Proof.
  intros Hexec Hrow Hmark. unfold WorkerManager.process_job. rewrite Hexec, Hmark.
  apply mark_failed_inv in Hmark as (Hid & _).
  by rewrite (update_job_to_dict db (Job.id job) job' row t_update Hid Hrow).
Qed.

Lemma worker_iteration_acquired (backoff_base : Z) (ck : WorkerManager.clock)
    (p : process) (db : DB) (row : Job.t) :
  head (JobStorage.get_pending_jobs 1 (WorkerManager.t_poll ck) db) = Some row ->
  db !! Job.id row = Some row ->
  JobStorage.ready (datetime.timestamp (WorkerManager.t_acquire ck)) row = true ->
  WorkerManager.worker_iteration backoff_base ck p db =
    WorkerManager.process_job backoff_base (WorkerManager.t_mark ck)
      (WorkerManager.t_update ck) p row
      (<[Job.id row := Job.set_state processing row]> db).
Proof.
  intros Hpoll Hrow Hready. unfold WorkerManager.worker_iteration.
  destruct (JobStorage.get_pending_jobs _ _ db) as [|job_data rest]; [done|].
  injection Hpoll as ->.
  by rewrite (acquire_job_success db (Job.id row) _ row Hrow Hready).
Qed.

Lemma ready_pending (now : string) (row : Job.t) :
  Job.state row = pending -> Job.next_retry_at row = None ->
  JobStorage.ready now row = true.
Proof. intros Hst Hnra. apply ready_spec. split; by left. Qed.

(** C4 (as the code has it). A job just enqueued that the worker's poll
    returns first and whose command exits with code zero, its output
    decoding as text, is, after that one pass of the loop, in state
    [completed] with [completed_at] set to the time of completion; its
    [attempts] is still 0, because only a failure increments the counter. *)
Theorem worker_completes_pending_job
    (db db0 : DB) (job_id command : string) (max_retries now backoff_base : Z)
    (created : Job.t) (ck : WorkerManager.clock)
    (elapsed : Z) (stdout stderr : string) :
  JobStorage.create_job job_id command max_retries now db = Ok (db0, Some created) ->
  head (JobStorage.get_pending_jobs 1 (WorkerManager.t_poll ck) db0) = Some created ->
  exists db1 j,
    Job.state created = pending /\
    WorkerManager.worker_iteration backoff_base ck
        (Exits elapsed 0 (Text stdout) (Text stderr)) db0
      = WorkerManager.Continue db1 (WorkerManager.JobCompleted job_id) /\
    db1 !! job_id = Some j /\
    Job.state j = completed /\
    Job.completed_at j = Some (datetime.timestamp (WorkerManager.t_mark ck)) /\
    Job.attempts j = 0.
Proof.
  intros Hcreate Hpoll.
  apply create_job_inv in Hcreate as (Hfresh & -> & [= ->]).
  set (row := Job.mk job_id command pending 0 max_retries None _ _ None None) in *.
  assert (Hrow : (<[job_id := row]> db : DB) !! Job.id row = Some row)
    by apply lookup_insert_eq.
  eexists _, _. split; [done|].
  rewrite (worker_iteration_acquired _ _ _ _ row Hpoll Hrow) by done.
  erewrite process_job_success; [|reflexivity|by simpl; rewrite lookup_insert_eq].
  split; [done|]. simpl. by rewrite lookup_insert_eq.
Qed.

Lemma worker_completes_pending_job_witness :
  let created := Job.mk "t1" "echo hi" pending 0 3 None
                        "2024-05-01T00:00:00.000123Z" "2024-05-01T00:00:00.000123Z"
                        None None in
  let ck := {| WorkerManager.t_poll := 63850118401000000;
               WorkerManager.t_acquire := 63850118401000200;
               WorkerManager.t_mark := 63850118401500000;
               WorkerManager.t_update := 63850118401500300 |} in
  exists db1 j,
    Job.state created = pending /\
    WorkerManager.worker_iteration 2 ck (Exits 0 0 (Text "hi") (Text "")) {[ "t1"%string := created ]}
      = WorkerManager.Continue db1 (WorkerManager.JobCompleted "t1") /\
    db1 !! "t1"%string = Some j /\
    Job.state j = completed /\
    Job.completed_at j = Some (datetime.timestamp 63850118401500000) /\
    Job.attempts j = 0.
Proof.
  apply (worker_completes_pending_job ∅ {[ "t1"%string := _ ]} "t1" "echo hi" 3
           63850118400000123 2); reflexivity.
Defined.

(** C4 as claimed fails: after the pass that completes a freshly enqueued
    job the stored [attempts] is 0, not 1. And exit code zero alone does not
    complete the job: when the output of the command does not decode as
    text, [execute] reports a failure and the pass leaves the job [failed]
    with one attempt. *)
Lemma completed_job_has_zero_attempts :
  let created := Job.mk "t1" "echo hi" pending 0 3 None
                        "2024-05-01T00:00:00.000123Z" "2024-05-01T00:00:00.000123Z"
                        None None in
  let ck := {| WorkerManager.t_poll := 63850118401000000;
               WorkerManager.t_acquire := 63850118401000200;
               WorkerManager.t_mark := 63850118401500000;
               WorkerManager.t_update := 63850118401500300 |} in
  let undecodable :=
    Undecodable "'utf-8' codec can't decode byte 0xff in position 0: invalid start byte" in
  JobStorage.create_job "t1" "echo hi" 3 63850118400000123 ∅
    = Ok ({[ "t1"%string := created ]}, Some created) /\
  JobStorage.get_pending_jobs 1 63850118401000000 {[ "t1"%string := created ]} = [created] /\
  (exists j,
    WorkerManager.worker_iteration 2 ck (Exits 0 0 (Text "hi") (Text "")) {[ "t1"%string := created ]}
      = WorkerManager.Continue {[ "t1"%string := j ]} (WorkerManager.JobCompleted "t1") /\
    Job.state j = completed /\
    Job.completed_at j = Some "2024-05-01T00:00:01.500000Z"%string /\
    Job.attempts j = 0 /\
    Job.attempts j <> 1) /\
  (exists j,
    WorkerManager.worker_iteration 2 ck (Exits 0 0 undecodable (Text ""))
        {[ "t1"%string := created ]}
      = WorkerManager.Continue {[ "t1"%string := j ]} (WorkerManager.JobFailed "t1") /\
    Job.state j = failed /\
    Job.completed_at j = None /\
    Job.attempts j = 1).
Proof.
  split_and!; [vm_compute; reflexivity..| |].
  - exists (Job.mk "t1" "echo hi" completed 0 3 None
                   "2024-05-01T00:00:00.000123Z" "2024-05-01T00:00:01.500300Z"
                   (Some "2024-05-01T00:00:01.500000Z"%string) None).
    split_and!; [vm_compute; reflexivity..|done].
  - exists (Job.mk "t1" "echo hi" failed 1 3
                   (Some "2024-05-01T00:00:03.500000Z"%string)
                   "2024-05-01T00:00:00.000123Z" "2024-05-01T00:00:01.500300Z" None
                   (Some "'utf-8' codec can't decode byte 0xff in position 0: invalid start byte"%string)).
    split_and!; vm_compute; reflexivity.
Qed.

(** ** Several workers: what every reachable state satisfies *)

Lemma process_job_effect (backoff_base t_mark t_update : Z) (p : process)
    (job_data : Job.t) (db db' : DB) (ev : WorkerManager.event) :
  WorkerManager.process_job backoff_base t_mark t_update p job_data db
    = WorkerManager.Continue db' ev ->
  db' = db \/
  exists job', Job.id job' = Job.id job_data /\
    db' = <[Job.id job_data := job']> db /\ Pool.retry_shape job'.
Proof.
  unfold WorkerManager.process_job.
  destruct (Job.execute job_data None p) as [[[] msg]|]; [| |done].
  - destruct (db !! Job.id job_data) as [row|] eqn:Hrow.
    + rewrite (update_job_to_dict db (Job.id job_data) (Job.mark_completed t_mark job_data)
                 row t_update eq_refl Hrow).
      intros [= <- _]. right. eexists. split_and!; [|done|]; [done|].
      split; simpl; [done|]. by intros [|].
    + rewrite update_job_missing by done. intros [= <- _]. by left.
  - destruct (Job.mark_failed msg backoff_base t_mark job_data) as [job'|] eqn:Hmark;
      [|intros [= <- _]; by left].
    apply mark_failed_inv in Hmark as (Hid & _ & _ & Hshape).
    destruct (db !! Job.id job_data) as [row|] eqn:Hrow.
    + rewrite (update_job_to_dict db (Job.id job_data) job' row t_update Hid Hrow).
      intros [= <- _]. right. eexists. split_and!; [|done|]; [done|].
      split; simpl.
      * intros Hst. destruct Hshape as [(_ & _ & Ht)|(_ & Hd & _)]; [done|].
        by rewrite Hd in Hst.
      * intros Hst. destruct Hshape as [(_ & Hf & _)|(_ & _ & Hn)]; [|done].
        rewrite Hf in Hst. by destruct Hst.
    + rewrite update_job_missing by done. intros [= <- _]. by left.
Qed.

Lemma invariant_workers (sys sys' : Pool.system) :
  Pool.invariant sys ->
  Pool.db sys' = Pool.db sys ->
  (forall w job_data, Pool.workers sys' !! w = Some (Pool.Running job_data) ->
                      Pool.workers sys !! w = Some (Pool.Running job_data)) ->
  Pool.invariant sys'.
Proof.
  intros [Hwf Hrun Hexcl Hretry] Hdb Hsub. split; rewrite ?Hdb; eauto.
Qed.

Lemma invariant_write (sys sys' : Pool.system) (k : string) (row' : Job.t) (w0 : nat) :
  Pool.invariant sys ->
  Pool.db sys' = <[k := row']> (Pool.db sys) ->
  Job.id row' = k ->
  Pool.retry_shape row' ->
  (forall w job_data, Pool.workers sys' !! w = Some (Pool.Running job_data) ->
     (Pool.workers sys !! w = Some (Pool.Running job_data) /\ Job.id job_data <> k) \/
     (w = w0 /\ Job.id job_data = k /\ Job.state row' = processing)) ->
  Pool.invariant sys'.
Proof.
  intros [Hwf Hrun Hexcl Hretry] Hdb Hid Hshape Hworkers. split; rewrite ?Hdb.
  - intros k' row. rewrite lookup_insert_Some. intros [[<- <-]|[_ Hrow]]; eauto.
  - intros w jd Hw. destruct (Hworkers w jd Hw) as [[Hold Hne]|(_ & Hk & Hst)].
    + destruct (Hrun w jd Hold) as (row & Hrow & Hproc).
      exists row. by rewrite lookup_insert_ne.
    + exists row'. rewrite Hk. by rewrite lookup_insert_eq.
  - intros w1 w2 jd1 jd2 Hw1 Hw2 Hsame.
    destruct (Hworkers w1 jd1 Hw1) as [[Hold1 Hne1]|(-> & Hk1 & _)],
             (Hworkers w2 jd2 Hw2) as [[Hold2 Hne2]|(-> & Hk2 & _)]; eauto.
    + rewrite Hsame in Hne1. done.
    + rewrite <- Hsame in Hne2. done.
  - intros k' row. rewrite lookup_insert_Some. intros [[<- <-]|[_ Hrow]]; eauto.
Qed.

Lemma ready_not_processing (now : string) (row : Job.t) :
  JobStorage.ready now row = true -> Job.state row <> processing.
Proof.
  intros Hready Hst. apply ready_spec in Hready as [[H|H] _]; by rewrite Hst in H.
Qed.

Lemma step_invariant (a : Pool.action) (sys sys' : Pool.system) :
  Pool.invariant sys -> Pool.step a sys = Some sys' -> Pool.invariant sys'.
Proof.
  intros Hinv Hstep.
  destruct a as [w|w|w now|w now|w b tm tu p|job_id command mr now|job_id now];
    simpl in Hstep.
  - (* Spawn *)
    destruct (Pool.workers sys !! w) eqn:Hw; [done|]. injection Hstep as <-.
    apply (invariant_workers sys); [done..|]. simpl. intros w' jd.
    rewrite lookup_insert_Some. by intros [[_ ?]|[_ ?]].
  - (* Exit *)
    destruct (Pool.workers sys !! w) eqn:Hw; [|done]. injection Hstep as <-.
    apply (invariant_workers sys); [done..|]. simpl. intros w' jd.
    rewrite lookup_delete_Some. by intros [_ ?].
  - (* Poll *)
    destruct (Pool.workers sys !! w) as [[| |]|] eqn:Hw; try done.
    destruct (JobStorage.get_pending_jobs 1 now (Pool.db sys)) as [|jd rest];
      injection Hstep as <-; [done|].
    apply (invariant_workers sys); [done..|]. simpl. intros w' jd'.
    rewrite lookup_insert_Some. by intros [[_ ?]|[_ ?]].
  - (* Acquire *)
    destruct (Pool.workers sys !! w) as [[|jd|]|] eqn:Hw; try done.
    unfold JobStorage.acquire_job in Hstep.
    destruct (Pool.db sys !! Job.id jd) as [row|] eqn:Hrow.
    + destruct (JobStorage.ready _ row) eqn:Hready; injection Hstep as <-.
      * apply (invariant_write sys _ (Job.id jd) (Job.set_state processing row) w);
          [done|done| | |].
        -- simpl. by apply (Pool.inv_wf sys Hinv).
        -- split; simpl; [done|]. by intros [|].
        -- simpl. intros w' jd'. rewrite lookup_insert_Some.
           intros [[<- [= <-]]|[Hne Hold]]; [by right|]. left. split; [done|].
           intros Hsame.
           destruct (Pool.inv_running sys Hinv w' jd' Hold) as (row' & Hrow' & Hproc).
           rewrite Hsame, Hrow in Hrow'. injection Hrow' as <-.
           by apply ready_not_processing in Hready.
      * apply (invariant_workers sys); [done..|]. simpl. intros w' jd'.
        rewrite lookup_insert_Some. by intros [[_ ?]|[_ ?]].
    + injection Hstep as <-.
      apply (invariant_workers sys); [done..|]. simpl. intros w' jd'.
      rewrite lookup_insert_Some. by intros [[_ ?]|[_ ?]].
  - (* Finish *)
    destruct (Pool.workers sys !! w) as [[| |jd]|] eqn:Hw; try done.
    destruct (WorkerManager.process_job b tm tu p jd (Pool.db sys)) as [db' ev|] eqn:Hp;
      [|done].
    injection Hstep as <-.
    apply process_job_effect in Hp as [->|(job' & Hid & -> & Hshape)].
    + apply (invariant_workers sys); [done..|]. simpl. intros w' jd'.
      rewrite lookup_insert_Some. by intros [[_ ?]|[_ ?]].
    + apply (invariant_write sys _ (Job.id jd) job' w); [done..|].
      simpl. intros w' jd'. rewrite lookup_insert_Some.
      intros [[_ ?]|[Hne Hold]]; [done|]. left. split; [done|].
      intros Hsame. by apply Hne, (Pool.inv_exclusive sys Hinv w w' jd jd').
  - (* Enqueue *)
    destruct (JobStorage.create_job job_id command mr now (Pool.db sys))
      as [[db' ret]|] eqn:Hcreate; injection Hstep as <-; [|done].
    apply create_job_inv in Hcreate as (Hfresh & -> & _).
    eapply (invariant_write sys _ job_id _ 0%nat); [done|done|done| |].
    + split; simpl; [done|done].
    + simpl. intros w' jd' Hold. left. split; [done|]. intros Hsame.
      destruct (Pool.inv_running sys Hinv w' jd' Hold) as (row' & Hrow' & _).
      by rewrite Hsame, Hfresh in Hrow'.
  - (* DlqRetry *)
    injection Hstep as <-. unfold JobStorage.reset_job_for_retry. simpl.
    destruct (Pool.db sys !! job_id) as [row|] eqn:Hrow; [|by destruct sys].
    case_decide as Hdead; [|by destruct sys].
    eapply (invariant_write sys _ job_id _ 0%nat); [done|done| | |].
    + simpl. by apply (Pool.inv_wf sys Hinv).
    + split; simpl; [done|done].
    + simpl. intros w' jd' Hold. left. split; [done|]. intros Hsame.
      destruct (Pool.inv_running sys Hinv w' jd' Hold) as (row' & Hrow' & Hproc).
      rewrite Hsame, Hrow in Hrow'. injection Hrow' as <-. by rewrite Hdead in Hproc.
Qed.

Lemma init_invariant : Pool.invariant Pool.init.
Proof.
  split; simpl; [intros k row|intros w jd|intros w1 w2 jd1 jd2|intros k row];
    by rewrite lookup_empty.
Qed.

Lemma run_invariant (acts : list Pool.action) (sys sys' : Pool.system) :
  Pool.invariant sys -> Pool.run acts sys = Some sys' -> Pool.invariant sys'.
Proof.
  revert sys. induction acts as [|a acts IH]; simpl; intros sys Hinv Hrun.
  - by injection Hrun as <-.
  - destruct (Pool.step a sys) as [sys1|] eqn:Hstep; [|done].
    eauto using step_invariant.
Qed.

Lemma reachable_invariant (sys : Pool.system) :
  Pool.reachable sys -> Pool.invariant sys.
Proof. intros [acts Hrun]. eauto using run_invariant, init_invariant. Qed.

Lemma step_keeps_dead (a : Pool.action) (sys sys' : Pool.system)
    (job_id : string) (row : Job.t) :
  Pool.invariant sys ->
  Pool.db sys !! job_id = Some row ->
  Job.state row = dead ->
  (forall now, a <> Pool.DlqRetry job_id now) ->
  Pool.step a sys = Some sys' ->
  Pool.db sys' !! job_id = Some row.
Proof.
  intros Hinv Hrow Hdead Hnot Hstep.
  destruct a as [w|w|w now|w now|w b tm tu p|job_id' command mr now|job_id' now];
    cbn [Pool.step] in Hstep.
  - destruct (Pool.workers sys !! w); [done|]. by injection Hstep as <-.
  - destruct (Pool.workers sys !! w); [|done]. by injection Hstep as <-.
  - destruct (Pool.workers sys !! w) as [[| |]|]; try done.
    destruct (JobStorage.get_pending_jobs 1 now (Pool.db sys));
      by injection Hstep as <-.
  - destruct (Pool.workers sys !! w) as [[|jd|]|]; try done.
    assert (Hkeep : (JobStorage.acquire_job (Job.id jd) now (Pool.db sys)).1 !! job_id
                    = Some row).
    { destruct (decide (job_id = Job.id jd)) as [->|Hne].
      - rewrite acquire_job_failure; [done|]. intros row' Hrow'.
        rewrite Hrow in Hrow'. injection Hrow' as <-.
        apply not_true_is_false. intros [[H|H] _]%ready_spec; by rewrite Hdead in H.
      - by rewrite acquire_job_other. }
    destruct (JobStorage.acquire_job _ _ _) as [db' []]; by injection Hstep as <-.
  - destruct (Pool.workers sys !! w) as [[| |jd]|] eqn:Hw; try done.
    destruct (WorkerManager.process_job b tm tu p jd (Pool.db sys)) as [db' ev|] eqn:Hp;
      [|done].
    injection Hstep as <-. simpl.
    apply process_job_effect in Hp as [->|(job' & Hid & -> & Hshape)]; [done|].
    rewrite lookup_insert_ne; [done|]. intros Hsame.
    destruct (Pool.inv_running sys Hinv w jd Hw) as (row' & Hrow' & Hproc).
    rewrite Hsame, Hrow in Hrow'. injection Hrow' as <-. by rewrite Hdead in Hproc.
  - destruct (JobStorage.create_job job_id' command mr now (Pool.db sys))
      as [[db' ret]|] eqn:Hcreate; injection Hstep as <-; [|done].
    apply create_job_inv in Hcreate as (Hfresh & -> & _). simpl.
    rewrite lookup_insert_ne; [done|]. intros ->. by rewrite Hfresh in Hrow.
  - injection Hstep as <-. rewrite <- Hrow.
    apply (reset_job_for_retry_other (Pool.db sys) job_id' job_id now).
    intros ->. by apply (Hnot now).
Qed.

(** ** Exclusivity *)

(** C2. Statements reach the store one at a time, so two attempts to acquire
    the same id are two calls to [acquire_job] in some order: when the first
    succeeds the second fails and changes nothing, and more generally no
    attempt succeeds on a row whose state is [processing]. In every state a
    pool of workers can reach, a worker that is executing a job holds a
    [processing] row, and no two workers are executing the same job. *)
Theorem acquisition_is_exclusive :
  (forall (db : DB) (job_id : string) (now1 now2 : Z),
     (JobStorage.acquire_job job_id now1 db).2 = true ->
     JobStorage.acquire_job job_id now2 (JobStorage.acquire_job job_id now1 db).1
     = ((JobStorage.acquire_job job_id now1 db).1, false)) /\
  (forall (db : DB) (job_id : string) (row : Job.t) (now : Z),
     db !! job_id = Some row -> Job.state row = processing ->
     JobStorage.acquire_job job_id now db = (db, false)) /\
  (forall sys, Pool.reachable sys ->
     forall w1 w2 job_id,
       Pool.executing sys w1 job_id -> Pool.executing sys w2 job_id -> w1 = w2) /\
  (forall sys, Pool.reachable sys ->
     forall w job_id, Pool.executing sys w job_id ->
       exists row, Pool.db sys !! job_id = Some row /\ Job.state row = processing).
Proof.
  assert (Hprocessing : forall (db : DB) job_id row now,
            db !! job_id = Some row -> Job.state row = processing ->
            JobStorage.acquire_job job_id now db = (db, false)).
  { intros db job_id row now Hrow Hst. apply acquire_job_failure.
    intros row' Hrow'. rewrite Hrow in Hrow'. injection Hrow' as <-.
    apply not_true_is_false. intros Hready.
    by apply ready_not_processing in Hready. }
  split_and!.
  - intros db job_id now1 now2 Hfirst.
    unfold JobStorage.acquire_job in Hfirst |- * at 2 3.
    destruct (db !! job_id) as [row|] eqn:Hrow; [|done].
    destruct (JobStorage.ready _ row); [|done]. simpl.
    apply (Hprocessing _ _ (Job.set_state processing row)); [|done].
    by rewrite lookup_insert_eq.
  - done.
  - intros sys Hreach w1 w2 job_id (jd1 & Hw1 & Hid1) (jd2 & Hw2 & Hid2).
    apply reachable_invariant in Hreach.
    apply (Pool.inv_exclusive sys Hreach w1 w2 jd1 jd2); [done..|]. by rewrite Hid1.
  - intros sys Hreach w job_id (jd & Hw & <-).
    apply reachable_invariant in Hreach.
    by apply (Pool.inv_running sys Hreach w).
Qed.

Lemma acquisition_is_exclusive_witness :
  let db : DB := {[ "test4"%string := validate.test4 ]} in
  let now := WorkerManager.t_acquire validate.pass1 in
  (JobStorage.acquire_job "test4" now db).2 = true /\
  JobStorage.acquire_job "test4" now (JobStorage.acquire_job "test4" now db).1
  = ((JobStorage.acquire_job "test4" now db).1, false).
Proof.
  split; [reflexivity|].
  exact (proj1 acquisition_is_exclusive {[ "test4"%string := validate.test4 ]} "test4"
           (WorkerManager.t_acquire validate.pass1)
           (WorkerManager.t_acquire validate.pass1) eq_refl).
Defined.

(** ** [next_retry_at] and the state *)

(** C5 (as the code has it). In every state reachable by enqueueing,
    acquiring, writing an outcome and resetting, a [failed] row has
    [next_retry_at] set and a [pending] or [dead] row has it NULL. Acquiring
    a row leaves its [next_retry_at] as it was. *)
Theorem next_retry_at_by_state (sys : Pool.system) (job_id : string) (row : Job.t) :
  Pool.reachable sys ->
  Pool.db sys !! job_id = Some row ->
  (Job.state row = failed -> exists t, Job.next_retry_at row = Some t) /\
  (Job.state row = pending \/ Job.state row = dead -> Job.next_retry_at row = None) /\
  (forall now row',
     (JobStorage.acquire_job job_id now (Pool.db sys)).1 !! job_id = Some row' ->
     Job.next_retry_at row' = Job.next_retry_at row).
Proof.
  intros Hreach Hrow. apply reachable_invariant in Hreach.
  destruct (Pool.inv_retry sys Hreach job_id row Hrow) as [Hfailed Hnull].
  split_and!; [done..|].
  intros now row' Hrow'. by apply (acquire_job_updated_at _ _ _ _ _ Hrow Hrow').
Qed.

Lemma first_failure_reached :
  Pool.run validate.first_failure Pool.init =
    Some {| Pool.db := {[ "test4"%string := validate.test4_failed ]};
            Pool.workers := {[ 1%nat := Pool.Polling ]} |}.
Proof. vm_compute. reflexivity. Qed.

Lemma next_retry_at_by_state_witness :
  let sys := {| Pool.db := {[ "test4"%string := validate.test4_failed ]};
                Pool.workers := {[ 1%nat := Pool.Polling ]} |} in
  (Job.state validate.test4_failed = failed ->
   exists t, Job.next_retry_at validate.test4_failed = Some t) /\
  (Job.state validate.test4_failed = pending \/ Job.state validate.test4_failed = dead ->
   Job.next_retry_at validate.test4_failed = None) /\
  (forall now row',
     (JobStorage.acquire_job "test4" now (Pool.db sys)).1 !! "test4"%string = Some row' ->
     Job.next_retry_at row' = Job.next_retry_at validate.test4_failed).
Proof.
  apply (next_retry_at_by_state
           {| Pool.db := {[ "test4"%string := validate.test4_failed ]};
              Pool.workers := {[ 1%nat := Pool.Polling ]} |}
           "test4" validate.test4_failed).
  - exists validate.first_failure. vm_compute. reflexivity.
  - reflexivity.
Defined.

(** C5 as claimed fails: when the worker acquires the failed job again, the
    row is [processing] and still carries the [next_retry_at] of the last
    failure. *)
Lemma processing_job_keeps_next_retry_at :
  exists sys row,
    Pool.reachable sys /\
    Pool.db sys !! "test4"%string = Some row /\
    Job.state row = processing /\
    Job.next_retry_at row = Some "2024-05-01T00:00:03.500123Z"%string.
Proof.
  exists {| Pool.db := {[ "test4"%string := Job.set_state processing validate.test4_failed ]};
            Pool.workers := {[ 1%nat := Pool.Running validate.test4_failed ]} |},
         (Job.set_state processing validate.test4_failed).
  split_and!; [|reflexivity..].
  exists validate.reacquired. vm_compute. reflexivity.
Qed.

(** ** From the first failure to the dead-letter queue *)

(** C3 (as the code has it). A job enqueued with [max_retries = 2] whose
    command fails each time it is executed, served by passes of the worker
    loop that pick it up: the first pass leaves it [failed] with
    [attempts = 1], the second pass leaves it [dead] with [attempts = 2] and
    no [next_retry_at]. So it is dead after exactly two executions. Once a
    row is [dead], no step of any worker and no enqueue changes it; only the
    dead-letter reset of that id does. *)
Theorem failing_job_dies_after_max_retries
    (db db0 : DB) (job_id command : string) (now b1 b2 : Z)
    (ck1 ck2 : WorkerManager.clock) (p1 p2 : process) (m1 m2 : option string)
    (row0 row1 : Job.t) :
  let it1 := WorkerManager.worker_iteration b1 ck1 p1 db0 in
  let db1 := WorkerManager.table it1 in
  let it2 := WorkerManager.worker_iteration b2 ck2 p2 db1 in
  let db2 := WorkerManager.table it2 in
  JobStorage.create_job job_id command 2 now db = Ok (db0, Some row0) ->
  head (JobStorage.get_pending_jobs 1 (WorkerManager.t_poll ck1) db0) = Some row0 ->
  Job.execute row0 None p1 = Some (false, m1) ->
  datetime.valid (WorkerManager.t_mark ck1 + b1 ^ 1 * datetime.us_per_second) = true ->
  db1 !! job_id = Some row1 ->
  head (JobStorage.get_pending_jobs 1 (WorkerManager.t_poll ck2) db1) = Some row1 ->
  JobStorage.ready (datetime.timestamp (WorkerManager.t_acquire ck2)) row1 = true ->
  Job.execute row1 None p2 = Some (false, m2) ->
  (it1 = WorkerManager.Continue db1 (WorkerManager.JobFailed job_id) /\
   Job.state row1 = failed /\ Job.attempts row1 = 1) /\
  (exists row2,
     it2 = WorkerManager.Continue db2 (WorkerManager.JobDead job_id) /\
     db2 !! job_id = Some row2 /\
     Job.state row2 = dead /\ Job.attempts row2 = 2 /\
     Job.next_retry_at row2 = None /\ Job.error_message row2 = m2) /\
  (forall sys a sys' row,
     Pool.reachable sys ->
     Pool.db sys !! job_id = Some row -> Job.state row = dead ->
     (forall t, a <> Pool.DlqRetry job_id t) ->
     Pool.step a sys = Some sys' ->
     Pool.db sys' !! job_id = Some row).
Proof.
  cbv zeta. intros Hcreate Hpoll1 Hexec1 Hvalid Hrow1 Hpoll2 Hready2 Hexec2.
  apply create_job_inv in Hcreate as (Hfresh & -> & [= ->]).
  set (row0 := Job.mk job_id command pending 0 2 None _ _ None None) in *.
  (* the first pass *)
  assert (Hit1 : WorkerManager.worker_iteration b1 ck1 p1 (<[job_id := row0]> db)
                 = WorkerManager.Continue
                     (<[job_id := Job.set_updated_at
                                    (datetime.timestamp (WorkerManager.t_update ck1))
                                    (Job.mk job_id command failed 1 2
                                       (Some (datetime.timestamp
                                          (WorkerManager.t_mark ck1 + b1 ^ 1 * datetime.us_per_second)))
                                       (Job.created_at row0) (Job.updated_at row0)
                                       None m1)]>
                        (<[job_id := Job.set_state processing row0]> (<[job_id := row0]> db)))
                     (WorkerManager.JobFailed job_id)).
  { rewrite (worker_iteration_acquired _ _ _ _ row0 Hpoll1);
      [|by apply lookup_insert_eq|done].
    erewrite process_job_failure; [|done|by simpl; rewrite lookup_insert_eq|]; last first.
    { unfold Job.mark_failed, Job.mark_for_retry, Job.calculate_next_retry,
        datetime.add_seconds, row0. simpl.
      change (b1 ^ 1) with (b1 ^ (0 + 1)) in Hvalid. rewrite Hvalid. reflexivity. }
    done. }
  rewrite Hit1 in Hrow1, Hpoll2 |- *. simpl in Hrow1, Hpoll2 |- *.
  rewrite lookup_insert_eq in Hrow1. injection Hrow1 as <-.
  split; [done|]. split.
  - (* the second pass *)
    match type of Hpoll2 with
    | head (JobStorage.get_pending_jobs _ _ ?d) = Some ?r =>
        set (db1 := d) in *; set (row1 := r) in *
    end.
    assert (Hrow1 : db1 !! Job.id row1 = Some row1) by apply lookup_insert_eq.
    rewrite (worker_iteration_acquired _ _ _ _ row1 Hpoll2 Hrow1 Hready2).
    erewrite process_job_failure;
      [|done|by simpl; rewrite lookup_insert_eq|reflexivity].
    simpl. eexists. split; [done|]. by rewrite lookup_insert_eq.
  - intros sys a sys' row Hreach. apply step_keeps_dead.
    by apply reachable_invariant.
Qed.

Lemma failing_job_dies_after_max_retries_witness :
  let db0 : DB := {[ "test4"%string := validate.test4 ]} in
  let it1 := WorkerManager.worker_iteration 2 validate.pass1 validate.not_found db0 in
  let db1 := WorkerManager.table it1 in
  let it2 := WorkerManager.worker_iteration 2 validate.pass2 validate.not_found db1 in
  let db2 := WorkerManager.table it2 in
  (it1 = WorkerManager.Continue db1 (WorkerManager.JobFailed "test4") /\
   Job.state validate.test4_failed = failed /\
   Job.attempts validate.test4_failed = 1) /\
  (exists row2,
     it2 = WorkerManager.Continue db2 (WorkerManager.JobDead "test4") /\
     db2 !! "test4"%string = Some row2 /\
     Job.state row2 = dead /\ Job.attempts row2 = 2 /\
     Job.next_retry_at row2 = None /\
     Job.error_message row2 = Some "/bin/sh: 1: nonexistentcommand12345: not found"%string) /\
  (forall sys a sys' row,
     Pool.reachable sys ->
     Pool.db sys !! "test4"%string = Some row -> Job.state row = dead ->
     (forall t, a <> Pool.DlqRetry "test4" t) ->
     Pool.step a sys = Some sys' ->
     Pool.db sys' !! "test4"%string = Some row).
Proof.
  apply (failing_job_dies_after_max_retries ∅ {[ "test4"%string := validate.test4 ]}
           "test4" "nonexistentcommand12345" validate.enqueued_at 2 2
           validate.pass1 validate.pass2 validate.not_found validate.not_found
           (Some "/bin/sh: 1: nonexistentcommand12345: not found"%string)
           (Some "/bin/sh: 1: nonexistentcommand12345: not found"%string)
           validate.test4 validate.test4_failed);
    vm_compute; reflexivity.
Defined.

(** C3 as claimed fails: with [max_retries = 2] the job is dead after the
    second failed execution, and a third pass of the loop finds no work. *)
Lemma job_is_dead_after_two_executions :
  let db0 : DB := {[ "test4"%string := validate.test4 ]} in
  let db1 : DB := {[ "test4"%string := validate.test4_failed ]} in
  let db2 : DB := {[ "test4"%string := validate.test4_dead ]} in
  JobStorage.create_job "test4" "nonexistentcommand12345" 2 validate.enqueued_at ∅
    = Ok (db0, Some validate.test4) /\
  WorkerManager.worker_iteration 2 validate.pass1 validate.not_found db0
    = WorkerManager.Continue db1 (WorkerManager.JobFailed "test4") /\
  WorkerManager.worker_iteration 2 validate.pass2 validate.not_found db1
    = WorkerManager.Continue db2 (WorkerManager.JobDead "test4") /\
  Job.state validate.test4_dead = dead /\
  Job.attempts validate.test4_dead = 2 /\
  WorkerManager.worker_iteration 2 validate.pass3 validate.not_found db2
    = WorkerManager.Continue db2 WorkerManager.Idle.
Proof. split_and!; vm_compute; reflexivity. Qed.

(** ** Checks of the model on concrete values *)

Example isoformat_values :
  datetime.timestamp 0 = "0001-01-01T00:00:00Z"%string /\
  datetime.timestamp 62135596800000000 = "1970-01-01T00:00:00Z"%string /\
  datetime.timestamp 63113862605000042 = "2000-12-31T12:30:05.000042Z"%string /\
  datetime.timestamp 63844847999999999 = "2024-02-29T23:59:59.999999Z"%string /\
  datetime.timestamp 66243139200000000 = "2100-03-01T00:00:00Z"%string /\
  datetime.timestamp datetime.max = "9999-12-31T23:59:59.999999Z"%string.
Proof. repeat split; reflexivity. Qed.

(** The store compares timestamps as text. A value that falls on a whole
    second is printed without a fraction, and then sorts after every later
    value of the same second. *)
Example text_order_within_a_second :
  let whole := 63850118405000000 in
  let later := 63850118405500000 in
  whole < later /\
  datetime.timestamp whole = "2024-05-01T00:00:05Z"%string /\
  datetime.timestamp later = "2024-05-01T00:00:05.500000Z"%string /\
  String.leb (datetime.timestamp later) (datetime.timestamp whole) = true.
Proof. repeat split; reflexivity. Qed.

Example execute_messages :
  Job.execute validate.test4 None validate.not_found
    = Some (false, Some "/bin/sh: 1: nonexistentcommand12345: not found"%string) /\
  Job.execute validate.test4 None (Exits 0 3 (Text "") (Text ""))
    = Some (false, Some "Command failed with exit code 3"%string) /\
  Job.execute validate.test4 None (Exits 0 1 (Text "partial output") (Text ""))
    = Some (false, Some "partial output"%string) /\
  Job.execute validate.test4 None
      (Exits 0 0 (Undecodable "'utf-8' codec can't decode byte 0xff in position 0: invalid start byte")
         (Text ""))
    = Some (false, Some "'utf-8' codec can't decode byte 0xff in position 0: invalid start byte"%string) /\
  Job.execute validate.test4 (Some 5) Hangs
    = Some (false, Some "Command timed out after 5 seconds"%string) /\
  Job.execute validate.test4 (Some 0) Hangs = None.
Proof. repeat split; vm_compute; reflexivity. Qed.

Lemma acquire_job_by_text_witness :
  (JobStorage.acquire_job "test4" (WorkerManager.t_acquire validate.pass2)
     {[ "test4"%string := validate.test4_failed ]}).2 = true.
Proof.
  apply (proj1 (acquire_job_by_text {[ "test4"%string := validate.test4_failed ]}
                  "test4" (WorkerManager.t_acquire validate.pass2))).
  exists validate.test4_failed. split; [reflexivity|]. split; [by right|].
  right. exists "2024-05-01T00:00:03.500123Z"%string. split; reflexivity.
Defined.

Lemma get_pending_jobs_by_text_witness :
  let db : DB := {[ "test4"%string := validate.test4_failed ]} in
  (validate.test4_failed ∉
     JobStorage.get_pending_jobs 1 (WorkerManager.t_poll validate.pass1) db) /\
  (validate.test4_failed ∈
     JobStorage.ready_rows (datetime.timestamp (WorkerManager.t_poll validate.pass2)) db).
Proof.
  split.
  - apply (proj1 (proj2 (proj2 (proj2 (proj2 (proj2 (proj2
             (get_pending_jobs_by_text {[ "test4"%string := validate.test4_failed ]} 1
                (WorkerManager.t_poll validate.pass1))))))))
            validate.test4_failed "2024-05-01T00:00:03.500123Z"); reflexivity.
  - apply (proj2 (proj2 (proj2 (proj2 (proj2 (proj2 (proj2
             (get_pending_jobs_by_text {[ "test4"%string := validate.test4_failed ]} 1
                (WorkerManager.t_poll validate.pass2))))))))
            "test4"%string validate.test4_failed "2024-05-01T00:00:03.500123Z");
      reflexivity.
Defined.

Lemma worker_never_times_out_witness :
  WorkerManager.worker_iteration 2 validate.pass1 Hangs
    {[ "test4"%string := validate.test4 ]}
  = WorkerManager.Blocked
      (JobStorage.acquire_job "test4" (WorkerManager.t_acquire validate.pass1)
         {[ "test4"%string := validate.test4 ]}).1.
Proof.
  apply (proj1 (proj2 (proj2 (proj2 (proj2
           (worker_never_times_out validate.test4 Hangs)))))
           2 validate.pass1 {[ "test4"%string := validate.test4 ]} []);
    vm_compute; reflexivity.
Defined.

(** * Further properties of the code *)

(** ** Creating and patching rows *)

(** X1. [create_job] with a [max_retries] that fits SQLite's signed 64-bit
    integer: on a free id it stores a [pending] row with [attempts = 0],
    NULL [next_retry_at], [completed_at] and [error_message], and the
    current timestamp in both [created_at] and [updated_at]; it returns that
    row, [get_job] finds it afterwards, and every other row is as before; on
    a taken id it raises [IntegrityError]. With a [max_retries] outside
    64 bits it raises [OverflowError], whether the id is free or not. It
    returns a table only in the first case. *)
Theorem create_job_spec (db : DB) (job_id command : string) (max_retries now : Z) :
  let row := Job.mk job_id command pending 0 max_retries None
                    (datetime.timestamp now) (datetime.timestamp now) None None in
  (- 2 ^ 63 <= max_retries < 2 ^ 63 -> db !! job_id = None ->
   exists db',
     JobStorage.create_job job_id command max_retries now db = Ok (db', Some row) /\
     JobStorage.get_job job_id db' = Some row /\
     (forall other, other <> job_id ->
        JobStorage.get_job other db' = JobStorage.get_job other db)) /\
  (- 2 ^ 63 <= max_retries < 2 ^ 63 ->
   forall existing, db !! job_id = Some existing ->
     JobStorage.create_job job_id command max_retries now db = Raise IntegrityError) /\
  (~ - 2 ^ 63 <= max_retries < 2 ^ 63 ->
   JobStorage.create_job job_id command max_retries now db = Raise OverflowError) /\
  (forall ret,
     JobStorage.create_job job_id command max_retries now db = Ok ret ->
     - 2 ^ 63 <= max_retries < 2 ^ 63 /\ db !! job_id = None).
Proof.
  cbv zeta. split_and!.
  - intros Hrange Hfresh. eexists. split; [by apply create_job_fresh|].
    unfold JobStorage.get_job. rewrite lookup_insert_eq. split; [done|].
    intros other Hne. by rewrite lookup_insert_ne.
  - intros Hrange existing Hrow. by eapply create_job_taken.
  - apply create_job_overflow.
  - intros [db' ret] Hcreate. split.
    + by apply create_job_in_range in Hcreate.
    + by apply create_job_inv in Hcreate as (Hfresh & _).
Qed.

Lemma create_job_spec_witness :
  JobStorage.create_job "test4" "nonexistentcommand12345" 2 validate.enqueued_at
    {[ "test4"%string := validate.test4_dead ]} = Raise IntegrityError /\
  JobStorage.create_job "big" "true" (2 ^ 63) validate.enqueued_at ∅
    = Raise OverflowError.
Proof.
  split.
  - apply (proj1 (proj2 (create_job_spec {[ "test4"%string := validate.test4_dead ]}
                           "test4" "nonexistentcommand12345" 2 validate.enqueued_at)))
      with (existing := validate.test4_dead); [lia|reflexivity].
  - apply (proj1 (proj2 (proj2 (create_job_spec ∅ "big" "true" (2 ^ 63)
                                  validate.enqueued_at)))).
    lia.
Defined.

(** X2. [update_job] on an id that is not in the table changes nothing and
    returns [None]. When it succeeds, every row filed under an id other than
    [job_id] and other than the id the dictionary assigns is as before, and
    the patched row carries the current timestamp in [updated_at] whatever
    the dictionary says. A dictionary that moves the row onto the id of
    another row raises [IntegrityError]. *)
Theorem update_job_spec (db : DB) (job_id : string) (u : updates) (now : Z) :
  (db !! job_id = None -> JobStorage.update_job job_id u now db = Ok (db, None)) /\
  (forall row db' ret,
     db !! job_id = Some row ->
     JobStorage.update_job job_id u now db = Ok (db', ret) ->
     let new_id := default (Job.id row) (u_id u) in
     (exists row', db' !! new_id = Some row' /\
        Job.updated_at row' = datetime.timestamp now /\
        Job.state row' = default (Job.state row) (u_state u) /\
        Job.attempts row' = default (Job.attempts row) (u_attempts u)) /\
     (forall other, other <> job_id -> other <> new_id -> db' !! other = db !! other)) /\
  (forall row new_id other_row,
     db !! job_id = Some row -> u_id u = Some new_id -> new_id <> job_id ->
     db !! new_id = Some other_row ->
     JobStorage.update_job job_id u now db = Raise IntegrityError).
Proof.
  split_and!.
  - apply update_job_missing.
  - intros row db' ret Hrow. cbv zeta. unfold JobStorage.update_job. rewrite Hrow.
    set (row' := JobStorage.apply_updates _ row).
    assert (Hid : Job.id row' = default (Job.id row) (u_id u)) by done.
    rewrite <- Hid.
    case_decide as Hsame.
    + intros [= <- _]. split.
      * exists row'. rewrite Hsame. by rewrite lookup_insert_eq.
      * intros other Hne _. by rewrite lookup_insert_ne.
    + destruct (db !! Job.id row') eqn:Hnew; [done|].
      intros [= <- _]. split.
      * exists row'. by rewrite lookup_insert_eq.
      * intros other Hne Hne'. rewrite lookup_insert_ne by done.
        by rewrite lookup_delete_ne.
  - intros row new_id other_row Hrow Hu Hne Hother.
    unfold JobStorage.update_job. rewrite Hrow.
    set (row' := JobStorage.apply_updates _ row).
    assert (Hid : Job.id row' = new_id) by (unfold row'; simpl; by rewrite Hu).
    rewrite Hid. rewrite decide_False by done. by rewrite Hother.
Qed.

Lemma update_job_spec_witness :
  JobStorage.update_job "ghost" (Job.to_dict validate.test4) validate.enqueued_at
    {[ "test4"%string := validate.test4 ]}
  = Ok ({[ "test4"%string := validate.test4 ]}, None).
Proof.
  exact (proj1 (update_job_spec {[ "test4"%string := validate.test4 ]} "ghost"
                  (Job.to_dict validate.test4) validate.enqueued_at) eq_refl).
Defined.

(** ** Listing jobs *)

#[global] Instance created_ge_total : Total JobStorage.created_ge.
Proof. intros a b. unfold JobStorage.created_ge. apply String.leb_total. Qed.

#[global] Instance created_ge_trans : Transitive JobStorage.created_ge.
Proof.
  intros a b c Hab Hbc. unfold JobStorage.created_ge, JobStorage.created_le in *.
  by apply (string_leb_trans _ (Job.created_at b)).
Qed.

Lemma state_text_inj (s1 s2 : job_state) :
  JobStorage.state_text s1 = JobStorage.state_text s2 -> s1 = s2.
Proof. by destruct s1, s2. Qed.

Lemma state_text_nonempty (s : job_state) : JobStorage.state_text s <> ""%string.
Proof. by destruct s. Qed.

Lemma elem_of_rows_in_state (state : option string) (db : DB) (row : Job.t) :
  row ∈ JobStorage.rows_in_state state db <->
  (exists k, db !! k = Some row) /\
  (forall s, state = Some s -> s <> ""%string -> JobStorage.state_text (Job.state row) = s).
Proof.
  unfold JobStorage.rows_in_state. destruct state as [s|].
  - destruct (String.eqb_spec s "") as [->|Hne]; simpl.
    + rewrite elem_of_rows. split; [|tauto]. intros Hrow. split; [done|].
      by intros s [= <-].
    + rewrite list_elem_of_filter, elem_of_rows. split.
      * intros [Hst Hrow]. split; [done|]. by intros s' [= <-].
      * intros [Hrow Hst]. split; [|done]. by apply Hst.
  - rewrite elem_of_rows. split; [|tauto]. intros Hrow. split; [done|]. by intros s.
Qed.

Lemma list_jobs_aux (state : option string) (limit : Z) (db : DB) :
  (forall row, row ∈ JobStorage.rows_in_state state db <->
     (exists k, db !! k = Some row) /\
     (forall s, state = Some s -> s <> ""%string ->
                JobStorage.state_text (Job.state row) = s)) /\
  (forall row, row ∈ JobStorage.list_jobs state limit db ->
               row ∈ JobStorage.rows_in_state state db) /\
  StronglySorted JobStorage.created_ge (JobStorage.list_jobs state limit db) /\
  (0 <= limit -> Z.of_nat (length (JobStorage.list_jobs state limit db)) <= limit) /\
  (limit < 0 \/ Z.of_nat (length (JobStorage.rows_in_state state db)) <= limit ->
   forall row, row ∈ JobStorage.rows_in_state state db ->
               row ∈ JobStorage.list_jobs state limit db).
Proof.
  unfold JobStorage.list_jobs.
  set (selected := JobStorage.rows_in_state state db).
  set (sorted := merge_sort JobStorage.created_ge selected).
  assert (Hperm : sorted ≡ₚ selected) by apply merge_sort_Permutation.
  assert (Hsorted : StronglySorted JobStorage.created_ge sorted)
    by apply (StronglySorted_merge_sort _).
  destruct (sql_limit_split limit sorted) as [rest Hsplit].
  split_and!.
  - apply elem_of_rows_in_state.
  - intros row Hin. rewrite <- Hperm. eapply elem_of_sublist; [done|].
    apply sql_limit_sublist.
  - rewrite Hsplit in Hsorted. by apply StronglySorted_app_1_l in Hsorted.
  - intros Hlimit. unfold JobStorage.sql_limit.
    destruct (Z.ltb_spec limit 0); [lia|]. rewrite length_take. lia.
  - intros Hlimit row Hrow. rewrite sql_limit_all; by rewrite Hperm.
Qed.



Lemma slice_to_length {A} (limit : Z) (l : list A) :
  Z.of_nat (length (cli.slice_to limit l)) =
    if limit <? 0 then Z.max 0 (Z.of_nat (length l) + limit)
    else Z.min limit (Z.of_nat (length l)).
Proof.
  unfold cli.slice_to. destruct (Z.ltb_spec limit 0); rewrite length_take; lia.
Qed.

(** X4. The dead-letter listing holds only [dead] rows, sorted by the
    [created_at] text in descending order, and never more than 100 of them,
    because [get_dlq_jobs] calls [list_jobs] with its default limit; when
    the table has at most 100 dead rows it holds them all.
    [dlq list --limit n] prints a prefix of that listing: all of it for
    [n = 0], its first [n] rows for a positive [n], and all but its last
    [-n] rows for a negative [n]. *)
Theorem get_dlq_jobs_spec (limit : Z) (db : DB) :
  let dlq := JobStorage.get_dlq_jobs db in
  let shown := cli.dlq_list limit db in
  (forall row, row ∈ dlq -> (exists k, db !! k = Some row) /\ Job.state row = dead) /\
  StronglySorted JobStorage.created_ge dlq /\
  (length dlq <= 100)%nat /\
  ((length (filter (fun row => Job.state row = dead) (JobStorage.rows db)) <= 100)%nat ->
   forall k row, db !! k = Some row -> Job.state row = dead -> row ∈ dlq) /\
  shown `prefix_of` dlq /\
  Z.of_nat (length shown) =
    (if limit =? 0 then Z.of_nat (length dlq)
     else if limit <? 0 then Z.max 0 (Z.of_nat (length dlq) + limit)
     else Z.min limit (Z.of_nat (length dlq))).
Proof.
  cbv zeta.
  destruct (list_jobs_aux (Some "dead"%string) 100 db)
    as (Hsel & Hsub & Hsorted & Hlen & Hall).
  split_and!.
  - intros row Hin. apply Hsub, Hsel in Hin as [Hrow Hst]. split; [done|].
    by apply state_text_inj, Hst.
  - done.
  - unfold JobStorage.get_dlq_jobs. lia.
  - intros Hfew k row Hrow Hdead. apply Hall.
    + right. unfold JobStorage.rows_in_state. simpl.
      rewrite (list_filter_iff _ (fun row => Job.state row = dead)); [lia|].
      intros r. split; [apply (state_text_inj _ dead)|by intros ->].
    + apply Hsel. split; [by exists k|]. intros s [= <-] _. by rewrite Hdead.
  - unfold cli.dlq_list, cli.slice_to.
    destruct (limit =? 0); simpl; [done|].
    destruct (limit <? 0); apply prefix_take.
  - unfold cli.dlq_list. destruct (Z.eqb_spec limit 0); simpl; [done|].
    apply slice_to_length.
Qed.

Lemma get_dlq_jobs_spec_witness :
  validate.test4_dead ∈ JobStorage.get_dlq_jobs {[ "test4"%string := validate.test4_dead ]}.
Proof.
  destruct (get_dlq_jobs_spec 20 {[ "test4"%string := validate.test4_dead ]})
    as (_ & _ & _ & Hall & _).
  apply (Hall ltac:(vm_compute; repeat constructor) "test4"%string); reflexivity.
Defined.

(** ** Statistics *)

Lemma stats_lookup (l : list Job.t) (s : job_state) :
  default 0%nat (foldr JobStorage.count_row ∅ l !! JobStorage.state_text s)
  = JobStorage.count_in_state s l.
Proof.
  unfold JobStorage.count_in_state. induction l as [|row l IH]; simpl; [done|].
  unfold JobStorage.count_row at 1. rewrite filter_cons.
  destruct (decide (Job.state row = s)) as [->|Hne].
  - rewrite lookup_insert_eq. simpl. by rewrite IH.
  - rewrite lookup_insert_ne; [done|]. intros Heq. by apply Hne, state_text_inj.
Qed.

Lemma stats_keys (l : list Job.t) (k : string) (n : nat) :
  foldr JobStorage.count_row ∅ l !! k = Some n ->
  (0 < n)%nat /\ exists s, k = JobStorage.state_text s.
Proof.
  revert n. induction l as [|row l IH]; simpl; intros n; [by rewrite lookup_empty|].
  unfold JobStorage.count_row at 1. rewrite lookup_insert_Some.
  intros [[<- <-]|[_ Hk]]; [|by apply IH]. split; [lia|]. by eexists.
Qed.

Lemma sum_counts_insert (stats : gmap string nat) (k : string) :
  JobStorage.sum_counts (<[k := S (default 0%nat (stats !! k))]> stats) = S (JobStorage.sum_counts stats).
Proof.
  unfold JobStorage.sum_counts. destruct (stats !! k) as [m|] eqn:Hk; simpl.
  - rewrite <- insert_delete_eq.
    rewrite map_fold_insert_L; [|intros; lia|by rewrite lookup_delete_eq].
    rewrite (map_fold_delete_L _ _ k m stats); [lia|intros; lia|done].
  - rewrite map_fold_insert_L; [lia|intros; lia|done].
Qed.

Lemma sum_counts_foldr (l : list Job.t) :
  JobStorage.sum_counts (foldr JobStorage.count_row ∅ l) = length l.
Proof.
  induction l as [|row l IH]; simpl; [done|].
  unfold JobStorage.count_row at 1. by rewrite sum_counts_insert, IH.
Qed.

Lemma count_in_state_total (l : list Job.t) :
  (JobStorage.count_in_state pending l + JobStorage.count_in_state processing l + JobStorage.count_in_state completed l
   + JobStorage.count_in_state failed l + JobStorage.count_in_state dead l)%nat = length l.
Proof.
  unfold JobStorage.count_in_state. induction l as [|row l IH]; simpl; [done|].
  rewrite !filter_cons.
  destruct (Job.state row) eqn:Hst;
    repeat (case_decide; try done); simpl; lia.
Qed.

(** X5. [get_stats] has one key per state that occurs in the table, with the
    number of rows in that state, which is never 0; so the count that
    [status] prints for a state, [stats.get(state, 0)], is the number of rows
    in that state, the five counts add up to the total it prints, and the
    total is the number of jobs in the table. *)
Theorem get_stats_spec (db : DB) :
  (forall k n, JobStorage.get_stats db !! k = Some n ->
     (0 < n)%nat /\ exists s, k = JobStorage.state_text s) /\
  (forall s, cli.status_count s db = JobStorage.count_in_state s (JobStorage.rows db)) /\
  (forall s, JobStorage.get_stats db !! JobStorage.state_text s = None <->
             forall k row, db !! k = Some row -> Job.state row <> s) /\
  cli.status_total db = size db /\
  (cli.status_count pending db + cli.status_count processing db
   + cli.status_count completed db + cli.status_count failed db
   + cli.status_count dead db)%nat = cli.status_total db.
Proof.
  assert (Hcount : forall s, cli.status_count s db = JobStorage.count_in_state s (JobStorage.rows db))
    by (intros s; apply stats_lookup).
  assert (Htotal : cli.status_total db = length (JobStorage.rows db))
    by apply sum_counts_foldr.
  split_and!.
  - apply stats_keys.
  - done.
  - intros s. split.
    + intros Hnone k row Hrow Hst.
      assert (Hin : row ∈ filter (fun row => Job.state row = s) (JobStorage.rows db)).
      { apply list_elem_of_filter. split; [done|]. apply elem_of_rows. by exists k. }
      specialize (Hcount s). unfold cli.status_count in Hcount.
      rewrite Hnone in Hcount. simpl in Hcount. unfold JobStorage.count_in_state in Hcount.
      destruct (filter _ (JobStorage.rows db)); [by apply elem_of_nil in Hin|done].
    + intros Hnot. destruct (JobStorage.get_stats db !! _) as [n|] eqn:Hk; [|done].
      apply stats_keys in Hk as Hpos. destruct Hpos as [Hpos _].
      specialize (Hcount s). unfold cli.status_count in Hcount.
      rewrite Hk in Hcount. simpl in Hcount. unfold JobStorage.count_in_state in Hcount.
      destruct (filter _ (JobStorage.rows db)) as [|row rest] eqn:Hf; [simpl in *; lia|].
      assert (Hin : row ∈ filter (fun row => Job.state row = s) (JobStorage.rows db))
        by (rewrite Hf; apply list_elem_of_here).
      apply list_elem_of_filter in Hin as [Hst [k' Hrow]%elem_of_rows].
      by destruct (Hnot k' row Hrow).
  - rewrite Htotal. unfold JobStorage.rows. by rewrite length_fmap, length_map_to_list.
  - rewrite !Hcount, Htotal. apply count_in_state_total.
Qed.

(** ** Enqueueing *)




(** ** Configuration *)

Lemma load_config_lookup (config_dir key : string) (f : config.config_file) :
  config.load_config config_dir f !! key =
    match f with
    | config.Contents user_config =>
        match user_config !! key with
        | Some v => Some v
        | None => config.DEFAULT_CONFIG config_dir !! key
        end
    | _ => config.DEFAULT_CONFIG config_dir !! key
    end.
Proof.
  destruct f as [| |user_config]; simpl; [done..|].
  destruct (user_config !! key) as [v|] eqn:Hkey.
  - by apply lookup_union_Some_l.
  - by apply lookup_union_r.
Qed.

(** X7. [get_config] returns the value the file gives to the key; when the
    file is missing, unreadable or silent about the key, it returns the
    built-in default for [max_retries] (3), [backoff_base] (2), [db_path]
    and [worker_pid_file], and the caller's [default] only for any other
    key. After [set_config key v] the key reads [v] and every other key
    reads as before. *)
Theorem get_config_spec (config_dir key : string) (default : config.value)
    (f : config.config_file) :
  (forall user_config v, f = config.Contents user_config -> user_config !! key = Some v ->
     config.get_config config_dir key default f = v) /\
  ((forall user_config, f = config.Contents user_config -> user_config !! key = None) ->
   config.get_config config_dir key default f =
     if decide (key = "max_retries"%string) then config.VInt 3
     else if decide (key = "backoff_base"%string) then config.VInt 2
     else if decide (key = "db_path"%string)
          then config.VStr (config_dir +:+ "/jobs.db")
     else if decide (key = "worker_pid_file"%string)
          then config.VStr (config_dir +:+ "/workers.pid")
     else default) /\
  (forall v, config.get_config config_dir key default
               (config.set_config config_dir key v f) = v) /\
  (forall other v, other <> key ->
     config.get_config config_dir key default (config.set_config config_dir other v f)
     = config.get_config config_dir key default f).
Proof.
  unfold config.get_config. split_and!.
  - intros user_config v -> Hkey. by rewrite load_config_lookup, Hkey.
  - intros Hsilent. rewrite load_config_lookup.
    assert (Hdefault : config.DEFAULT_CONFIG config_dir !! key =
              if decide (key = "max_retries"%string) then Some (config.VInt 3)
              else if decide (key = "backoff_base"%string) then Some (config.VInt 2)
              else if decide (key = "db_path"%string)
                   then Some (config.VStr (config_dir +:+ "/jobs.db"))
              else if decide (key = "worker_pid_file"%string)
                   then Some (config.VStr (config_dir +:+ "/workers.pid"))
              else None).
    { unfold config.DEFAULT_CONFIG.
      repeat (case_decide; [subst key; by simplify_map_eq|]).
      by simplify_map_eq. }
    destruct f as [| |user_config]; [| |rewrite (Hsilent user_config eq_refl)];
      rewrite Hdefault; by repeat case_decide.
  - intros v. unfold config.set_config, config.save_config.
    rewrite load_config_lookup. by rewrite lookup_insert_eq.
  - intros other v Hne. unfold config.set_config, config.save_config.
    rewrite (load_config_lookup _ _ (config.Contents _)).
    rewrite lookup_insert_ne by done.
    destruct (config.load_config config_dir f !! key) eqn:Hkey; [done|].
    rewrite load_config_lookup in Hkey.
    destruct f as [| |user_config]; [by rewrite Hkey..|].
    destruct (user_config !! key); [done|]. by rewrite Hkey.
Qed.

Lemma get_config_spec_witness :
  config.get_config "/home/u/.queuectl" "backoff_base" (config.VInt 7) config.Unreadable
  = config.VInt 2.
Proof.
  apply (proj1 (proj2 (get_config_spec "/home/u/.queuectl" "backoff_base" (config.VInt 7)
                         config.Unreadable))).
  by intros user_config.
Defined.

(** ** Counting live workers *)

Lemma count_active_ok (kill0 : Z -> WorkerManager.probe) (pids : list Z) (active : nat) :
  Forall (fun pid => kill0 pid <> WorkerManager.ProbeError) pids ->
  WorkerManager.count_active kill0 pids active =
    Some (active + length (filter (fun pid => kill0 pid = WorkerManager.Alive) pids))%nat.
Proof.
  intros Hok. revert active. induction Hok as [|pid pids Hpid _ IH]; intros active; simpl.
  - f_equal. lia.
  - rewrite filter_cons. destruct (kill0 pid) eqn:Hk; [| |done].
    + rewrite decide_True by done. rewrite IH. simpl. f_equal. lia.
    + rewrite decide_False by done. apply IH.
Qed.

Lemma count_active_error (kill0 : Z -> WorkerManager.probe) (pids : list Z) (active : nat) :
  Exists (fun pid => kill0 pid = WorkerManager.ProbeError) pids ->
  WorkerManager.count_active kill0 pids active = None.
Proof.
  intros Herr. revert active. induction Herr as [pid pids Hpid|pid pids _ IH];
    intros active; simpl.
  - by rewrite Hpid.
  - by destruct (kill0 pid).
Qed.

(** X8. [get_active_workers] is 0 without a readable PID file. With one, it
    is the number of recorded pids whose probe finds a process, provided
    every probe either succeeds or reports that there is no such process; it
    never exceeds the number of recorded pids. As soon as one probe fails in
    another way the result is 0, however many workers are alive. *)
Theorem get_active_workers_spec (kill0 : Z -> WorkerManager.probe) (pids : list Z) :
  WorkerManager.get_active_workers kill0 WorkerManager.NoPidFile = 0%nat /\
  WorkerManager.get_active_workers kill0 WorkerManager.BadPidFile = 0%nat /\
  (WorkerManager.get_active_workers kill0 (WorkerManager.PidFile pids) <= length pids)%nat /\
  (Forall (fun pid => kill0 pid <> WorkerManager.ProbeError) pids ->
   WorkerManager.get_active_workers kill0 (WorkerManager.PidFile pids)
   = length (filter (fun pid => kill0 pid = WorkerManager.Alive) pids)) /\
  (Exists (fun pid => kill0 pid = WorkerManager.ProbeError) pids ->
   WorkerManager.get_active_workers kill0 (WorkerManager.PidFile pids) = 0%nat).
Proof.
  assert (Hok : Forall (fun pid => kill0 pid <> WorkerManager.ProbeError) pids ->
                WorkerManager.get_active_workers kill0 (WorkerManager.PidFile pids)
                = length (filter (fun pid => kill0 pid = WorkerManager.Alive) pids)).
  { intros Hall. simpl. by rewrite count_active_ok. }
  assert (Herr : Exists (fun pid => kill0 pid = WorkerManager.ProbeError) pids ->
                 WorkerManager.get_active_workers kill0 (WorkerManager.PidFile pids) = 0%nat).
  { intros Hex. simpl. by rewrite count_active_error. }
  split_and!; [done|done| |done|done].
  destruct (decide (Forall (fun pid => kill0 pid <> WorkerManager.ProbeError) pids))
    as [Hall|Hnot].
  - rewrite Hok by done. apply length_filter.
  - rewrite Herr; [lia|]. apply not_Forall_Exists in Hnot; [|apply _].
    eapply Exists_impl; [done|]. simpl. intros pid Hpid.
    destruct (decide (kill0 pid = WorkerManager.ProbeError)); [done|by destruct Hpid].
Qed.

Lemma get_active_workers_spec_witness :
  let kill0 := fun pid : Z =>
    if pid =? 4001 then WorkerManager.Alive
    else if pid =? 4002 then WorkerManager.ProbeError
    else WorkerManager.NoSuchProcess in
  WorkerManager.get_active_workers kill0 (WorkerManager.PidFile [4001; 4002; 4003]) = 0%nat.
Proof.
  apply (proj2 (proj2 (proj2 (proj2 (get_active_workers_spec _ [4001; 4002; 4003]))))).
  apply Exists_cons_tl, Exists_cons_hd. reflexivity.
Defined.

(** ** What [execute] reports *)

Lemma truthy_spec (timeout : option Z) :
  Job.truthy timeout = true <-> exists t, timeout = Some t /\ t <> 0.
Proof.
  destruct timeout as [t|]; simpl.
  - destruct (Z.eqb_spec t 0); split; try done.
    + by intros (t' & [= <-] & Hne).
    + intros _. by exists t.
  - split; [done|]. by intros (t & ? & _).
Qed.

Lemma failure_message_spec (rc : Z) (out err : string) :
  Job.failure_message rc out err <> ""%string /\
  (err <> ""%string -> Job.failure_message rc out err = err) /\
  (err = ""%string -> out <> ""%string -> Job.failure_message rc out err = out) /\
  (err = ""%string -> out = ""%string ->
   Job.failure_message rc out err = "Command failed with exit code " +:+ pretty rc).
Proof.
  unfold Job.failure_message.
  destruct (String.eqb_spec err "") as [->|Herr]; simpl.
  - destruct (String.eqb_spec out "") as [->|Hout]; simpl; by split_and!.
  - by split_and!.
Qed.

Lemma execute_exits_in_time (j : Job.t) (timeout : option Z)
    (elapsed rc : Z) (out err : output) :
  (forall t, timeout = Some t -> t <> 0 -> elapsed <= t) ->
  Job.execute j timeout (Exits elapsed rc out err) =
    Some match out, err with
         | Text o, Text e =>
             if rc =? 0 then (true, None)
             else (false, Some (Job.failure_message rc o e))
         | Undecodable m, _ => (false, Some m)
         | Text _, Undecodable m => (false, Some m)
         end.
Proof.
  intros Hin. unfold Job.execute, Job.execute_path.
  destruct (Job.truthy timeout) eqn:Htruthy; simpl.
  - apply truthy_spec in Htruthy as (t & -> & Ht). simpl.
    destruct (Z.ltb_spec t elapsed) as [Hlate|_].
    + specialize (Hin t eq_refl Ht). lia.
    + destruct out as [o|m], err as [e|m']; simpl; try done. by destruct (rc =? 0).
  - destruct out as [o|m], err as [e|m']; simpl; try done. by destruct (rc =? 0).
Qed.

Lemma execute_exits_late (j : Job.t) (t elapsed rc : Z) (out err : output) :
  t <> 0 -> t < elapsed ->
  exists m, Job.execute j (Some t) (Exits elapsed rc out err) = Some (false, Some m).
Proof.
  intros Ht Hlate. unfold Job.execute, Job.execute_path, Job.truthy.
  destruct (Z.eqb_spec t 0); [done|]. simpl.
  destruct (Z.ltb_spec t elapsed); [|lia]. simpl. by eexists.
Qed.

Lemma execute_hangs (j : Job.t) (timeout : option Z) :
  (Job.truthy timeout = false /\ Job.execute j timeout Hangs = None) \/
  (Job.truthy timeout = true /\
   exists m, Job.execute j timeout Hangs = Some (false, Some m)).
Proof.
  unfold Job.execute, Job.execute_path.
  destruct (Job.truthy timeout) eqn:Htruthy; simpl.
  - right. split; [done|]. apply truthy_spec in Htruthy as (t & -> & _). simpl.
    by eexists.
  - by left.
Qed.

Lemma execute_spawn (j : Job.t) (timeout : option Z) (p : process) :
  p = SpawnNotFound \/ (exists msg, p = SpawnFails msg) ->
  exists m, Job.execute j timeout p = Some (false, Some m).
Proof.
  unfold Job.execute, Job.execute_path.
  intros [->|[msg ->]]; destruct (Job.truthy timeout); simpl; by eexists.
Qed.

Lemma truthy_false (timeout : option Z) :
  Job.truthy timeout = false <-> timeout = None \/ timeout = Some 0.
Proof.
  destruct timeout as [t|]; simpl.
  - destruct (Z.eqb_spec t 0) as [->|Hne]; simpl.
    + split; [by right|done].
    + split; [done|]. intros [?|[= ?]]; done.
  - split; [by left|done].
Qed.

(** X9. [execute] reports success exactly when the process exits with code
    0 (within the timeout, if a non-zero one is given) and both its output
    streams decode as text, and then without a message. Every failure it
    reports carries a message. For a non-zero exit code with decodable
    output the message is never empty: it is the standard error if that is
    not empty, else the standard output if that is not empty, else "Command
    failed with exit code N". When a stream does not decode, the call
    reports a failure whatever the exit code, with the decoder's message
    (that of the standard output first). The call fails to return only for
    a process that never terminates, run with no timeout or with
    timeout 0. *)
Theorem execute_spec (j : Job.t) (timeout : option Z) (p : process) :
  let in_time elapsed := forall t, timeout = Some t -> t <> 0 -> elapsed <= t in
  (forall msg, Job.execute j timeout p = Some (true, msg) <->
     msg = None /\
     exists elapsed out err, p = Exits elapsed 0 (Text out) (Text err) /\ in_time elapsed) /\
  (forall msg, Job.execute j timeout p = Some (false, msg) -> exists m, msg = Some m) /\
  (forall elapsed rc out err,
     p = Exits elapsed rc (Text out) (Text err) -> rc <> 0 -> in_time elapsed ->
     Job.execute j timeout p = Some (false, Some (Job.failure_message rc out err)) /\
     Job.failure_message rc out err <> ""%string /\
     (err <> ""%string -> Job.failure_message rc out err = err) /\
     (err = ""%string -> out <> ""%string -> Job.failure_message rc out err = out)) /\
  (forall elapsed rc m err,
     p = Exits elapsed rc (Undecodable m) err -> in_time elapsed ->
     Job.execute j timeout p = Some (false, Some m)) /\
  (forall elapsed rc out m,
     p = Exits elapsed rc (Text out) (Undecodable m) -> in_time elapsed ->
     Job.execute j timeout p = Some (false, Some m)) /\
  (Job.execute j timeout p = None <->
     p = Hangs /\ (timeout = None \/ timeout = Some 0)).
Proof.
  cbv zeta.
  (* what [execute] returns, by the behaviour of the process *)
  assert (Hcases :
    (exists elapsed out err, p = Exits elapsed 0 (Text out) (Text err) /\
       (forall t, timeout = Some t -> t <> 0 -> elapsed <= t) /\
       Job.execute j timeout p = Some (true, None)) \/
    ((forall elapsed out err, p = Exits elapsed 0 (Text out) (Text err) ->
        ~ (forall t, timeout = Some t -> t <> 0 -> elapsed <= t)) /\
     exists m, Job.execute j timeout p = Some (false, Some m)) \/
    (p = Hangs /\ (timeout = None \/ timeout = Some 0) /\
     Job.execute j timeout p = None)).
  { destruct p as [elapsed rc out err| | |].
    - assert (Hdec : (forall t, timeout = Some t -> t <> 0 -> elapsed <= t) \/
                     (exists t, timeout = Some t /\ t <> 0 /\ t < elapsed)).
      { destruct timeout as [t|]; [|by left].
        destruct (decide (t = 0)) as [->|Ht]; [left; by intros t [= <-]|].
        destruct (Z.lt_ge_cases t elapsed) as [Hlt|Hge].
        - right. by exists t.
        - left. intros t' [= <-] _. lia. }
      destruct Hdec as [Hin|(t & -> & Ht & Hlate)].
      + rewrite (execute_exits_in_time j timeout elapsed rc out err Hin).
        destruct out as [o|m], err as [r|m'].
        * destruct (Z.eqb_spec rc 0) as [->|Hrc].
          -- left. by exists elapsed, o, r.
          -- right. left. split; [|by eexists]. by intros e o' r' [= _ Hzero _ _].
        * right. left. split; [done|by eexists].
        * right. left. split; [done|by eexists].
        * right. left. split; [done|by eexists].
      + right. left. split; [|by apply execute_exits_late].
        intros e o r [= <- _ _ _] Hin. specialize (Hin t eq_refl Ht). lia.
    - destruct (execute_hangs j timeout) as [[Hf Hex]|[_ Hex]].
      + right. right. by split; [|split; [apply truthy_false|]].
      + right. left. by split.
    - right. left. split; [done|]. apply execute_spawn. by left.
    - right. left. split; [done|]. apply execute_spawn. right. by eexists. }
  split_and!.
  - intros msg. split.
    + intros Hex. destruct Hcases as [(e & o & r & -> & Hin & Hok)|[[_ [m Hm]]|(_ & _ & Hn)]].
      * rewrite Hok in Hex. injection Hex as <-. split; [done|]. by exists e, o, r.
      * by rewrite Hm in Hex.
      * by rewrite Hn in Hex.
    + intros (-> & e & o & r & -> & Hin).
      by rewrite (execute_exits_in_time j timeout e 0 (Text o) (Text r) Hin).
  - intros msg Hex. destruct Hcases as [(e & o & r & _ & _ & Hok)|[[_ [m Hm]]|(_ & _ & Hn)]].
    + by rewrite Hok in Hex.
    + rewrite Hm in Hex. injection Hex as <-. by eexists.
    + by rewrite Hn in Hex.
  - intros elapsed rc out err -> Hrc Hin.
    rewrite (execute_exits_in_time j timeout elapsed rc (Text out) (Text err) Hin).
    destruct (Z.eqb_spec rc 0); [done|].
    destruct (failure_message_spec rc out err) as (? & ? & ? & _). by split_and!.
  - intros elapsed rc m err -> Hin.
    by rewrite (execute_exits_in_time j timeout elapsed rc (Undecodable m) err Hin).
  - intros elapsed rc out m -> Hin.
    by rewrite (execute_exits_in_time j timeout elapsed rc (Text out) (Undecodable m) Hin).
  - split.
    + intros Hex. destruct Hcases as [(e & o & r & _ & _ & Hok)|[[_ [m Hm]]|(? & ? & _)]].
      * by rewrite Hok in Hex.
      * by rewrite Hm in Hex.
      * done.
    + intros [-> Hnone]. destruct (execute_hangs j timeout) as [[_ Hex]|[Ht _]]; [done|].
      apply truthy_false in Hnone. by rewrite Hnone in Ht.
Qed.

Lemma execute_spec_witness :
  Job.execute validate.test4 (Some 30) (Exits 2 1 (Text "partial output") (Text ""))
  = Some (false, Some (Job.failure_message 1 "partial output" "")) /\
  Job.failure_message 1 "partial output" "" = "partial output"%string.
Proof.
  destruct (execute_spec validate.test4 (Some 30)
              (Exits 2 1 (Text "partial output") (Text "")))
    as (_ & _ & Hfail & _).
  destruct (Hfail 2 1 "partial output"%string ""%string eq_refl ltac:(done)
              ltac:(intros t [= <-] _; done)) as (Hex & _ & _ & Hout).
  split; [done|]. by apply Hout.
Defined.

(** ** Failing again and again *)

Lemma mark_failed_retry (msg : option string) (backoff_base now : Z) (j : Job.t) :
  Job.attempts j + 1 < Job.max_retries j ->
  datetime.valid (now + backoff_base ^ (Job.attempts j + 1) * datetime.us_per_second) = true ->
  exists j', Job.mark_failed msg backoff_base now j = Ok j' /\
    Job.state j' = failed /\ Job.attempts j' = Job.attempts j + 1 /\
    Job.max_retries j' = Job.max_retries j /\ Job.error_message j' = msg.
Proof.
  intros Hretry Hvalid.
  unfold Job.mark_failed, Job.mark_for_retry, Job.should_retry,
    Job.calculate_next_retry, datetime.add_seconds. simpl.
  destruct (Z.ltb_spec (Job.attempts j + 1) (Job.max_retries j)); [|lia].
  rewrite Hvalid. by eexists.
Qed.

Lemma mark_failed_dead (msg : option string) (backoff_base now : Z) (j : Job.t) :
  Job.max_retries j <= Job.attempts j + 1 ->
  exists j', Job.mark_failed msg backoff_base now j = Ok j' /\
    Job.state j' = dead /\ Job.attempts j' = Job.attempts j + 1 /\
    Job.next_retry_at j' = None /\ Job.error_message j' = msg.
Proof.
  intros Hlast. unfold Job.mark_failed, Job.mark_for_retry, Job.should_retry. simpl.
  destruct (Z.ltb_spec (Job.attempts j + 1) (Job.max_retries j)); [lia|].
  by eexists.
Qed.

Lemma fail_repeatedly_app (backoff_base : Z) (l1 l2 : list (option string * Z))
    (j j1 : Job.t) :
  Job.fail_repeatedly backoff_base l1 j = Ok j1 ->
  Job.fail_repeatedly backoff_base (l1 ++ l2) j = Job.fail_repeatedly backoff_base l2 j1.
Proof.
  revert j. induction l1 as [|[msg now] l1 IH]; simpl; intros j.
  - by intros [= ->].
  - destruct (Job.mark_failed msg backoff_base now j); [apply IH|done].
Qed.

Lemma fail_repeatedly_retrying (backoff_base : Z) (failures : list (option string * Z))
    (j : Job.t) :
  0 <= Job.attempts j ->
  Job.attempts j + Z.of_nat (length failures) < Job.max_retries j ->
  Forall (fun f => forall a, 0 < a < Job.max_retries j ->
            datetime.valid (f.2 + backoff_base ^ a * datetime.us_per_second) = true)
         failures ->
  exists j', Job.fail_repeatedly backoff_base failures j = Ok j' /\
    Job.attempts j' = Job.attempts j + Z.of_nat (length failures) /\
    Job.max_retries j' = Job.max_retries j /\
    (failures <> [] -> Job.state j' = failed).
Proof.
  intros Hnonneg Hbelow Hvalid. revert j Hnonneg Hbelow Hvalid.
  induction failures as [|[msg now] failures IH]; intros j Hnonneg Hbelow Hvalid.
  - exists j. simpl. split_and!; [done|lia|done|done].
  - simpl in Hbelow |- *. apply Forall_cons in Hvalid as [Hnow Hrest].
    destruct (mark_failed_retry msg backoff_base now j) as (j1 & -> & Hst & Hatt & Hmax & _).
    + lia.
    + apply Hnow. lia.
    + destruct (IH j1) as (j' & Hj' & Hatt' & Hmax' & Hst').
      * lia.
      * lia.
      * by rewrite Hmax.
      * exists j'. split_and!; [done|lia|congruence|].
        intros _. destruct failures as [|f failures]; [|by apply Hst'].
        simpl in Hj'. by injection Hj' as <-.
Qed.

(** X10. A fresh job ([attempts = 0]) that fails every time it is executed:
    as long as the number of failures stays below [max_retries] it is
    [failed] and [attempts] equals the number of failures; the failure that
    makes the count reach [max_retries] leaves it [dead], and with
    [max_retries] of 1 or less (0 and negative values included) the very
    first failure does. No failure is lost or counted twice, provided each
    retry date is representable. *)
Theorem repeated_failures (backoff_base : Z) (failures : list (option string * Z))
    (j : Job.t) :
  Job.attempts j = 0 ->
  Forall (fun f => forall a, 0 < a < Job.max_retries j ->
            datetime.valid (f.2 + backoff_base ^ a * datetime.us_per_second) = true)
         failures ->
  let n := Z.of_nat (length failures) in
  (0 < n < Job.max_retries j ->
   exists j', Job.fail_repeatedly backoff_base failures j = Ok j' /\
     Job.state j' = failed /\ Job.attempts j' = n) /\
  (n = Z.max (Job.max_retries j) 1 ->
   exists j', Job.fail_repeatedly backoff_base failures j = Ok j' /\
     Job.state j' = dead /\ Job.attempts j' = n /\ Job.next_retry_at j' = None).
Proof.
  intros Hfresh Hvalid. cbv zeta. split.
  - intros Hn.
    destruct (fail_repeatedly_retrying backoff_base failures j)
      as (j' & Hj' & Hatt & _ & Hst); [lia|lia|done|].
    exists j'. split_and!; [done| |lia].
    apply Hst. intros ->. simpl in Hn. lia.
  - intros Hn.
    destruct (decide (failures = [])) as [->|Hne]; [simpl in Hn; lia|].
    destruct (exists_last Hne) as (init & [msg now] & ->).
    rewrite length_app in Hn. simpl in Hn.
    apply Forall_app in Hvalid as [Hinit _].
    assert (exists j1, Job.fail_repeatedly backoff_base init j = Ok j1 /\
              Job.attempts j1 = Job.attempts j + Z.of_nat (length init) /\
              Job.max_retries j1 = Job.max_retries j) as (j1 & Hj1 & Hatt & Hmax).
    { destruct init as [|f init]; [exists j; simpl; split_and!; [done|lia|done]|].
      destruct (fail_repeatedly_retrying backoff_base (f :: init) j)
        as (j1 & Hj1 & Hatt & Hmax & _); [lia|simpl in *; lia|done|].
      by exists j1. }
    rewrite (fail_repeatedly_app _ _ _ _ _ Hj1). simpl.
    destruct (mark_failed_dead msg backoff_base now j1) as (j' & -> & Hst & Hatt' & Hnra & _);
      [lia|].
    exists j'. rewrite length_app. simpl. split_and!; [done|done|lia|done].
Qed.

Lemma repeated_failures_witness :
  exists j', Job.fail_repeatedly 2
               [(Some "boom"%string, WorkerManager.t_mark validate.pass1)]
               (Job.mk "t0" "exit 1" pending 0 0 None
                       "2024-05-01T00:00:00.000123Z" "2024-05-01T00:00:00.000123Z"
                       None None) = Ok j' /\
    Job.state j' = dead /\ Job.attempts j' = 1 /\ Job.next_retry_at j' = None.
Proof.
  apply (proj2 (repeated_failures 2
           [(Some "boom"%string, WorkerManager.t_mark validate.pass1)]
           (Job.mk "t0" "exit 1" pending 0 0 None
                   "2024-05-01T00:00:00.000123Z" "2024-05-01T00:00:00.000123Z"
                   None None)
           eq_refl ltac:(constructor; [simpl; intros; lia|constructor]))).
  reflexivity.
Defined.

(** ** Which job a pass works on *)

Lemma head_get_pending_jobs (db : DB) (now : Z) :
  head (JobStorage.get_pending_jobs 1 now db)
  = head (merge_sort JobStorage.created_le
            (JobStorage.ready_rows (datetime.timestamp now) db)).
Proof.
  unfold JobStorage.get_pending_jobs, JobStorage.sql_limit. simpl.
  by destruct (merge_sort _ _).
Qed.

Lemma created_le_refl (row : Job.t) : JobStorage.created_le row row.
Proof. by destruct (total JobStorage.created_le row row). Qed.

Lemma polled_is_first (db : DB) (now : Z) (row : Job.t) :
  head (JobStorage.get_pending_jobs 1 now db) = Some row ->
  row ∈ JobStorage.ready_rows (datetime.timestamp now) db /\
  forall row', row' ∈ JobStorage.ready_rows (datetime.timestamp now) db ->
               JobStorage.created_le row row'.
Proof.
  rewrite head_get_pending_jobs.
  set (ready := JobStorage.ready_rows (datetime.timestamp now) db).
  assert (Hperm : merge_sort JobStorage.created_le ready ≡ₚ ready)
    by apply merge_sort_Permutation.
  assert (Hsorted : StronglySorted JobStorage.created_le
                      (merge_sort JobStorage.created_le ready))
    by apply (StronglySorted_merge_sort _).
  destruct (merge_sort JobStorage.created_le ready) as [|first rest]; [done|].
  intros [= ->]. split.
  - rewrite <- Hperm. apply list_elem_of_here.
  - intros row' Hrow'. rewrite <- Hperm in Hrow'.
    apply elem_of_cons in Hrow' as [->|Hrest]; [apply created_le_refl|].
    apply StronglySorted_inv in Hsorted as [_ Hall].
    by apply (proj1 (Forall_forall _ _) Hall).
Qed.

Lemma polled_none (db : DB) (now : Z) :
  head (JobStorage.get_pending_jobs 1 now db) = None <->
  JobStorage.ready_rows (datetime.timestamp now) db = [].
Proof.
  rewrite head_get_pending_jobs.
  set (ready := JobStorage.ready_rows (datetime.timestamp now) db).
  assert (Hperm : merge_sort JobStorage.created_le ready ≡ₚ ready)
    by apply merge_sort_Permutation.
  split.
  - destruct (merge_sort JobStorage.created_le ready); [|done].
    intros _. by apply Permutation_nil_l in Hperm.
  - intros Hnil. by rewrite Hnil.
Qed.

(** X11. A pass of the worker loop works on the ready row that comes first
    in the order of the [created_at] text: the row it polls is ready (by
    the text comparison of [next_retry_at] with the timestamp of the poll)
    and its [created_at] text is not greater than that of any ready row;
    the pass then either loses the acquisition, leaving the table
    untouched, or processes exactly that row. It idles exactly when no row
    is ready, and then too the table is untouched. *)
Theorem worker_takes_first_ready (backoff_base : Z) (ck : WorkerManager.clock)
    (p : process) (db : DB) :
  let ts := datetime.timestamp (WorkerManager.t_poll ck) in
  let polled := head (JobStorage.get_pending_jobs 1 (WorkerManager.t_poll ck) db) in
  let pass := WorkerManager.worker_iteration backoff_base ck p db in
  (forall row, polled = Some row ->
     row ∈ JobStorage.ready_rows ts db /\
     (forall row', row' ∈ JobStorage.ready_rows ts db -> JobStorage.created_le row row') /\
     (pass = WorkerManager.Continue db (WorkerManager.Lost (Job.id row)) \/
      (JobStorage.acquire_job (Job.id row) (WorkerManager.t_acquire ck) db).2 = true /\
      pass = WorkerManager.process_job backoff_base (WorkerManager.t_mark ck)
               (WorkerManager.t_update ck) p row
               (JobStorage.acquire_job (Job.id row) (WorkerManager.t_acquire ck) db).1)) /\
  (pass = WorkerManager.Continue db WorkerManager.Idle <->
   JobStorage.ready_rows ts db = []) /\
  (forall db' job_id, pass = WorkerManager.Continue db' (WorkerManager.Lost job_id) ->
                      db' = db).
Proof.
  cbv zeta. split_and!.
  - intros row Hpoll. destruct (polled_is_first db _ row Hpoll) as [Hready Holdest].
    split_and!; [done..|]. unfold WorkerManager.worker_iteration.
    destruct (JobStorage.get_pending_jobs 1 _ db) as [|job_data rest]; [done|].
    injection Hpoll as ->.
    destruct (JobStorage.acquire_job (Job.id row) _ db) as [db1 []] eqn:Hacq.
    + by right.
    + left. unfold JobStorage.acquire_job in Hacq.
      destruct (db !! Job.id row) as [r|]; [|by injection Hacq as <-].
      destruct (JobStorage.ready _ r); [done|]. by injection Hacq as <-.
  - rewrite <- polled_none. unfold WorkerManager.worker_iteration.
    destruct (JobStorage.get_pending_jobs 1 _ db) as [|job_data rest]; [done|].
    simpl. split; [|done].
    destruct (JobStorage.acquire_job _ _ db) as [db1 []]; [|done].
    unfold WorkerManager.process_job.
    destruct (Job.execute job_data None p) as [[[] msg]|]; [| |done].
    + by destruct (JobStorage.update_job _ _ _ _) as [[]|].
    + destruct (Job.mark_failed _ _ _ _); [|done].
      destruct (JobStorage.update_job _ _ _ _) as [[]|]; [|done].
      by case_decide.
  - intros db' job_id. unfold WorkerManager.worker_iteration.
    destruct (JobStorage.get_pending_jobs 1 _ db) as [|job_data rest]; [done|].
    destruct (JobStorage.acquire_job (Job.id job_data) _ db) as [db1 []] eqn:Hacq.
    + unfold WorkerManager.process_job.
      destruct (Job.execute job_data None p) as [[[] msg]|]; [| |done].
      * by destruct (JobStorage.update_job _ _ _ _) as [[]|].
      * destruct (Job.mark_failed _ _ _ _); [|done].
        destruct (JobStorage.update_job _ _ _ _) as [[]|]; [|done].
        by case_decide.
    + intros [= <- _]. unfold JobStorage.acquire_job in Hacq.
      destruct (db !! Job.id job_data) as [r|]; [|by injection Hacq as <-].
      destruct (JobStorage.ready _ r); [done|]. by injection Hacq as <-.
Qed.

(** ** Jobs left in [processing] *)

Lemma step_keeps_orphan (a : Pool.action) (sys sys' : Pool.system)
    (k : string) (row : Job.t) :
  Pool.db sys !! k = Some row ->
  Job.state row = processing ->
  (forall w, ~ Pool.executing sys w k) ->
  Pool.step a sys = Some sys' ->
  Pool.db sys' !! k = Some row /\ forall w, ~ Pool.executing sys' w k.
Proof.
  intros Hrow Hproc Hnone Hstep.
  assert (Hworkers : forall ws : gmap nat Pool.worker_state,
            (forall w jd, ws !! w = Some (Pool.Running jd) ->
                          Pool.workers sys !! w = Some (Pool.Running jd) \/ Job.id jd <> k) ->
            forall w, ~ Pool.executing {| Pool.db := Pool.db sys'; Pool.workers := ws |} w k).
  { intros ws Hws w (jd & Hw & Hid). simpl in Hw.
    destruct (Hws w jd Hw) as [Hold|Hne]; [|done].
    apply (Hnone w). by exists jd. }
  destruct a as [w|w|w now|w now|w b tm tu p|job_id' command mr now|job_id' now];
    cbn [Pool.step] in Hstep.
  - destruct (Pool.workers sys !! w) eqn:Hw; [done|]. injection Hstep as <-.
    split; [done|]. apply Hworkers. intros w' jd.
    rewrite lookup_insert_Some. intros [[_ ?]|[_ ?]]; [done|by left].
  - destruct (Pool.workers sys !! w) eqn:Hw; [|done]. injection Hstep as <-.
    split; [done|]. apply Hworkers. intros w' jd.
    rewrite lookup_delete_Some. intros [_ ?]. by left.
  - destruct (Pool.workers sys !! w) as [[| |]|] eqn:Hw; try done.
    destruct (JobStorage.get_pending_jobs 1 now (Pool.db sys)) as [|jd rest];
      injection Hstep as <-; [done|].
    split; [done|]. apply Hworkers. intros w' jd'.
    rewrite lookup_insert_Some. intros [[_ ?]|[_ ?]]; [done|by left].
  - destruct (Pool.workers sys !! w) as [[|jd|]|] eqn:Hw; try done.
    destruct (decide (Job.id jd = k)) as [Hid|Hne].
    + rewrite acquire_job_failure in Hstep.
      * injection Hstep as <-. split; [done|]. apply Hworkers. intros w' jd'.
        rewrite lookup_insert_Some. intros [[_ ?]|[_ ?]]; [done|by left].
      * intros row'. rewrite Hid, Hrow. intros [= <-].
        apply not_true_is_false. intros Hready.
        by apply ready_not_processing in Hready.
    + assert (Hkeep : (JobStorage.acquire_job (Job.id jd) now (Pool.db sys)).1 !! k
                      = Some row) by (by rewrite acquire_job_other).
      destruct (JobStorage.acquire_job _ _ _) as [db' []]; injection Hstep as <-.
      * split; [done|]. apply Hworkers. intros w' jd'.
        rewrite lookup_insert_Some. intros [[_ [= <-]]|[_ ?]]; [by right|by left].
      * split; [done|]. apply Hworkers. intros w' jd'.
        rewrite lookup_insert_Some. intros [[_ ?]|[_ ?]]; [done|by left].
  - destruct (Pool.workers sys !! w) as [[| |jd]|] eqn:Hw; try done.
    destruct (WorkerManager.process_job b tm tu p jd (Pool.db sys)) as [db' ev|] eqn:Hp;
      [|done].
    injection Hstep as <-.
    assert (Hne : Job.id jd <> k).
    { intros Hid. apply (Hnone w). by exists jd. }
    split.
    + simpl. apply process_job_effect in Hp as [->|(job' & _ & -> & _)]; [done|].
      by rewrite lookup_insert_ne.
    + apply Hworkers. intros w' jd'.
      rewrite lookup_insert_Some. intros [[_ ?]|[_ ?]]; [done|by left].
  - destruct (JobStorage.create_job job_id' command mr now (Pool.db sys))
      as [[db' ret]|] eqn:Hcreate; injection Hstep as <-; [|done].
    apply create_job_inv in Hcreate as (Hfresh & -> & _). split.
    + simpl. rewrite lookup_insert_ne; [done|]. intros ->. by rewrite Hfresh in Hrow.
    + apply Hworkers. intros w' jd' ?. by left.
  - injection Hstep as <-. split.
    + destruct (decide (job_id' = k)) as [->|Hne].
      * simpl. rewrite Hrow. rewrite decide_False; [done|]. by rewrite Hproc.
      * rewrite <- Hrow.
        by apply (reset_job_for_retry_other (Pool.db sys) job_id' k now).
    + apply Hworkers. intros w' jd' ?. by left.
Qed.

Lemma run_keeps_orphan (acts : list Pool.action) (sys sys' : Pool.system)
    (k : string) (row : Job.t) :
  Pool.db sys !! k = Some row ->
  Job.state row = processing ->
  (forall w, ~ Pool.executing sys w k) ->
  Pool.run acts sys = Some sys' ->
  Pool.db sys' !! k = Some row /\ forall w, ~ Pool.executing sys' w k.
Proof.
  revert sys. induction acts as [|a acts IH]; simpl; intros sys Hrow Hproc Hnone Hrun.
  - by injection Hrun as <-.
  - destruct (Pool.step a sys) as [sys1|] eqn:Hstep; [|done].
    destruct (step_keeps_orphan a sys sys1 k row) as [Hrow1 Hnone1]; [done..|].
    by apply (IH sys1).
Qed.

(** X12. When a worker process ends while it is executing a job, the job's
    row stays [processing], unchanged, whatever happens afterwards: no poll
    returns it, no acquisition takes it, and neither an enqueue nor a
    dead-letter reset touches it. Nothing in the code takes a job back from
    a worker that is gone. *)
Theorem abandoned_job_stays_processing (sys sys1 sys2 : Pool.system) (w : nat)
    (job_id : string) (acts : list Pool.action) :
  Pool.reachable sys ->
  Pool.executing sys w job_id ->
  Pool.step (Pool.Exit w) sys = Some sys1 ->
  Pool.run acts sys1 = Some sys2 ->
  exists row,
    Pool.db sys !! job_id = Some row /\ Job.state row = processing /\
    Pool.db sys2 !! job_id = Some row /\
    (forall w', ~ Pool.executing sys2 w' job_id) /\
    (forall now, row ∉ JobStorage.get_pending_jobs 1 now (Pool.db sys2)).
Proof.
  intros Hreach Hexec Hexit Hrun.
  apply reachable_invariant in Hreach as Hinv.
  destruct Hexec as (jd & Hw & Hid).
  destruct (Pool.inv_running sys Hinv w jd Hw) as (row & Hrow & Hproc).
  rewrite Hid in Hrow.
  assert (Hnone1 : forall w', ~ Pool.executing sys1 w' job_id).
  { simpl in Hexit. rewrite Hw in Hexit. injection Hexit as <-.
    intros w' (jd' & Hw' & Hid'). simpl in Hw'.
    apply lookup_delete_Some in Hw' as [Hne Hw'].
    apply Hne. apply (Pool.inv_exclusive sys Hinv w w' jd jd'); [done..|].
    by rewrite Hid, Hid'. }
  assert (Hrow1 : Pool.db sys1 !! job_id = Some row).
  { simpl in Hexit. rewrite Hw in Hexit. by injection Hexit as <-. }
  destruct (run_keeps_orphan acts sys1 sys2 job_id row Hrow1 Hproc Hnone1 Hrun)
    as [Hrow2 Hnone2].
  exists row. split_and!; [done..|].
  intros now Hin. apply get_pending_jobs_elem_of, elem_of_ready_rows in Hin as [_ Hready].
  by apply ready_not_processing in Hready.
Qed.

Lemma abandoned_job_stays_processing_witness :
  let row := Job.set_state processing validate.test4 in
  let sys := {| Pool.db := {[ "test4"%string := row ]};
                Pool.workers := {[ 1%nat := Pool.Running validate.test4 ]} |} in
  let sys2 := {| Pool.db := {[ "test4"%string := row ]};
                 Pool.workers := {[ 2%nat := Pool.Polling ]} |} in
  exists row',
    Pool.db sys !! "test4"%string = Some row' /\ Job.state row' = processing /\
    Pool.db sys2 !! "test4"%string = Some row' /\
    (forall w', ~ Pool.executing sys2 w' "test4") /\
    (forall now, row' ∉ JobStorage.get_pending_jobs 1 now (Pool.db sys2)).
Proof.
  apply (abandoned_job_stays_processing
           {| Pool.db := {[ "test4"%string := Job.set_state processing validate.test4 ]};
              Pool.workers := {[ 1%nat := Pool.Running validate.test4 ]} |}
           {| Pool.db := {[ "test4"%string := Job.set_state processing validate.test4 ]};
              Pool.workers := ∅ |}
           {| Pool.db := {[ "test4"%string := Job.set_state processing validate.test4 ]};
              Pool.workers := {[ 2%nat := Pool.Polling ]} |}
           1%nat "test4" validate.after_crash).
  - exists validate.acquired. vm_compute. reflexivity.
  - exists validate.test4. split; reflexivity.
  - vm_compute. reflexivity.
  - vm_compute. reflexivity.
Defined.

(** X13. When the retry date of a failure cannot be represented
    ([backoff_base ** attempts] seconds from now lies beyond
    [datetime.max]), the pass that acquired the job ends with
    [OverflowError] before it writes anything: the job stays [processing]
    with its old [attempts], and is neither retried nor moved to the
    dead-letter queue. *)
Theorem retry_date_overflow (backoff_base : Z) (ck : WorkerManager.clock) (p : process)
    (db : DB) (row : Job.t) (msg : option string) :
  head (JobStorage.get_pending_jobs 1 (WorkerManager.t_poll ck) db) = Some row ->
  db !! Job.id row = Some row ->
  JobStorage.ready (datetime.timestamp (WorkerManager.t_acquire ck)) row = true ->
  Job.execute row None p = Some (false, msg) ->
  Job.attempts row + 1 < Job.max_retries row ->
  datetime.valid (WorkerManager.t_mark ck
                  + backoff_base ^ (Job.attempts row + 1) * datetime.us_per_second) = false ->
  WorkerManager.worker_iteration backoff_base ck p db =
    WorkerManager.Continue (<[Job.id row := Job.set_state processing row]> db)
                           (WorkerManager.Error OverflowError).
Proof.
  intros Hpoll Hrow Hready Hexec Hretry Hinvalid.
  rewrite (worker_iteration_acquired _ _ _ _ row Hpoll Hrow Hready).
  unfold WorkerManager.process_job. rewrite Hexec.
  unfold Job.mark_failed, Job.mark_for_retry, Job.should_retry,
    Job.calculate_next_retry, datetime.add_seconds. simpl.
  destruct (Z.ltb_spec (Job.attempts row + 1) (Job.max_retries row)); [|lia].
  by rewrite Hinvalid.
Qed.

Lemma retry_date_overflow_witness :
  WorkerManager.worker_iteration 1000000000000 validate.pass1 validate.not_found
    {[ "test4"%string := validate.test4 ]}
  = WorkerManager.Continue
      (<["test4"%string := Job.set_state processing validate.test4]>
         {[ "test4"%string := validate.test4 ]})
      (WorkerManager.Error OverflowError).
Proof.
  apply (retry_date_overflow 1000000000000 validate.pass1 validate.not_found
           {[ "test4"%string := validate.test4 ]} validate.test4
           (Some "/bin/sh: 1: nonexistentcommand12345: not found"%string));
    vm_compute; reflexivity.
Defined.

(** ** Back from the dead-letter queue *)

(** X14. After [reset_job_for_retry] on a [dead] job the job can be acquired
    at once, whatever the clock reads: it is [pending] with no retry date, so
    it is among the ready rows and [acquire_job] succeeds, leaving it
    [processing] with [attempts = 0] and its old [max_retries]. *)
Theorem reset_then_acquire (db : DB) (job_id : string) (row : Job.t) (now now' : Z) :
  db !! job_id = Some row ->
  Job.state row = dead ->
  let db1 := (JobStorage.reset_job_for_retry job_id now db).1 in
  exists row1,
    db1 !! job_id = Some row1 /\
    row1 ∈ JobStorage.ready_rows (datetime.timestamp now') db1 /\
    (JobStorage.acquire_job job_id now' db1).2 = true /\
    exists row2,
      (JobStorage.acquire_job job_id now' db1).1 !! job_id = Some row2 /\
      Job.state row2 = processing /\ Job.attempts row2 = 0 /\
      Job.max_retries row2 = Job.max_retries row /\ Job.command row2 = Job.command row.
Proof.
  intros Hrow Hdead. cbv zeta. unfold JobStorage.reset_job_for_retry.
  rewrite Hrow. rewrite decide_True by done. simpl.
  eexists. split; [by rewrite lookup_insert_eq|].
  split; [|split].
  - apply elem_of_ready_rows. split; [exists job_id; by rewrite lookup_insert_eq|].
    by apply ready_pending.
  - erewrite acquire_job_success; [done|by rewrite lookup_insert_eq|by apply ready_pending].
  - erewrite acquire_job_success; [|by rewrite lookup_insert_eq|by apply ready_pending].
    simpl. eexists. by rewrite lookup_insert_eq.
Qed.

Lemma reset_then_acquire_witness :
  let db1 := (JobStorage.reset_job_for_retry "test4" (WorkerManager.t_poll validate.pass3)
                {[ "test4"%string := validate.test4_dead ]}).1 in
  exists row1,
    db1 !! "test4"%string = Some row1 /\
    row1 ∈ JobStorage.ready_rows (datetime.timestamp 0) db1 /\
    (JobStorage.acquire_job "test4" 0 db1).2 = true /\
    exists row2,
      (JobStorage.acquire_job "test4" 0 db1).1 !! "test4"%string = Some row2 /\
      Job.state row2 = processing /\ Job.attempts row2 = 0 /\
      Job.max_retries row2 = Job.max_retries validate.test4_dead /\
      Job.command row2 = Job.command validate.test4_dead.
Proof.
  apply (reset_then_acquire {[ "test4"%string := validate.test4_dead ]} "test4"
           validate.test4_dead (WorkerManager.t_poll validate.pass3) 0);
    reflexivity.
Defined.

(** ** What every reachable state keeps about the rows *)

Lemma same_job_refl (a : Job.t) : Pool.same_job a a.
Proof. by repeat split. Qed.

Lemma same_job_sym (a b : Job.t) : Pool.same_job a b -> Pool.same_job b a.
Proof. intros (? & ? & ? & ?). by repeat split. Qed.

Lemma same_job_trans (a b c : Job.t) :
  Pool.same_job a b -> Pool.same_job b c -> Pool.same_job a c.
Proof.
  intros (? & ? & ? & ?) (? & ? & ? & ?). repeat split; congruence.
Qed.

Lemma mark_failed_fields (msg : option string) (backoff_base now : Z) (job job' : Job.t) :
  Job.mark_failed msg backoff_base now job = Ok job' ->
  Pool.same_job job job' /\
  Job.attempts job' = Job.attempts job + 1 /\
  ((Job.attempts job + 1 < Job.max_retries job /\ Job.state job' = failed) \/
   (Job.max_retries job <= Job.attempts job + 1 /\ Job.state job' = dead)).
Proof.
  unfold Job.mark_failed, Job.mark_for_retry, Job.should_retry. simpl.
  destruct (Z.ltb_spec (Job.attempts job + 1) (Job.max_retries job)).
  - destruct (Job.calculate_next_retry _ _ _) as [t|]; [|done].
    intros [= <-]. simpl. split_and!; [by repeat split|done|by left].
  - intros [= <-]. simpl. split_and!; [by repeat split|done|by right].
Qed.

Lemma held_attempts_cases (jd : Job.t) :
  Job.state jd = pending \/ Job.state jd = failed ->
  Pool.attempts_shape jd ->
  Job.attempts jd = 0 \/ 0 < Job.attempts jd < Job.max_retries jd.
Proof.
  unfold Pool.attempts_shape. intros [->| ->]; [by left|by right].
Qed.

Lemma process_job_effect_held (backoff_base t_mark t_update : Z) (p : process)
    (job_data : Job.t) (db db' : DB) (ev : WorkerManager.event) :
  WorkerManager.process_job backoff_base t_mark t_update p job_data db
    = WorkerManager.Continue db' ev ->
  Job.state job_data = pending \/ Job.state job_data = failed ->
  Pool.attempts_shape job_data ->
  db' = db \/
  exists job', db' = <[Job.id job_data := job']> db /\
    Pool.same_job job_data job' /\ Pool.attempts_shape job'.
Proof.
  intros Hp Hstate Hshape.
  apply held_attempts_cases in Hshape as Hattempts; [|done].
  unfold WorkerManager.process_job in Hp.
  destruct (Job.execute job_data None p) as [[[] msg]|]; [| |done].
  - destruct (db !! Job.id job_data) as [row|] eqn:Hrow.
    + rewrite (update_job_to_dict db (Job.id job_data) (Job.mark_completed t_mark job_data)
                 row t_update eq_refl Hrow) in Hp.
      injection Hp as <- _. right. eexists. split_and!; [done|by repeat split|].
      unfold Pool.attempts_shape. by simpl.
    + rewrite update_job_missing in Hp by done. injection Hp as <- _. by left.
  - destruct (Job.mark_failed msg backoff_base t_mark job_data) as [job'|] eqn:Hmark;
      [|injection Hp as <- _; by left].
    apply mark_failed_fields in Hmark as (Hsame & Hatt & Hbranch).
    destruct (db !! Job.id job_data) as [row|] eqn:Hrow.
    + rewrite (update_job_to_dict db (Job.id job_data) job' row t_update) in Hp;
        [|by destruct Hsame as [-> _]|done].
      injection Hp as <- _. right. eexists. split_and!; [done| |].
      * destruct Hsame as (? & ? & ? & ?). by repeat split.
      * unfold Pool.attempts_shape. simpl.
        assert (Hmax : Job.max_retries job' = Job.max_retries job_data)
          by (by destruct Hsame as (_ & _ & -> & _)).
        destruct Hbranch as [[Hlt ->]|[Hge ->]]; rewrite Hatt, Hmax; lia.
    + rewrite update_job_missing in Hp by done. injection Hp as <- _. by left.
Qed.

Lemma held_invariant_workers (sys sys' : Pool.system) :
  Pool.held_invariant sys ->
  Pool.db sys' = Pool.db sys ->
  (forall jd, Pool.held sys' jd -> Pool.held sys jd) ->
  Pool.held_invariant sys'.
Proof.
  intros [Hrows Hstate Hatt Hsame] Hdb Hsub. split; rewrite ?Hdb; eauto.
Qed.

Lemma held_invariant_write (sys sys' : Pool.system) (k : string) (row' : Job.t) :
  Pool.held_invariant sys ->
  Pool.db sys' = <[k := row']> (Pool.db sys) ->
  Pool.attempts_shape row' ->
  (forall row, Pool.db sys !! k = Some row -> Pool.same_job row row') ->
  (forall jd, Pool.held sys' jd -> Pool.held sys jd) ->
  Pool.held_invariant sys'.
Proof.
  intros [Hrows Hstate Hatt Hsame] Hdb Hshape Hold Hsub. split; rewrite ?Hdb; eauto.
  - intros k' row. rewrite lookup_insert_Some. intros [[<- <-]|[_ Hrow]]; eauto.
  - intros jd Hheld. destruct (Hsame jd (Hsub jd Hheld)) as (row & Hrow & Hsj).
    destruct (decide (k = Job.id jd)) as [->|Hne].
    + exists row'. rewrite lookup_insert_eq. split; [done|].
      by apply (same_job_trans _ row), Hold.
    + exists row. by rewrite lookup_insert_ne.
Qed.

Lemma held_insert (ws : gmap nat Pool.worker_state) (db db' : DB) (w : nat)
    (st : Pool.worker_state) (jd : Job.t) :
  Pool.held {| Pool.db := db'; Pool.workers := <[w := st]> ws |} jd ->
  st = Pool.Candidate jd \/ st = Pool.Running jd \/
  Pool.held {| Pool.db := db; Pool.workers := ws |} jd.
Proof.
  intros [w' Hw']. simpl in Hw'. rewrite !lookup_insert_Some in Hw'.
  destruct Hw' as [[[_ ->]|[_ Hold]]|[[_ ->]|[_ Hold]]]; eauto.
  - right. right. exists w'. by left.
  - right. right. exists w'. by right.
Qed.

Lemma held_same_workers (s1 s2 : Pool.system) (jd : Job.t) :
  Pool.workers s1 = Pool.workers s2 -> Pool.held s1 jd -> Pool.held s2 jd.
Proof. unfold Pool.held. by intros ->. Qed.

Lemma polled_row (db : DB) (now : Z) (jd : Job.t) (rest : list Job.t) :
  JobStorage.get_pending_jobs 1 now db = jd :: rest ->
  (exists k, db !! k = Some jd) /\
  JobStorage.ready (datetime.timestamp now) jd = true.
Proof.
  intros Hpoll. apply elem_of_ready_rows, (get_pending_jobs_elem_of db 1 now).
  rewrite Hpoll. apply list_elem_of_here.
Qed.

Lemma ready_state (now : string) (row : Job.t) :
  JobStorage.ready now row = true ->
  Job.state row = pending \/ Job.state row = failed.
Proof. by intros [? _]%ready_spec. Qed.

Lemma step_held_invariant (a : Pool.action) (sys sys' : Pool.system) :
  Pool.invariant sys -> Pool.held_invariant sys ->
  Pool.step a sys = Some sys' -> Pool.held_invariant sys'.
Proof.
  intros Hinv Hheld Hstep.
  destruct a as [w|w|w now|w now|w b tm tu p|job_id command mr now|job_id now];
    cbn [Pool.step] in Hstep.
  - (* Spawn *)
    destruct (Pool.workers sys !! w) eqn:Hw; [done|]. injection Hstep as <-.
    apply (held_invariant_workers sys); [done..|]. intros jd Hjd.
    apply (held_insert _ (Pool.db sys)) in Hjd as [?|[?|Hold]]; [done..|].
    by apply (held_same_workers _ sys) in Hold.
  - (* Exit *)
    destruct (Pool.workers sys !! w) eqn:Hw; [|done]. injection Hstep as <-.
    apply (held_invariant_workers sys); [done..|]. intros jd [w' Hw']. simpl in Hw'.
    rewrite !lookup_delete_Some in Hw'. exists w'.
    destruct Hw' as [[_ Hw']|[_ Hw']]; [by left|by right].
  - (* Poll *)
    destruct (Pool.workers sys !! w) as [[| |]|] eqn:Hw; try done.
    destruct (JobStorage.get_pending_jobs 1 now (Pool.db sys)) as [|jd rest] eqn:Hpoll;
      injection Hstep as <-; [done|].
    destruct (polled_row _ _ _ _ Hpoll) as [[k Hk] Hready].
    assert (Hcases : forall jd',
              Pool.held {| Pool.db := Pool.db sys;
                           Pool.workers := <[w := Pool.Candidate jd]> (Pool.workers sys) |} jd' ->
              jd' = jd \/ Pool.held sys jd').
    { intros jd' Hjd'.
      apply (held_insert _ (Pool.db sys)) in Hjd' as [[= ->]|[?|Hold]]; [by left|done|].
      right. by apply (held_same_workers _ sys) in Hold. }
    destruct Hheld as [Hrows Hstate Hatt Hsame]. split; simpl.
    + done.
    + intros jd' [->|Hold]%Hcases; [by apply ready_state in Hready|by apply Hstate].
    + intros jd' [->|Hold]%Hcases; [by apply (Hrows k)|by apply Hatt].
    + intros jd' [->|Hold]%Hcases; [|by apply Hsame].
      exists jd. rewrite <- (Pool.inv_wf sys Hinv k jd Hk) in Hk.
      split; [done|apply same_job_refl].
  - (* Acquire *)
    destruct (Pool.workers sys !! w) as [[|jd|]|] eqn:Hw; try done.
    assert (Hsub : forall st db' jd',
              st = Pool.Running jd \/ st = Pool.Polling ->
              Pool.held {| Pool.db := db';
                           Pool.workers := <[w := st]> (Pool.workers sys) |} jd' ->
              Pool.held sys jd').
    { intros st db' jd' Hst Hjd'.
      apply (held_insert _ (Pool.db sys)) in Hjd' as [->|[->|Hold]].
      - by destruct Hst.
      - destruct Hst as [[= ->]|]; [|done]. exists w. by left.
      - by apply (held_same_workers _ sys) in Hold. }
    unfold JobStorage.acquire_job in Hstep.
    destruct (Pool.db sys !! Job.id jd) as [row|] eqn:Hrow.
    + destruct (JobStorage.ready _ row) eqn:Hready; injection Hstep as <-.
      * apply (held_invariant_write sys _ (Job.id jd) (Job.set_state processing row));
          [done|done| | |].
        -- unfold Pool.attempts_shape. simpl.
           apply held_attempts_cases; [by apply ready_state in Hready|].
           by apply (Pool.hinv_rows sys Hheld (Job.id jd)).
        -- intros row0. rewrite Hrow. intros [= <-]. by repeat split.
        -- intros jd'. apply Hsub. by left.
      * apply (held_invariant_workers sys); [done..|]. intros jd'. apply Hsub. by right.
    + injection Hstep as <-.
      apply (held_invariant_workers sys); [done..|]. intros jd'. apply Hsub. by right.
  - (* Finish *)
    destruct (Pool.workers sys !! w) as [[| |jd]|] eqn:Hw; try done.
    destruct (WorkerManager.process_job b tm tu p jd (Pool.db sys)) as [db' ev|] eqn:Hp;
      [|done].
    injection Hstep as <-.
    assert (Hjd : Pool.held sys jd) by (exists w; by right).
    assert (Hsub : forall jd',
              Pool.held {| Pool.db := db';
                           Pool.workers := <[w := Pool.Polling]> (Pool.workers sys) |} jd' ->
              Pool.held sys jd').
    { intros jd' Hjd'.
      apply (held_insert _ (Pool.db sys)) in Hjd' as [?|[?|Hold]]; [done..|].
      by apply (held_same_workers _ sys) in Hold. }
    apply process_job_effect_held in Hp as [->|(job' & -> & Hsj & Hshape)];
      [| |by apply (Pool.hinv_state sys Hheld)|by apply (Pool.hinv_attempts sys Hheld)].
    + by apply (held_invariant_workers sys).
    + apply (held_invariant_write sys _ (Job.id jd) job'); [done..| |done].
      intros row Hrow.
      destruct (Pool.hinv_same sys Hheld jd Hjd) as (row0 & Hrow0 & Hsj0).
      rewrite Hrow in Hrow0. injection Hrow0 as <-.
      by apply (same_job_trans _ jd); [apply same_job_sym|].
  - (* Enqueue *)
    destruct (JobStorage.create_job job_id command mr now (Pool.db sys))
      as [[db' ret]|] eqn:Hcreate; injection Hstep as <-; [|done].
    apply create_job_inv in Hcreate as (Hfresh & -> & _).
    eapply (held_invariant_write sys _ job_id); [done|done| | |].
    + by unfold Pool.attempts_shape.
    + intros row. by rewrite Hfresh.
    + intros jd. by apply held_same_workers.
  - (* DlqRetry *)
    injection Hstep as <-. unfold JobStorage.reset_job_for_retry. simpl.
    destruct (Pool.db sys !! job_id) as [row|] eqn:Hrow; [|by destruct sys].
    case_decide as Hdead; [|by destruct sys].
    eapply (held_invariant_write sys _ job_id); [done|done| | |].
    + by unfold Pool.attempts_shape.
    + intros row0. rewrite Hrow. intros [= <-]. by repeat split.
    + intros jd. by apply held_same_workers.
Qed.

Lemma init_held_invariant : Pool.held_invariant Pool.init.
Proof.
  split; simpl.
  - intros k row. by rewrite lookup_empty.
  - intros jd [w [Hw|Hw]]; simpl in Hw; by rewrite lookup_empty in Hw.
  - intros jd [w [Hw|Hw]]; simpl in Hw; by rewrite lookup_empty in Hw.
  - intros jd [w [Hw|Hw]]; simpl in Hw; by rewrite lookup_empty in Hw.
Qed.

Lemma run_held_invariant (acts : list Pool.action) (sys sys' : Pool.system) :
  Pool.invariant sys -> Pool.held_invariant sys ->
  Pool.run acts sys = Some sys' -> Pool.held_invariant sys'.
Proof.
  revert sys. induction acts as [|a acts IH]; simpl; intros sys Hinv Hheld Hrun.
  - by injection Hrun as <-.
  - destruct (Pool.step a sys) as [sys1|] eqn:Hstep; [|done].
    eauto using step_invariant, step_held_invariant.
Qed.

Lemma reachable_held_invariant (sys : Pool.system) :
  Pool.reachable sys -> Pool.held_invariant sys.
Proof.
  intros [acts Hrun].
  eauto using run_held_invariant, init_invariant, init_held_invariant.
Qed.

Lemma step_keeps_identity (a : Pool.action) (sys sys' : Pool.system)
    (k : string) (row : Job.t) :
  Pool.held_invariant sys ->
  Pool.step a sys = Some sys' ->
  Pool.db sys !! k = Some row ->
  exists row', Pool.db sys' !! k = Some row' /\ Pool.same_job row row'.
Proof.
  intros Hheld Hstep Hrow.
  assert (Hsame : exists row', Pool.db sys !! k = Some row' /\ Pool.same_job row row')
    by (exists row; split; [done|apply same_job_refl]).
  assert (Hwrite : forall k' row', (k' = k -> Pool.same_job row row') ->
            exists r, <[k' := row']> (Pool.db sys) !! k = Some r /\ Pool.same_job row r).
  { intros k' row' Hk'. destruct (decide (k' = k)) as [->|Hne].
    - exists row'. rewrite lookup_insert_eq. by split; [|apply Hk'].
    - exists row. rewrite lookup_insert_ne by done. split; [done|apply same_job_refl]. }
  destruct a as [w|w|w now|w now|w b tm tu p|job_id command mr now|job_id now];
    cbn [Pool.step] in Hstep.
  - destruct (Pool.workers sys !! w); [done|]. by injection Hstep as <-.
  - destruct (Pool.workers sys !! w); [|done]. by injection Hstep as <-.
  - destruct (Pool.workers sys !! w) as [[| |]|]; try done.
    destruct (JobStorage.get_pending_jobs 1 now (Pool.db sys));
      by injection Hstep as <-.
  - destruct (Pool.workers sys !! w) as [[|jd|]|]; try done.
    unfold JobStorage.acquire_job in Hstep.
    destruct (Pool.db sys !! Job.id jd) as [r|] eqn:Hr; [|by injection Hstep as <-].
    destruct (JobStorage.ready _ r); injection Hstep as <-; [|done]. simpl.
    apply Hwrite. intros Hk. rewrite Hk, Hrow in Hr.
    injection Hr as <-. by repeat split.
  - destruct (Pool.workers sys !! w) as [[| |jd]|] eqn:Hw; try done.
    destruct (WorkerManager.process_job b tm tu p jd (Pool.db sys)) as [db' ev|] eqn:Hp;
      [|done].
    injection Hstep as <-. simpl.
    assert (Hjd : Pool.held sys jd) by (exists w; by right).
    apply process_job_effect_held in Hp as [->|(job' & -> & Hsj & _)];
      [done| |by apply (Pool.hinv_state sys Hheld)|by apply (Pool.hinv_attempts sys Hheld)].
    apply Hwrite. intros Hk.
    destruct (Pool.hinv_same sys Hheld jd Hjd) as (row0 & Hrow0 & Hsj0).
    rewrite Hk, Hrow in Hrow0. injection Hrow0 as <-.
    by apply (same_job_trans _ jd); [apply same_job_sym|].
  - destruct (JobStorage.create_job job_id command mr now (Pool.db sys))
      as [[db' ret]|] eqn:Hcreate; injection Hstep as <-; [|done].
    apply create_job_inv in Hcreate as (Hfresh & -> & _). simpl.
    apply Hwrite. intros Hk. by rewrite Hk, Hrow in Hfresh.
  - injection Hstep as <-. unfold JobStorage.reset_job_for_retry. simpl.
    destruct (Pool.db sys !! job_id) as [r|] eqn:Hr; [|done].
    case_decide; [|done].
    apply Hwrite. intros Hk. rewrite Hk, Hrow in Hr.
    injection Hr as <-. by repeat split.
Qed.

Lemma run_keeps_identity (acts : list Pool.action) (sys sys' : Pool.system)
    (k : string) (row : Job.t) :
  Pool.invariant sys -> Pool.held_invariant sys ->
  Pool.run acts sys = Some sys' ->
  Pool.db sys !! k = Some row ->
  exists row', Pool.db sys' !! k = Some row' /\ Pool.same_job row row'.
Proof.
  revert sys row. induction acts as [|a acts IH]; simpl; intros sys row Hinv Hheld Hrun Hrow.
  - injection Hrun as <-. exists row. split; [done|apply same_job_refl].
  - destruct (Pool.step a sys) as [sys1|] eqn:Hstep; [|done].
    destruct (step_keeps_identity a sys sys1 k row Hheld Hstep Hrow) as (row1 & Hrow1 & Hsj1).
    destruct (IH sys1 row1) as (row' & Hrow' & Hsj');
      [by eapply step_invariant|by eapply step_held_invariant|done..|].
    exists row'. split; [done|]. by apply (same_job_trans _ row1).
Qed.

(** X15. Once a job is in the table it stays there, under the same id and
    with the same [command], [max_retries] and [created_at], whatever
    workers, enqueues and dead-letter resets follow, also when a worker
    writes back a row it read before another process changed it. *)
Theorem jobs_keep_identity (sys sys' : Pool.system) (acts : list Pool.action)
    (job_id : string) (row : Job.t) :
  Pool.reachable sys ->
  Pool.run acts sys = Some sys' ->
  Pool.db sys !! job_id = Some row ->
  exists row',
    Pool.db sys' !! job_id = Some row' /\
    Job.id row = job_id /\ Job.id row' = job_id /\
    Job.command row' = Job.command row /\
    Job.max_retries row' = Job.max_retries row /\
    Job.created_at row' = Job.created_at row.
Proof.
  intros Hreach Hrun Hrow.
  apply reachable_invariant in Hreach as Hinv.
  apply reachable_held_invariant in Hreach as Hheld.
  destruct (run_keeps_identity acts sys sys' job_id row Hinv Hheld Hrun Hrow)
    as (row' & Hrow' & Hid & Hcmd & Hmax & Hcreated).
  assert (Hkey : Job.id row = job_id) by by apply (Pool.inv_wf sys Hinv).
  exists row'. split_and!; [done|done|by rewrite <- Hid|done..].
Qed.

Lemma jobs_keep_identity_witness :
  let sys := {| Pool.db := {[ "test4"%string := Job.set_state processing validate.test4 ]};
                Pool.workers := {[ 1%nat := Pool.Running validate.test4 ]} |} in
  let sys' := {| Pool.db := {[ "test4"%string := validate.test4_failed ]};
                 Pool.workers := {[ 1%nat := Pool.Polling ]} |} in
  exists row',
    Pool.db sys' !! "test4"%string = Some row' /\
    Job.id (Job.set_state processing validate.test4) = "test4"%string /\
    Job.id row' = "test4"%string /\
    Job.command row' = Job.command (Job.set_state processing validate.test4) /\
    Job.max_retries row' = Job.max_retries (Job.set_state processing validate.test4) /\
    Job.created_at row' = Job.created_at (Job.set_state processing validate.test4).
Proof.
  apply (jobs_keep_identity
           {| Pool.db := {[ "test4"%string := Job.set_state processing validate.test4 ]};
              Pool.workers := {[ 1%nat := Pool.Running validate.test4 ]} |}
           {| Pool.db := {[ "test4"%string := validate.test4_failed ]};
              Pool.workers := {[ 1%nat := Pool.Polling ]} |}
           [ Pool.Finish 1 2 (WorkerManager.t_mark validate.pass1)
               (WorkerManager.t_update validate.pass1) validate.not_found ]
           "test4" (Job.set_state processing validate.test4)).
  - exists validate.acquired. vm_compute. reflexivity.
  - vm_compute. reflexivity.
  - reflexivity.
Defined.

(** X16. In every reachable state [attempts] is never negative and never
    exceeds [max_retries] (or 1, when [max_retries] is smaller): a [pending]
    job has [attempts = 0], a [failed] job has [0 < attempts < max_retries],
    a job that is not [dead] has [attempts = 0] or [attempts < max_retries],
    and a [dead] job has used up its budget, [max_retries <= attempts]. *)
Theorem attempts_within_budget (sys : Pool.system) (job_id : string) (row : Job.t) :
  Pool.reachable sys ->
  Pool.db sys !! job_id = Some row ->
  0 <= Job.attempts row <= Z.max (Job.max_retries row) 1 /\
  (Job.state row = pending -> Job.attempts row = 0) /\
  (Job.state row = failed -> 0 < Job.attempts row < Job.max_retries row) /\
  (Job.state row <> dead ->
   Job.attempts row = 0 \/ Job.attempts row < Job.max_retries row) /\
  (Job.state row = dead ->
   1 <= Job.attempts row /\ Job.max_retries row <= Job.attempts row).
Proof.
  intros Hreach Hrow. apply reachable_held_invariant in Hreach as Hheld.
  pose proof (Pool.hinv_rows sys Hheld job_id row Hrow) as Hshape.
  unfold Pool.attempts_shape in Hshape.
  destruct (Job.state row); split_and!;
    try lia; intros Hst; first [discriminate Hst|by destruct Hst|lia].
Qed.

Lemma attempts_within_budget_witness :
  0 <= Job.attempts validate.test4_failed
    <= Z.max (Job.max_retries validate.test4_failed) 1 /\
  (Job.state validate.test4_failed = pending -> Job.attempts validate.test4_failed = 0) /\
  (Job.state validate.test4_failed = failed ->
   0 < Job.attempts validate.test4_failed < Job.max_retries validate.test4_failed) /\
  (Job.state validate.test4_failed <> dead ->
   Job.attempts validate.test4_failed = 0 \/
   Job.attempts validate.test4_failed < Job.max_retries validate.test4_failed) /\
  (Job.state validate.test4_failed = dead ->
   1 <= Job.attempts validate.test4_failed /\
   Job.max_retries validate.test4_failed <= Job.attempts validate.test4_failed).
Proof.
  apply (attempts_within_budget
           {| Pool.db := {[ "test4"%string := validate.test4_failed ]};
              Pool.workers := {[ 1%nat := Pool.Polling ]} |} "test4").
  - exists validate.first_failure. vm_compute. reflexivity.
  - reflexivity.
Defined.

(** ** A pass of one worker inside the pool *)

Lemma run_app (acts1 acts2 : list Pool.action) (sys sys1 : Pool.system) :
  Pool.run acts1 sys = Some sys1 ->
  Pool.run (acts1 ++ acts2) sys = Pool.run acts2 sys1.
Proof.
  revert sys. induction acts1 as [|a acts1 IH]; simpl; intros sys.
  - by intros [= ->].
  - destruct (Pool.step a sys); [apply IH|done].
Qed.

Lemma reachable_run (acts : list Pool.action) (sys sys' : Pool.system) :
  Pool.reachable sys -> Pool.run acts sys = Some sys' -> Pool.reachable sys'.
Proof.
  intros [acts0 Hrun0] Hrun. exists (acts0 ++ acts). by rewrite (run_app _ _ _ _ Hrun0).
Qed.

(** X17. A pass of the worker loop that runs undisturbed is one of the runs
    of the pool: for a worker that is about to poll, the pass is its poll
    alone (no work), its poll and a lost acquisition, or its poll, its
    acquisition and its outcome write, and it leaves the table the pass
    computes and the worker about to poll again. So what holds in every
    reachable state of the pool holds after every such pass. *)
Theorem pass_is_pool_run (sys : Pool.system) (w : nat) (backoff_base : Z)
    (ck : WorkerManager.clock) (p : process) (db' : DB) (ev : WorkerManager.event) :
  Pool.workers sys !! w = Some Pool.Polling ->
  WorkerManager.worker_iteration backoff_base ck p (Pool.db sys)
    = WorkerManager.Continue db' ev ->
  let sys' := {| Pool.db := db'; Pool.workers := Pool.workers sys |} in
  (exists acts,
     acts `prefix_of`
       [ Pool.Poll w (WorkerManager.t_poll ck);
         Pool.Acquire w (WorkerManager.t_acquire ck);
         Pool.Finish w backoff_base (WorkerManager.t_mark ck)
           (WorkerManager.t_update ck) p ] /\
     Pool.run acts sys = Some sys') /\
  (Pool.reachable sys -> Pool.reachable sys').
Proof.
  intros Hw Hpass. cbv zeta.
  assert (Hrun : exists acts,
     acts `prefix_of`
       [ Pool.Poll w (WorkerManager.t_poll ck);
         Pool.Acquire w (WorkerManager.t_acquire ck);
         Pool.Finish w backoff_base (WorkerManager.t_mark ck)
           (WorkerManager.t_update ck) p ] /\
     Pool.run acts sys = Some {| Pool.db := db'; Pool.workers := Pool.workers sys |}).
  { unfold WorkerManager.worker_iteration in Hpass.
    destruct (JobStorage.get_pending_jobs 1 _ (Pool.db sys)) as [|jd rest] eqn:Hpoll.
    - injection Hpass as <- _. exists [Pool.Poll w (WorkerManager.t_poll ck)].
      split; [by eexists|]. cbn [Pool.run Pool.step]. rewrite Hw, Hpoll. by destruct sys.
    - destruct (JobStorage.acquire_job (Job.id jd) _ (Pool.db sys)) as [db1 ok] eqn:Hacq.
      destruct ok.
      + eexists. split; [done|]. cbn [Pool.run Pool.step]. rewrite Hw, Hpoll.
        cbn [Pool.run Pool.step Pool.workers Pool.db]. rewrite lookup_insert_eq, Hacq.
        cbn [Pool.run Pool.step Pool.workers Pool.db]. rewrite lookup_insert_eq, Hpass.
        rewrite !insert_insert_eq. by rewrite insert_id.
      + injection Hpass as <- _.
        exists [Pool.Poll w (WorkerManager.t_poll ck);
                Pool.Acquire w (WorkerManager.t_acquire ck)].
        split; [by eexists|]. cbn [Pool.run Pool.step]. rewrite Hw, Hpoll.
        cbn [Pool.run Pool.step Pool.workers Pool.db]. rewrite lookup_insert_eq, Hacq.
        rewrite !insert_insert_eq. by rewrite insert_id. }
  split; [done|]. intros Hreach. destruct Hrun as (acts & _ & Hrun).
  by apply (reachable_run acts sys).
Qed.

Lemma pass_is_pool_run_witness :
  let sys := {| Pool.db := {[ "test4"%string := validate.test4 ]};
                Pool.workers := {[ 1%nat := Pool.Polling ]} |} in
  let sys' := {| Pool.db := {[ "test4"%string := validate.test4_failed ]};
                 Pool.workers := Pool.workers sys |} in
  (exists acts,
     acts `prefix_of`
       [ Pool.Poll 1 (WorkerManager.t_poll validate.pass1);
         Pool.Acquire 1 (WorkerManager.t_acquire validate.pass1);
         Pool.Finish 1 2 (WorkerManager.t_mark validate.pass1)
           (WorkerManager.t_update validate.pass1) validate.not_found ] /\
     Pool.run acts sys = Some sys') /\
  (Pool.reachable sys -> Pool.reachable sys').
Proof.
  apply (pass_is_pool_run
           {| Pool.db := {[ "test4"%string := validate.test4 ]};
              Pool.workers := {[ 1%nat := Pool.Polling ]} |}
           1%nat 2 validate.pass1 validate.not_found
           {[ "test4"%string := validate.test4_failed ]}
           (WorkerManager.JobFailed "test4")).
  - reflexivity.
  - vm_compute. reflexivity.
Defined.

Lemma worker_takes_first_ready_witness :
  let older := Job.mk "older" "echo first" pending 0 3 None
                      "2024-04-30T23:59:59.000001Z" "2024-04-30T23:59:59.000001Z"
                      None None in
  let db : DB := <["older"%string := older]> {[ "test4"%string := validate.test4 ]} in
  let ts := datetime.timestamp (WorkerManager.t_poll validate.pass1) in
  older ∈ JobStorage.ready_rows ts db /\
  (forall row', row' ∈ JobStorage.ready_rows ts db -> JobStorage.created_le older row').
Proof.
  intros older db ts.
  destruct (proj1 (worker_takes_first_ready 2 validate.pass1 validate.not_found db)
              older ltac:(vm_compute; reflexivity)) as (Hready & Holdest & _).
  by split.
Defined.

Lemma get_stats_spec_witness :
  let db : DB := <["t1"%string := Job.set_state processing validate.test4]>
                   {[ "test4"%string := validate.test4_dead ]} in
  JobStorage.get_stats db !! "pending"%string = None /\
  cli.status_count dead db = 1%nat /\
  cli.status_total db = 2%nat.
Proof.
  intros db.
  destruct (get_stats_spec db) as (_ & Hcount & Hnone & Htotal & _).
  split_and!.
  - apply (Hnone pending). intros k row Hrow.
    apply lookup_insert_Some in Hrow as [[_ <-]|[_ Hrow]]; [done|].
    apply lookup_singleton_Some in Hrow as [_ <-]. done.
  - by rewrite Hcount.
  - by rewrite Htotal.
Defined.

(** ** Timestamps in the order of time *)

(** *** The calendar: [civil] is increasing *)

Lemma year_of_era_mono (a b : Z) :
  0 <= a <= b -> datetime.year_of_era a <= datetime.year_of_era b.
Proof.
  intros H. unfold datetime.year_of_era. apply Z.div_le_mono; [lia|].
  Z.to_euclidean_division_equations; lia.
Qed.

Lemma year_of_era_spec (doe : Z) :
  0 <= doe <= 146096 ->
  0 <= datetime.year_of_era doe <= 399 /\
  datetime.year_start (datetime.year_of_era doe) <= doe /\
  (doe < datetime.year_start (datetime.year_of_era doe + 1) \/ doe = 146096).
Proof.
  intros H. unfold datetime.year_of_era, datetime.year_start.
  Z.to_euclidean_division_equations; lia.
Qed.

Lemma month_day_spec (doy : Z) :
  0 <= doy <= 365 ->
  0 <= (datetime.month_day doy).1 <= 11 /\ 1 <= (datetime.month_day doy).2 <= 31.
Proof.
  intros H. unfold datetime.month_day. simpl.
  Z.to_euclidean_division_equations; lia.
Qed.

Lemma month_day_mono (a b : Z) :
  0 <= a < b -> b <= 365 ->
  (datetime.month_day a).1 < (datetime.month_day b).1 \/
  ((datetime.month_day a).1 = (datetime.month_day b).1 /\
   (datetime.month_day a).2 < (datetime.month_day b).2).
Proof.
  intros H1 H2. unfold datetime.month_day. simpl.
  Z.to_euclidean_division_equations; lia.
Qed.

Lemma day_of_year_bound (doe : Z) :
  0 <= doe <= 146096 ->
  0 <= doe - datetime.year_start (datetime.year_of_era doe) <= 365.
Proof.
  intros H. unfold datetime.year_of_era, datetime.year_start.
  Z.to_euclidean_division_equations; lia.
Qed.

(** [civil], with its steps named. *)
Lemma civil_eq (days : Z) :
  datetime.civil days =
    let z := days + 306 in
    let era := z / 146097 in
    let doe := z mod 146097 in
    let yoe := datetime.year_of_era doe in
    let md := datetime.month_day (doe - datetime.year_start yoe) in
    let m := if md.1 <? 10 then md.1 + 3 else md.1 - 9 in
    (yoe + era * 400 + (if m <=? 2 then 1 else 0), m, md.2).
Proof. reflexivity. Qed.

Lemma civil_lt (n1 n2 : Z) :
  0 <= n1 < n2 -> datetime.date_lt (datetime.civil n1) (datetime.civil n2).
Proof.
  intros H. rewrite !civil_eq. cbv zeta.
  pose proof (Z.mod_pos_bound (n1 + 306) 146097 ltac:(lia)) as Hd1.
  pose proof (Z.mod_pos_bound (n2 + 306) 146097 ltac:(lia)) as Hd2.
  pose proof (Z.div_mod (n1 + 306) 146097 ltac:(lia)) as He1.
  pose proof (Z.div_mod (n2 + 306) 146097 ltac:(lia)) as He2.
  set (era1 := (n1 + 306) / 146097) in *. set (doe1 := (n1 + 306) mod 146097) in *.
  set (era2 := (n2 + 306) / 146097) in *. set (doe2 := (n2 + 306) mod 146097) in *.
  assert (Hera : era1 <= era2) by (apply Z.div_le_mono; lia).
  pose proof (year_of_era_spec doe1 ltac:(lia)) as (Hy1 & _ & _).
  pose proof (year_of_era_spec doe2 ltac:(lia)) as (Hy2 & _ & _).
  pose proof (day_of_year_bound doe1 ltac:(lia)) as Hdoy1.
  pose proof (day_of_year_bound doe2 ltac:(lia)) as Hdoy2.
  pose proof (month_day_spec _ Hdoy1) as (Hm1 & Hdd1).
  pose proof (month_day_spec _ Hdoy2) as (Hm2 & Hdd2).
  assert (Hcase : era1 < era2 \/ (era1 = era2 /\ doe1 < doe2)) by lia.
  assert (Hyear : era1 = era2 -> datetime.year_of_era doe1 <= datetime.year_of_era doe2).
  { intros Heq. apply year_of_era_mono. lia. }
  assert (Hmd : era1 = era2 -> datetime.year_of_era doe1 = datetime.year_of_era doe2 ->
                (datetime.month_day (doe1 - datetime.year_start (datetime.year_of_era doe1))).1 <
                (datetime.month_day (doe2 - datetime.year_start (datetime.year_of_era doe2))).1 \/
                ((datetime.month_day (doe1 - datetime.year_start (datetime.year_of_era doe1))).1 =
                 (datetime.month_day (doe2 - datetime.year_start (datetime.year_of_era doe2))).1 /\
                 (datetime.month_day (doe1 - datetime.year_start (datetime.year_of_era doe1))).2 <
                 (datetime.month_day (doe2 - datetime.year_start (datetime.year_of_era doe2))).2)).
  { intros Heq Hyeq. apply month_day_mono; [|lia]. rewrite Hyeq in Hdoy1 |- *. lia. }
  revert Hy1 Hy2 Hm1 Hm2 Hdd1 Hdd2 Hyear Hmd.
  generalize (datetime.year_of_era doe1) as y1. generalize (datetime.year_of_era doe2) as y2.
  intros y2 y1.
  generalize (datetime.month_day (doe1 - datetime.year_start y1)) as md1.
  generalize (datetime.month_day (doe2 - datetime.year_start y2)) as md2.
  intros [mp2 d2] [mp1 d1]. unfold datetime.date_lt. simpl. intros.
  destruct (Z.ltb_spec mp1 10), (Z.ltb_spec mp2 10);
    repeat match goal with |- context [?a <=? ?b] => destruct (Z.leb_spec a b) end;
    simpl; lia.
Qed.

(** *** Comparing texts field by field *)

Lemma compare_app (a b s t : string) :
  String.length a = String.length b ->
  String.compare (a +:+ s) (b +:+ t) = datetime.lex (String.compare a b) (String.compare s t).
Proof.
  revert b. induction a as [|c a IH]; intros [|c' b] Hlen; try done.
  simpl. destruct (Ascii.compare c c'); [|done..].
  apply IH. by injection Hlen.
Qed.

Lemma compare_refl (s : string) : String.compare s s = Eq.
Proof.
  induction s as [|c s IH]; simpl; [done|].
  unfold Ascii.compare. by rewrite N.compare_refl.
Qed.

Lemma compare_sep (sep s t : string) :
  String.compare (sep +:+ s) (sep +:+ t) = String.compare s t.
Proof. by rewrite compare_app, compare_refl. Qed.

Lemma digit_compare (x y : Z) :
  String.compare (datetime.digit x) (datetime.digit y) = (x mod 10 ?= y mod 10).
Proof.
  unfold datetime.digit.
  pose proof (Z.mod_pos_bound x 10 ltac:(lia)) as Hx.
  pose proof (Z.mod_pos_bound y 10 ltac:(lia)) as Hy.
  generalize dependent (x mod 10). generalize dependent (y mod 10). intros b Hb a Ha.
  assert (Has : a = 0 \/ a = 1 \/ a = 2 \/ a = 3 \/ a = 4 \/ a = 5 \/ a = 6 \/ a = 7 \/
                a = 8 \/ a = 9) by lia.
  assert (Hbs : b = 0 \/ b = 1 \/ b = 2 \/ b = 3 \/ b = 4 \/ b = 5 \/ b = 6 \/ b = 7 \/
                b = 8 \/ b = 9) by lia.
  clear Ha Hb.
  repeat (destruct Has as [->|Has]); try subst a;
    repeat (destruct Hbs as [->|Hbs]); try subst b; reflexivity.
Qed.

Lemma string_length_app (a b : string) :
  String.length (a +:+ b) = (String.length a + String.length b)%nat.
Proof. induction a as [|c a IH]; simpl; [done|]. by rewrite IH. Qed.

Lemma digits_length (w : nat) (n : Z) : String.length (datetime.digits w n) = w.
Proof.
  revert n. induction w as [|w IH]; intros n; simpl; [done|].
  rewrite string_length_app, IH. simpl. lia.
Qed.

Lemma lex_compare (a b : Z) (r : comparison) :
  datetime.lex (a ?= b) r = Lt <-> a < b \/ (a = b /\ r = Lt).
Proof.
  destruct (Z.compare_spec a b); simpl; split; try done; try lia.
  - intros ?. right. done.
  - intros [?|[_ ?]]; [lia|done].
Qed.

Lemma digits_compare (w : nat) (x y : Z) :
  0 <= x < 10 ^ Z.of_nat w -> 0 <= y < 10 ^ Z.of_nat w ->
  String.compare (datetime.digits w x) (datetime.digits w y) = (x ?= y).
Proof.
  revert x y. induction w as [|w IH]; intros x y Hx Hy.
  - simpl in *. assert (x = 0) by lia. assert (y = 0) by lia. by subst.
  - simpl. rewrite compare_app by (by rewrite !digits_length).
    rewrite Nat2Z.inj_succ, Z.pow_succ_r in Hx, Hy by lia.
    rewrite IH, digit_compare.
    2,3: (split; [apply Z.div_pos; lia|apply Z.div_lt_upper_bound; lia]).
    pose proof (Z.div_mod x 10 ltac:(lia)). pose proof (Z.div_mod y 10 ltac:(lia)).
    pose proof (Z.mod_pos_bound x 10 ltac:(lia)).
    pose proof (Z.mod_pos_bound y 10 ltac:(lia)).
    destruct (Z.compare_spec (x / 10) (y / 10)); simpl;
      destruct (Z.compare_spec (x mod 10) (y mod 10));
      destruct (Z.compare_spec x y); try done; lia.
Qed.

Lemma lex_compare_last (a b : Z) : datetime.lex (a ?= b) Eq = Lt <-> a < b.
Proof. destruct (Z.compare_spec a b); simpl; split; try done; lia. Qed.

Lemma string_app_assoc (a b c : string) : (a +:+ b) +:+ c = a +:+ (b +:+ c).
Proof.
  induction a as [|x a IH]; [done|].
  change (String x ((a +:+ b) +:+ c) = String x (a +:+ (b +:+ c))). by rewrite IH.
Qed.

Lemma civil_fields (n : Z) :
  0 <= n ->
  1 <= (datetime.civil n).1.2 <= 12 /\ 1 <= (datetime.civil n).2 <= 31.
Proof.
  intros Hn. rewrite civil_eq. cbv zeta.
  pose proof (Z.mod_pos_bound (n + 306) 146097 ltac:(lia)) as Hd.
  assert (Hdoe : 0 <= (n + 306) mod 146097 <= 146096) by lia.
  pose proof (day_of_year_bound _ Hdoe) as Hdoy.
  pose proof (month_day_spec _ Hdoy) as (Hm & Hdd).
  destruct (datetime.month_day _) as [mp d]. simpl in *.
  destruct (Z.ltb_spec mp 10); lia.
Qed.

Lemma civil_year (n : Z) :
  0 <= n <= 3652058 -> 1 <= (datetime.civil n).1.1 <= 9999.
Proof.
  intros Hn.
  assert (H0 : datetime.civil 0 = (1, 1, 1)) by reflexivity.
  assert (H1 : datetime.civil 3652058 = (9999, 12, 31)) by reflexivity.
  pose proof (civil_fields n ltac:(lia)) as (Hm & Hd).
  split.
  - destruct (decide (n = 0)) as [->|Hne]; [by rewrite H0|].
    pose proof (civil_lt 0 n ltac:(lia)) as Hlt. rewrite H0 in Hlt.
    destruct (datetime.civil n) as [[y m] d]. unfold datetime.date_lt in Hlt. simpl in *. lia.
  - destruct (decide (n = 3652058)) as [->|Hne]; [by rewrite H1|].
    pose proof (civil_lt n 3652058 ltac:(lia)) as Hlt. rewrite H1 in Hlt.
    destruct (datetime.civil n) as [[y m] d]. unfold datetime.date_lt in Hlt. simpl in *. lia.
Qed.

Lemma digits_compare_2 (x y : Z) :
  0 <= x < 100 -> 0 <= y < 100 ->
  String.compare (datetime.digits 2 x) (datetime.digits 2 y) = (x ?= y).
Proof. intros. by apply digits_compare. Qed.

Lemma digits_compare_4 (x y : Z) :
  0 <= x < 10000 -> 0 <= y < 10000 ->
  String.compare (datetime.digits 4 x) (datetime.digits 4 y) = (x ?= y).
Proof. intros. by apply digits_compare. Qed.

Lemma digits_compare_6 (x y : Z) :
  0 <= x < 1000000 -> 0 <= y < 1000000 ->
  String.compare (datetime.digits 6 x) (datetime.digits 6 y) = (x ?= y).
Proof. intros. by apply digits_compare. Qed.

(** *** Timestamps *)

Lemma fields_lt (n1 n2 y1 m1 dd1 h1 mi1 s1 y2 m2 dd2 h2 mi2 s2 : Z) (Q : Prop) :
  (n1 < n2 -> y1 < y2 \/ y1 = y2 /\ (m1 < m2 \/ m1 = m2 /\ dd1 < dd2)) ->
  (n1 = n2 -> y1 = y2 /\ m1 = m2 /\ dd1 = dd2) ->
  0 <= h1 < 24 -> 0 <= mi1 < 60 -> 0 <= s1 < 60 ->
  0 <= h2 < 24 -> 0 <= mi2 < 60 -> 0 <= s2 < 60 ->
  (let t1 := 86400 * n1 + (h1 * 60 + mi1) * 60 + s1 in
   let t2 := 86400 * n2 + (h2 * 60 + mi2) * 60 + s2 in
   t1 < t2 \/ (t1 = t2 /\ Q)) ->
  y1 < y2 \/ y1 = y2 /\
  (m1 < m2 \/ m1 = m2 /\
   (dd1 < dd2 \/ dd1 = dd2 /\
    (h1 < h2 \/ h1 = h2 /\ (mi1 < mi2 \/ mi1 = mi2 /\ (s1 < s2 \/ s1 = s2 /\ Q))))).
Proof.
  intros Hdate Hymd Hh1 Hmi1 Hs1 Hh2 Hmi2 Hs2 Ht. cbv zeta in Ht.
  destruct (Z.lt_trichotomy n1 n2) as [Hlt|[Heq|Hgt]].
  - destruct (Hdate Hlt) as [?|[-> [?|[-> ?]]]]; auto 10.
  - destruct (Hymd Heq) as (-> & -> & ->). subst n2.
    right. split; [done|]. right. split; [done|]. right. split; [done|].
    destruct (Z.lt_trichotomy h1 h2) as [?|[->|?]]; [by left| |lia].
    right. split; [done|].
    destruct (Z.lt_trichotomy mi1 mi2) as [?|[->|?]]; [by left| |lia].
    right. split; [done|].
    destruct (Z.lt_trichotomy s1 s2) as [?|[->|?]]; [by left| |lia].
    right. split; [done|]. destruct Ht as [?|[_ ?]]; [lia|done].
  - lia.
Qed.

Lemma timestamp_lt (d1 d2 : Z) :
  0 <= d1 <= datetime.max -> 0 <= d2 <= datetime.max ->
  datetime.text_rank d1 < datetime.text_rank d2 ->
  String.compare (datetime.timestamp d1) (datetime.timestamp d2) = Lt.
Proof.
  unfold datetime.text_rank, datetime.max, datetime.timestamp, datetime.isoformat,
    datetime.us_per_day, datetime.us_per_second.
  intros Hv1 Hv2 Hrank.
  set (n1 := d1 / (86400 * 1000000)). set (n2 := d2 / (86400 * 1000000)).
  assert (Hn1 : 0 <= n1 <= 3652058) by (unfold n1; Z.to_euclidean_division_equations; lia).
  assert (Hn2 : 0 <= n2 <= 3652058) by (unfold n2; Z.to_euclidean_division_equations; lia).
  pose proof (civil_year n1 Hn1) as Hy1. pose proof (civil_year n2 Hn2) as Hy2.
  pose proof (civil_fields n1 ltac:(lia)) as (Hm1 & Hdd1).
  pose proof (civil_fields n2 ltac:(lia)) as (Hm2 & Hdd2).
  assert (Hdate : n1 < n2 -> datetime.date_lt (datetime.civil n1) (datetime.civil n2)).
  { intros ?. apply civil_lt. lia. }
  assert (Hsame : n1 = n2 -> datetime.civil n1 = datetime.civil n2) by (by intros ->).
  destruct (datetime.civil n1) as [[y1 m1] dd1], (datetime.civil n2) as [[y2 m2] dd2].
  unfold datetime.date_lt in Hdate. cbn [fst snd] in *.
  set (secs1 := d1 mod (86400 * 1000000) / 1000000).
  set (secs2 := d2 mod (86400 * 1000000) / 1000000).
  set (h1 := secs1 / 3600). set (mi1 := secs1 / 60 mod 60). set (s1 := secs1 mod 60).
  set (h2 := secs2 / 3600). set (mi2 := secs2 / 60 mod 60). set (s2 := secs2 mod 60).
  set (us1 := d1 mod 1000000) in *. set (us2 := d2 mod 1000000) in *.
  assert (Hd1 : d1 = 86400000000 * n1 + ((h1 * 60 + mi1) * 60 + s1) * 1000000 + us1 /\
                0 <= h1 < 24 /\ 0 <= mi1 < 60 /\ 0 <= s1 < 60 /\ 0 <= us1 < 1000000)
    by (unfold n1, h1, mi1, s1, us1, secs1; Z.to_euclidean_division_equations; lia).
  assert (Hd2 : d2 = 86400000000 * n2 + ((h2 * 60 + mi2) * 60 + s2) * 1000000 + us2 /\
                0 <= h2 < 24 /\ 0 <= mi2 < 60 /\ 0 <= s2 < 60 /\ 0 <= us2 < 1000000)
    by (unfold n2, h2, mi2, s2, us2, secs2; Z.to_euclidean_division_equations; lia).
  clearbody n1 n2 h1 mi1 s1 h2 mi2 s2 us1 us2. clear secs1 secs2.
  assert (Hymd : n1 = n2 -> y1 = y2 /\ m1 = m2 /\ dd1 = dd2).
  { intros Heq. by injection (Hsame Heq). }
  clear Hsame.
  destruct Hd1 as (Hd1 & Hh1 & Hmi1 & Hs1 & Hus1).
  destruct Hd2 as (Hd2 & Hh2 & Hmi2 & Hs2 & Hus2).
  rewrite !string_app_assoc.
  rewrite compare_app by (by rewrite !digits_length).
  rewrite digits_compare_4 by lia. rewrite compare_sep.
  rewrite compare_app by (by rewrite !digits_length).
  rewrite digits_compare_2 by lia. rewrite compare_sep.
  rewrite compare_app by (by rewrite !digits_length).
  rewrite digits_compare_2 by lia. rewrite compare_sep.
  rewrite compare_app by (by rewrite !digits_length).
  rewrite digits_compare_2 by lia. rewrite compare_sep.
  rewrite compare_app by (by rewrite !digits_length).
  rewrite digits_compare_2 by lia. rewrite compare_sep.
  rewrite compare_app by (by rewrite !digits_length).
  rewrite digits_compare_2 by lia.
  rewrite !lex_compare.
  apply (fields_lt n1 n2); try done. cbv zeta.
  destruct (Z.eqb_spec us1 0) as [Hz1|Hz1], (Z.eqb_spec us2 0) as [Hz2|Hz2].
  - left. lia.
  - left. lia.
  - assert (Hle : 86400 * n1 + (h1 * 60 + mi1) * 60 + s1
                  <= 86400 * n2 + (h2 * 60 + mi2) * 60 + s2) by lia.
    apply Z.le_lteq in Hle as [?|?]; [by left|by right].
  - rewrite !string_app_assoc, compare_sep.
    rewrite compare_app by (by rewrite !digits_length).
    rewrite digits_compare_6 by lia.
    change (String.compare "Z" "Z") with Eq. rewrite lex_compare_last. lia.
Qed.

Lemma text_rank_inj (d1 d2 : Z) : datetime.text_rank d1 = datetime.text_rank d2 -> d1 = d2.
Proof.
  unfold datetime.text_rank, datetime.us_per_second.
  destruct (Z.eqb_spec (d1 mod 1000000) 0), (Z.eqb_spec (d2 mod 1000000) 0);
    Z.to_euclidean_division_equations; lia.
Qed.

Lemma timestamp_compare (d1 d2 : Z) :
  datetime.valid d1 = true -> datetime.valid d2 = true ->
  String.compare (datetime.timestamp d1) (datetime.timestamp d2)
  = (datetime.text_rank d1 ?= datetime.text_rank d2).
Proof.
  unfold datetime.valid. intros [H1 H1']%andb_prop [H2 H2']%andb_prop.
  apply Z.leb_le in H1, H1', H2, H2'.
  destruct (Z.compare_spec (datetime.text_rank d1) (datetime.text_rank d2)) as [Heq|Hlt|Hgt].
  - apply text_rank_inj in Heq as ->. apply compare_refl.
  - by apply timestamp_lt.
  - rewrite String.compare_antisym. by rewrite timestamp_lt.
Qed.

Lemma timestamp_leb (d1 d2 : Z) :
  datetime.valid d1 = true -> datetime.valid d2 = true ->
  String.leb (datetime.timestamp d1) (datetime.timestamp d2)
  = (datetime.text_rank d1 <=? datetime.text_rank d2).
Proof.
  intros Hv1 Hv2. unfold String.leb, Z.leb. by rewrite timestamp_compare.
Qed.

Lemma leb_timestamp (d1 d2 : Z) :
  datetime.valid d1 = true -> datetime.valid d2 = true ->
  String.leb (datetime.timestamp d1) (datetime.timestamp d2) = true <->
  datetime.text_rank d1 <= datetime.text_rank d2.
Proof. intros Hv1 Hv2. rewrite timestamp_leb by done. apply Z.leb_le. Qed.

Lemma text_rank_order (d1 d2 : Z) :
  (datetime.text_rank d1 <= datetime.text_rank d2 -> d1 < d2 + datetime.us_per_second) /\
  (d1 + datetime.us_per_second <= d2 -> datetime.text_rank d1 <= datetime.text_rank d2) /\
  ((d1 mod datetime.us_per_second = 0 <-> d2 mod datetime.us_per_second = 0) ->
   (datetime.text_rank d1 <= datetime.text_rank d2 <-> d1 <= d2)) /\
  (datetime.text_rank d1 <= datetime.text_rank d2 /\ d2 < d1 <->
   d2 mod datetime.us_per_second = 0 /\ d2 < d1 < d2 + datetime.us_per_second) /\
  (~ datetime.text_rank d1 <= datetime.text_rank d2 /\ d1 <= d2 <->
   d1 mod datetime.us_per_second = 0 /\ d1 < d2 < d1 + datetime.us_per_second).
Proof.
  unfold datetime.text_rank, datetime.us_per_second.
  destruct (Z.eqb_spec (d1 mod 1000000) 0), (Z.eqb_spec (d2 mod 1000000) 0);
    split_and!; try tauto; Z.to_euclidean_division_equations; lia.
Qed.

(** X20. The order of the timestamp texts, in terms of time. The texts of
    two instants of [datetime]'s range compare as the ranks of the instants
    do: as the instants themselves, except that an instant on a whole
    second, which is printed without a fraction, takes its place after
    every other instant of its second. Hence the text order is the order in
    time between two instants that are both on a whole second or both off
    it; in general an instant that is a second or more before another has
    the smaller text, and a text that is not greater belongs to an instant
    less than a second later. *)
Theorem timestamp_order (d1 d2 : Z) :
  datetime.valid d1 = true -> datetime.valid d2 = true ->
  String.compare (datetime.timestamp d1) (datetime.timestamp d2)
    = (datetime.text_rank d1 ?= datetime.text_rank d2) /\
  (String.leb (datetime.timestamp d1) (datetime.timestamp d2) = true <->
   datetime.text_rank d1 <= datetime.text_rank d2) /\
  ((d1 mod datetime.us_per_second = 0 <-> d2 mod datetime.us_per_second = 0) ->
   (String.leb (datetime.timestamp d1) (datetime.timestamp d2) = true <-> d1 <= d2)) /\
  (d1 + datetime.us_per_second <= d2 ->
   String.leb (datetime.timestamp d1) (datetime.timestamp d2) = true) /\
  (String.leb (datetime.timestamp d1) (datetime.timestamp d2) = true ->
   d1 < d2 + datetime.us_per_second).
Proof.
  intros Hv1 Hv2.
  destruct (text_rank_order d1 d2) as (Hlate & Hearly & Hsame & _).
  split_and!.
  - by apply timestamp_compare.
  - by apply leb_timestamp.
  - intros Hfmt. rewrite leb_timestamp by done. by apply Hsame.
  - intros Hle. apply leb_timestamp; [done..|]. by apply Hearly.
  - intros Hle. apply leb_timestamp in Hle; [|done..]. by apply Hlate.
Qed.

Lemma ready_by_time (now due : Z) (row : Job.t) :
  Job.next_retry_at row = Some (datetime.timestamp due) ->
  datetime.valid due = true -> datetime.valid now = true ->
  JobStorage.ready (datetime.timestamp now) row = true <->
  (Job.state row = pending \/ Job.state row = failed) /\
  datetime.text_rank due <= datetime.text_rank now.
Proof.
  intros Hnra Hv1 Hv2. rewrite ready_spec, Hnra. split.
  - intros [Hst [?|(t & [= <-] & Hle)]]; [done|]. split; [done|].
    by apply leb_timestamp.
  - intros [Hst Hle]. split; [done|]. right. eexists. split; [done|].
    by apply leb_timestamp.
Qed.

(** X21. [acquire_job] in terms of time, for a [pending] or [failed] row whose
    [next_retry_at] is the timestamp of the instant [due]: it succeeds
    exactly when the rank of [due] is not greater than the rank of the
    current instant. When both instants are on a whole second, or both off
    it, that is: exactly when [due] has been reached. In general it
    succeeds once [due] is a second or more in the past and never a second
    or more before [due]. It takes the job before [due] exactly when the
    current instant is on a whole second and [due] later in that second,
    and it refuses the job although [due] has passed exactly when [due] is
    on a whole second and the current instant later in that second. *)
Theorem acquire_job_by_time (db : DB) (job_id : string) (now due : Z) (row : Job.t) :
  db !! job_id = Some row ->
  Job.state row = pending \/ Job.state row = failed ->
  Job.next_retry_at row = Some (datetime.timestamp due) ->
  datetime.valid due = true -> datetime.valid now = true ->
  let success := (JobStorage.acquire_job job_id now db).2 in
  (success = true <-> datetime.text_rank due <= datetime.text_rank now) /\
  ((due mod datetime.us_per_second = 0 <-> now mod datetime.us_per_second = 0) ->
   (success = true <-> due <= now)) /\
  (due + datetime.us_per_second <= now -> success = true) /\
  (success = true -> due < now + datetime.us_per_second) /\
  (success = true /\ now < due <->
   now mod datetime.us_per_second = 0 /\ now < due < now + datetime.us_per_second) /\
  (success = false /\ due <= now <->
   due mod datetime.us_per_second = 0 /\ due < now < due + datetime.us_per_second).
Proof.
  intros Hrow Hst Hnra Hv1 Hv2. cbv zeta.
  assert (Hiff : (JobStorage.acquire_job job_id now db).2 = true <->
                 datetime.text_rank due <= datetime.text_rank now).
  { unfold JobStorage.acquire_job. rewrite Hrow.
    pose proof (ready_by_time now due row Hnra Hv1 Hv2) as Hready.
    destruct (JobStorage.ready _ row); simpl.
    - split; [intros _|done]. by apply Hready.
    - split; [done|]. intros Hle.
      by apply (proj2 Hready (conj Hst Hle)). }
  destruct (text_rank_order due now) as (Hlate & Hearly & Hsame & Hbefore & Hafter).
  split_and!.
  - done.
  - intros Hfmt. rewrite Hiff. by apply Hsame.
  - intros Hle. by apply Hiff, Hearly.
  - intros Hok. by apply Hlate, Hiff.
  - rewrite Hiff. apply Hbefore.
  - rewrite <- Hafter, <- Hiff.
    destruct (JobStorage.acquire_job job_id now db).2; intuition congruence.
Qed.

Lemma created_le_by_time (r r' : Job.t) (c c' : Z) :
  Job.created_at r = datetime.timestamp c ->
  Job.created_at r' = datetime.timestamp c' ->
  datetime.valid c = true -> datetime.valid c' = true ->
  JobStorage.created_le r r' ->
  datetime.text_rank c <= datetime.text_rank c' /\
  c < c' + datetime.us_per_second /\
  ((c mod datetime.us_per_second = 0 <-> c' mod datetime.us_per_second = 0) -> c <= c').
Proof.
  unfold JobStorage.created_le. intros -> -> Hv Hv' Hle.
  apply leb_timestamp in Hle; [|done..].
  destruct (text_rank_order c c') as (Hlate & _ & Hsame & _).
  split_and!; [done|by apply Hlate|]. intros Hfmt. by apply Hsame.
Qed.

Lemma sorted_before {A} (R : relation A) (before after : list A) (x y : A) :
  StronglySorted R (before ++ x :: after) -> y ∈ after -> R x y.
Proof.
  intros Hsorted Hy. apply StronglySorted_app_1_r, StronglySorted_inv in Hsorted as [_ Hall].
  by apply (proj1 (Forall_forall _ _) Hall).
Qed.

(** X22. [get_pending_jobs] in terms of time. A [pending] or [failed] row
    whose [next_retry_at] is the timestamp of the instant [due] is ready
    exactly when the rank of [due] is not greater than the rank of the
    current instant: exactly when [due] has been reached if both instants
    are on a whole second or both off it; a row that is returned is due in
    less than a second, and a row is ready once [due] is a second or more
    in the past. Of two returned rows created at the instants [c] and [c'],
    the one that comes first has the rank that is not greater: it was
    created less than a second after the other at most, and not after it
    when both instants are on a whole second or both off it. The same holds
    between a returned row and a ready row that the limit cuts off. *)
Theorem get_pending_jobs_by_time (db : DB) (limit now : Z) :
  datetime.valid now = true ->
  let ready_rows := JobStorage.ready_rows (datetime.timestamp now) db in
  let result := JobStorage.get_pending_jobs limit now db in
  (forall row due,
     (exists k, db !! k = Some row) ->
     Job.next_retry_at row = Some (datetime.timestamp due) ->
     datetime.valid due = true ->
     (row ∈ ready_rows <->
        (Job.state row = pending \/ Job.state row = failed) /\
        datetime.text_rank due <= datetime.text_rank now) /\
     ((due mod datetime.us_per_second = 0 <-> now mod datetime.us_per_second = 0) ->
      (row ∈ ready_rows <->
         (Job.state row = pending \/ Job.state row = failed) /\ due <= now)) /\
     (row ∈ result -> due < now + datetime.us_per_second) /\
     (Job.state row = pending \/ Job.state row = failed ->
      due + datetime.us_per_second <= now -> row ∈ ready_rows)) /\
  (forall before r after r' c c',
     result = before ++ r :: after -> r' ∈ after ->
     Job.created_at r = datetime.timestamp c ->
     Job.created_at r' = datetime.timestamp c' ->
     datetime.valid c = true -> datetime.valid c' = true ->
     datetime.text_rank c <= datetime.text_rank c' /\
     c < c' + datetime.us_per_second /\
     ((c mod datetime.us_per_second = 0 <-> c' mod datetime.us_per_second = 0) ->
      c <= c')) /\
  (forall row r c c',
     row ∈ ready_rows -> row ∉ result -> r ∈ result ->
     Job.created_at r = datetime.timestamp c ->
     Job.created_at row = datetime.timestamp c' ->
     datetime.valid c = true -> datetime.valid c' = true ->
     datetime.text_rank c <= datetime.text_rank c' /\
     c < c' + datetime.us_per_second /\
     ((c mod datetime.us_per_second = 0 <-> c' mod datetime.us_per_second = 0) ->
      c <= c')).
Proof.
  intros Hnow. cbv zeta.
  set (ts := datetime.timestamp now).
  set (sorted := merge_sort JobStorage.created_le (JobStorage.ready_rows ts db)).
  assert (Hperm : sorted ≡ₚ JobStorage.ready_rows ts db)
    by apply merge_sort_Permutation.
  assert (Hsorted : StronglySorted JobStorage.created_le sorted)
    by apply (StronglySorted_merge_sort _).
  assert (Hres : JobStorage.get_pending_jobs limit now db
                 = JobStorage.sql_limit limit sorted) by done.
  destruct (sql_limit_split limit sorted) as [rest Hsplit].
  split_and!.
  - intros row due Hrow Hnra Hdue.
    assert (Hiff : row ∈ JobStorage.ready_rows ts db <->
                   (Job.state row = pending \/ Job.state row = failed) /\
                   datetime.text_rank due <= datetime.text_rank now).
    { rewrite elem_of_ready_rows. unfold ts.
      rewrite (ready_by_time now due row Hnra Hdue Hnow). tauto. }
    destruct (text_rank_order due now) as (Hlate & Hearly & Hsame & _).
    split_and!.
    + done.
    + intros Hfmt. rewrite Hiff. by rewrite (Hsame Hfmt).
    + intros Hin. apply get_pending_jobs_elem_of in Hin. fold ts in Hin.
      apply Hiff in Hin as [_ Hle]. by apply Hlate.
    + intros Hst Hle. apply Hiff. split; [done|]. by apply Hearly.
  - intros before r after r' c c' Hresult Hr' Hc Hc' Hv Hv'.
    apply (created_le_by_time r r'); try done.
    apply (sorted_before _ before after); [|done].
    rewrite <- Hresult, Hres. rewrite Hsplit in Hsorted.
    by apply StronglySorted_app_1_l in Hsorted.
  - intros row r c c' Hrow Hnot Hr Hc Hc' Hv Hv'.
    apply (created_le_by_time r row); try done.
    rewrite Hres in Hnot, Hr.
    rewrite <- Hperm, Hsplit, elem_of_app in Hrow.
    destruct Hrow as [Hrow|Hrow]; [done|].
    rewrite Hsplit in Hsorted.
    by apply (StronglySorted_app_1_elem_of _ _ _ r row Hsorted).
Qed.

Lemma created_ge_by_time (r r' : Job.t) (c c' : Z) :
  Job.created_at r = datetime.timestamp c ->
  Job.created_at r' = datetime.timestamp c' ->
  datetime.valid c = true -> datetime.valid c' = true ->
  JobStorage.created_ge r r' ->
  datetime.text_rank c' <= datetime.text_rank c /\
  c' < c + datetime.us_per_second /\
  ((c mod datetime.us_per_second = 0 <-> c' mod datetime.us_per_second = 0) -> c' <= c).
Proof.
  intros Hc Hc' Hv Hv' Hge.
  destruct (created_le_by_time r' r c' c Hc' Hc Hv' Hv Hge) as (? & ? & Hsame).
  split_and!; [done..|]. intros Hfmt. apply Hsame. tauto.
Qed.

(** X23. [list_jobs] in terms of time. Of two listed rows created at the
    instants [c] and [c'], the one that comes first has the rank that is
    not smaller: it was created less than a second before the other at
    most, and not before it when both instants are on a whole second or
    both off it. The same holds between a listed row and a selected row
    that the limit cuts off. *)
Theorem list_jobs_by_time (state : option string) (limit : Z) (db : DB) :
  let selected := JobStorage.rows_in_state state db in
  let result := JobStorage.list_jobs state limit db in
  (forall before r after r' c c',
     result = before ++ r :: after -> r' ∈ after ->
     Job.created_at r = datetime.timestamp c ->
     Job.created_at r' = datetime.timestamp c' ->
     datetime.valid c = true -> datetime.valid c' = true ->
     datetime.text_rank c' <= datetime.text_rank c /\
     c' < c + datetime.us_per_second /\
     ((c mod datetime.us_per_second = 0 <-> c' mod datetime.us_per_second = 0) ->
      c' <= c)) /\
  (forall row r c c',
     row ∈ selected -> row ∉ result -> r ∈ result ->
     Job.created_at r = datetime.timestamp c ->
     Job.created_at row = datetime.timestamp c' ->
     datetime.valid c = true -> datetime.valid c' = true ->
     datetime.text_rank c' <= datetime.text_rank c /\
     c' < c + datetime.us_per_second /\
     ((c mod datetime.us_per_second = 0 <-> c' mod datetime.us_per_second = 0) ->
      c' <= c)).
Proof.
  cbv zeta. unfold JobStorage.list_jobs.
  set (selected := JobStorage.rows_in_state state db).
  set (sorted := merge_sort JobStorage.created_ge selected).
  assert (Hperm : sorted ≡ₚ selected) by apply merge_sort_Permutation.
  assert (Hsorted : StronglySorted JobStorage.created_ge sorted)
    by apply (StronglySorted_merge_sort _).
  destruct (sql_limit_split limit sorted) as [rest Hsplit].
  split.
  - intros before r after r' c c' Hresult Hr' Hc Hc' Hv Hv'.
    apply (created_ge_by_time r r'); try done.
    apply (sorted_before _ before after); [|done].
    rewrite <- Hresult. rewrite Hsplit in Hsorted.
    by apply StronglySorted_app_1_l in Hsorted.
  - intros row r c c' Hrow Hnot Hr Hc Hc' Hv Hv'.
    apply (created_ge_by_time r row); try done.
    rewrite <- Hperm, Hsplit, elem_of_app in Hrow.
    destruct Hrow as [Hrow|Hrow]; [done|].
    rewrite Hsplit in Hsorted.
    by apply (StronglySorted_app_1_elem_of _ _ _ r row Hsorted).
Qed.

Lemma timestamp_order_witness :
  String.leb (datetime.timestamp (validate.due + 200)) (datetime.timestamp validate.due)
  = true.
Proof.
  apply (proj1 (proj2 (timestamp_order (validate.due + 200) validate.due
                         eq_refl eq_refl))).
  by vm_compute.
Defined.

Lemma acquire_job_by_time_witness :
  (JobStorage.acquire_job "test4" (validate.due + 200)
     {[ "test4"%string := validate.test4_due ]}).2 = false /\
  validate.due <= validate.due + 200.
Proof.
  assert (Hrow : ({[ "test4"%string := validate.test4_due ]} : DB) !! "test4"%string
                 = Some validate.test4_due) by reflexivity.
  destruct (acquire_job_by_time _ _ (validate.due + 200) validate.due _ Hrow
              (or_intror eq_refl) eq_refl eq_refl eq_refl)
    as (_ & _ & _ & _ & _ & Hrefused).
  apply Hrefused. by vm_compute.
Defined.

Lemma get_pending_jobs_by_time_witness :
  validate.test4_due ∈
    JobStorage.ready_rows (datetime.timestamp (validate.due + 1000000))
      {[ "test4"%string := validate.test4_due ]}.
Proof.
  assert (Hrow : ({[ "test4"%string := validate.test4_due ]} : DB) !! "test4"%string
                 = Some validate.test4_due) by reflexivity.
  destruct (get_pending_jobs_by_time {[ "test4"%string := validate.test4_due ]} 1
              (validate.due + 1000000) eq_refl) as [Hready _].
  destruct (Hready validate.test4_due validate.due
              (ex_intro _ "test4"%string Hrow) eq_refl eq_refl)
    as (_ & _ & _ & Hlate).
  apply Hlate; [by right|]. by vm_compute.
Defined.

Lemma list_jobs_by_time_witness :
  let first := Job.mk "a" "true" pending 0 3 None
                      "2024-05-01T00:00:05Z" "2024-05-01T00:00:05Z" None None in
  let second := Job.mk "b" "true" pending 0 3 None
                       "2024-05-01T00:00:05.000200Z" "2024-05-01T00:00:05.000200Z"
                       None None in
  JobStorage.list_jobs None 10 {[ "a"%string := first; "b"%string := second ]}
    = [first; second] /\
  datetime.text_rank (validate.due + 200) <= datetime.text_rank validate.due.
Proof.
  intros first second. split; [by vm_compute|].
  destruct (list_jobs_by_time None 10 {[ "a"%string := first; "b"%string := second ]})
    as [Horder _].
  destruct (Horder [] first [second] second validate.due (validate.due + 200))
    as (Hrank & _); try done.
  apply list_elem_of_here.
Defined.
